(** * Cortex: ingestion filtering, archiving and hybrid retrieval

    A shallow embedding of the TypeScript sources of the Cortex memory
    plugin (src/config.ts, src/archive.ts, src/embeddings.ts, src/types.ts)
    together with the properties stated about them.

    JavaScript strings are sequences of UTF-16 code units; they are modelled
    as lists of [N] so that [length] is the JavaScript [.length]. *)

From Stdlib Require Import List Arith ZArith NArith Bool Lia String Ascii.
From Stdlib Require Import DecimalString Reals Lra Sorted Permutation.
Import ListNotations.

Set Implicit Arguments.
Set Warnings "-register-all".


(* ================================================================== *)
(** ** JavaScript strings *)
(* ================================================================== *)

Module JsString.

Definition char := N.
Definition jsString := list char.

(** Literals: an ASCII Rocq string read as code units. *)
Definition str (s : string) : jsString :=
  map N_of_ascii (list_ascii_of_string s).

Fixpoint eqb (a b : jsString) : bool :=
  match a, b with
  | [], [] => true
  | x :: a', y :: b' => N.eqb x y && eqb a' b'
  | _, _ => false
  end.

(** ECMAScript WhiteSpace and LineTerminator code points: the class
    used by [String.prototype.trim] and by the regular expression
    escape [\s]. *)
Definition isWhiteSpace (c : char) : bool :=
  ((9 <=? c) && (c <=? 13) || (c =? 32) || (c =? 160)
   || (c =? 0x1680) || ((0x2000 <=? c) && (c <=? 0x200A))
   || (c =? 0x2028) || (c =? 0x2029) || (c =? 0x202F)
   || (c =? 0x205F) || (c =? 0x3000) || (c =? 0xFEFF))%N.

(** [\d] and [\w] (no unicode flag). *)
Definition isDigit (c : char) : bool := ((48 <=? c) && (c <=? 57))%N.
Definition isUpper (c : char) : bool := ((65 <=? c) && (c <=? 90))%N.
Definition isLower (c : char) : bool := ((97 <=? c) && (c <=? 122))%N.
Definition isWord (c : char) : bool :=
  isUpper c || isLower c || isDigit c || (c =? 95)%N.

Fixpoint trimStart (s : jsString) : jsString :=
  match s with
  | [] => []
  | c :: r => if isWhiteSpace c then trimStart r else s
  end.

Definition trimEnd (s : jsString) : jsString := rev (trimStart (rev s)).

(** [s.trim()] *)
Definition trim (s : jsString) : jsString := trimEnd (trimStart s).

(** [a.join(sep)] *)
Fixpoint join (sep : jsString) (parts : list jsString) : jsString :=
  match parts with
  | [] => []
  | [p] => p
  | p :: rest => p ++ sep ++ join sep rest
  end.

(** *** [s.split(regex)]

    A separator is described by the length of its match at a position,
    given the code unit before that position (for the lookbehind) and
    the rest of the string; [0] means no match there.  [split_go]
    follows the specification of [String.prototype.split]: it looks for
    the leftmost match, closes the current piece there, skips the match
    and goes on. *)
Definition separator := option char -> jsString -> nat.

Definition consHead (c : char) (ps : list jsString) : list jsString :=
  match ps with
  | [] => [[c]]
  | p :: ps' => (c :: p) :: ps'
  end.

Fixpoint split_go (m : separator) (prev : option char) (skip : nat)
         (s : jsString) : list jsString :=
  match s with
  | [] => [[]]
  | c :: rest =>
      match skip with
      | S k => split_go m (Some c) k rest
      | O =>
          match m prev s with
          | S k => [] :: split_go m (Some c) k rest
          | O => consHead c (split_go m (Some c) O rest)
          end
      end
  end.

Definition split (m : separator) (s : jsString) : list jsString :=
  split_go m None 0 s.

(** Length of the run of leading code units satisfying [p]. *)
Fixpoint runLength (p : char -> bool) (s : jsString) : nat :=
  match s with
  | c :: r => if p c then S (runLength p r) else 0
  | [] => 0
  end.

End JsString.
Import JsString.

(* ================================================================== *)
(** ** Regular expressions

    The patterns of the archive module use literals, classes,
    alternation, [?], [+], [*] and the anchors [^] and [$]; [test] only
    asks whether a match exists, which the derivative of the expression
    decides. *)
(* ================================================================== *)

Module Regex.

Inductive regex : Type :=
| Void
| Eps
| Class (p : char -> bool)
| Seq (a b : regex)
| Alt (a b : regex)
| Star (a : regex).

Fixpoint nullable (r : regex) : bool :=
  match r with
  | Void => false
  | Eps => true
  | Class _ => false
  | Seq a b => nullable a && nullable b
  | Alt a b => nullable a || nullable b
  | Star _ => true
  end.

(** Constructors that drop dead branches, to keep derivatives small. *)
Definition seq (a b : regex) : regex :=
  match a, b with
  | Void, _ => Void
  | _, Void => Void
  | Eps, _ => b
  | _, _ => Seq a b
  end.

Definition alt (a b : regex) : regex :=
  match a, b with
  | Void, _ => b
  | _, Void => a
  | _, _ => Alt a b
  end.

Fixpoint deriv (c : char) (r : regex) : regex :=
  match r with
  | Void => Void
  | Eps => Void
  | Class p => if p c then Eps else Void
  | Seq a b =>
      if nullable a then alt (seq (deriv c a) b) (deriv c b)
      else seq (deriv c a) b
  | Alt a b => alt (deriv c a) (deriv c b)
  | Star a => seq (deriv c a) (Star a)
  end.

(** The whole string belongs to the language of [r]. *)
Definition fullMatch (r : regex) (s : jsString) : bool :=
  nullable (fold_left (fun r c => deriv c r) s r).

Definition anyChar : regex := Class (fun _ => true).

(** A pattern is its body and whether it is written [^body$]. *)
Record pattern := { anchored : bool; body : regex }.

(** [pattern.test(s)] *)
Definition test (p : pattern) (s : jsString) : bool :=
  if anchored p then fullMatch (body p) s
  else fullMatch (Seq (Star anyChar) (Seq (body p) (Star anyChar))) s.

(** Syntax. *)
Definition chr (c : char) : regex := Class (N.eqb c).

(** A literal code unit under the [i] flag: ASCII letters match both
    cases, everything else itself. *)
Definition chrI (c : char) : regex :=
  if isLower c then Class (fun x => N.eqb x c || N.eqb x (c - 32))
  else if isUpper c then Class (fun x => N.eqb x c || N.eqb x (c + 32))
  else chr c.

Fixpoint seqOf (f : char -> regex) (s : jsString) : regex :=
  match s with
  | [] => Eps
  | [c] => f c
  | c :: r => Seq (f c) (seqOf f r)
  end.

Definition lit (s : string) : regex := seqOf chr (str s).
Definition litI (s : string) : regex := seqOf chrI (str s).

Fixpoint alts (rs : list regex) : regex :=
  match rs with
  | [] => Void
  | [r] => r
  | r :: rest => Alt r (alts rest)
  end.

Definition opt (r : regex) : regex := Alt r Eps.
Definition plus (r : regex) : regex := Seq r (Star r).
Definition ws : regex := Class isWhiteSpace.
Definition word : regex := Class isWord.
Definition digit : regex := Class isDigit.

Definition whole (r : regex) : pattern := {| anchored := true; body := r |}.
Definition anywhere (r : regex) : pattern := {| anchored := false; body := r |}.

End Regex.
Import Regex.

(* ================================================================== *)
(** ** JavaScript values (what [JSON.parse] returns, plus [undefined]) *)
(* ================================================================== *)

Module Js.

Inductive value : Type :=
| VUndefined
| VNull
| VBool (b : bool)
| VNum (n : Z)
| VStr (s : jsString)
| VArr (items : list value)
| VObj (fields : list (jsString * value)).

(** The own enumerable properties of an object, in the order
    [Object.keys] lists them: the array indices first, ascending, then
    the other keys in the order of their creation.  The prototype of an
    object is not part of the model. *)
Definition object := list (jsString * value).

Fixpoint lookup (k : jsString) (o : object) : option value :=
  match o with
  | [] => None
  | (k', v) :: rest => if JsString.eqb k k' then Some v else lookup k rest
  end.

Definition hasKey (k : jsString) (o : object) : bool :=
  match lookup k o with Some _ => true | None => false end.

(** The number a run of decimal digits writes, after [acc]. *)
Fixpoint decimalValue (acc : N) (s : jsString) : option N :=
  match s with
  | [] => Some acc
  | c :: r =>
      if isDigit c then decimalValue (10 * acc + (c - 48))%N r else None
  end.

(** The array index a property key is, when it is one: the canonical
    decimal text of an integer from 0 to 2^32 - 2. *)
Definition arrayIndex (k : jsString) : option N :=
  match k with
  | [] => None
  | c :: r =>
      if N.eqb c 48
      then match r with [] => Some 0%N | _ :: _ => None end
      else match decimalValue 0 k with
           | Some n => if (n <? 4294967295)%N then Some n else None
           | None => None
           end
  end.

(** [o[k] = v] for a key the object has: the value changes, the place
    of the key does not. *)
Fixpoint overwrite (k : jsString) (v : value) (o : object) : object :=
  match o with
  | [] => []
  | (k', v') :: rest =>
      if JsString.eqb k k' then (k', v) :: rest
      else (k', v') :: overwrite k v rest
  end.

(** A new property whose key is the array index [i]: it goes before
    the first property that has a larger index or none. *)
Fixpoint insertIndex (i : N) (k : jsString) (v : value) (o : object)
  : object :=
  match o with
  | [] => [(k, v)]
  | (k', v') :: rest =>
      match arrayIndex k' with
      | Some j =>
          if (j <? i)%N then (k', v') :: insertIndex i k v rest
          else (k, v) :: o
      | None => (k, v) :: o
      end
  end.

(** [o[k] = v] on an object made by a spread.  A key the object has
    keeps its place; a new key goes where [Object.keys] will list it.
    An assignment to [__proto__] on an object without a property of
    that name goes to the setter of [Object.prototype]: it creates no
    property (it sets the prototype, when [v] is an object or [null]). *)
Definition assign (k : jsString) (v : value) (o : object) : object :=
  if hasKey k o then overwrite k v o
  else if JsString.eqb k (str "__proto__") then o
  else match arrayIndex k with
       | Some i => insertIndex i k v o
       | None => o ++ [(k, v)]
       end.

(** [v.k] for the property names used here (none of them is defined on
    numbers, strings, booleans or arrays).  Reading a property of
    [null] or [undefined] throws; the callers guard against it. *)
Definition get (v : value) (k : string) : value :=
  match v with
  | VObj o => match lookup (str k) o with Some x => x | None => VUndefined end
  | _ => VUndefined
  end.

(** ToBoolean *)
Definition truthy (v : value) : bool :=
  match v with
  | VUndefined | VNull => false
  | VBool b => b
  | VNum n => negb (n =? 0)%Z
  | VStr s => negb (Nat.eqb (List.length s) 0)
  | VArr _ | VObj _ => true
  end.

(** [v === 'lit'] *)
Definition isStr (v : value) (lit : string) : bool :=
  match v with
  | VStr s => JsString.eqb s (str lit)
  | _ => false
  end.

End Js.
Import Js.

(* ================================================================== *)
(** ** src/types.ts *)
(* ================================================================== *)

Record StatuslineConfig := {
  enabled : bool;
  showFragments : bool;
  showLastArchive : bool;
  showContext : bool;
  contextWarningThreshold : Z }.

Record ArchiveConfig := {
  autoOnCompact : bool;
  projectScope : bool;
  minContentLength : Z }.

Record MonitorConfig := { tokenThreshold : Z }.

Record Config := {
  statusline : StatuslineConfig;
  archive : ArchiveConfig;
  monitor : MonitorConfig }.

Record ArchiveResult := {
  archived : nat;
  skipped : nat;
  duplicates : nat }.

(** [role] and [timestamp] are copied from the parsed line as they are. *)
Module Msg.
Record TranscriptMessage := {
  role : value;
  content : jsString;
  timestamp : value }.
End Msg.

(** A [Date]: built from a message's timestamp, or read from the clock. *)
Inductive Date : Type :=
| DateOf (v : value)
| DateNow (ms : Z).

(** What a call does: it returns, throws, or never comes back. *)
Inductive error : Type :=
| ReadError
| ModelLoadError
| InferenceError (text : jsString)
| TypeError.

Inductive outcome (A : Type) : Type :=
| Returned (a : A)
| Threw (e : error)
| Diverged.
Arguments Returned {A} a.
Arguments Threw {A} e.
Arguments Diverged {A}.

(* ================================================================== *)
(** ** src/config.ts *)
(* ================================================================== *)

Module ConfigModule.

Definition DEFAULT_STATUSLINE_CONFIG : StatuslineConfig := {|
  enabled := true;
  showFragments := true;
  showLastArchive := true;
  showContext := true;
  contextWarningThreshold := 70 |}.

Definition DEFAULT_ARCHIVE_CONFIG : ArchiveConfig := {|
  autoOnCompact := true;
  projectScope := true;
  minContentLength := 50 |}.

Definition DEFAULT_MONITOR_CONFIG : MonitorConfig := {| tokenThreshold := 70 |}.

Definition DEFAULT_CONFIG : Config := {|
  statusline := DEFAULT_STATUSLINE_CONFIG;
  archive := DEFAULT_ARCHIVE_CONFIG;
  monitor := DEFAULT_MONITOR_CONFIG |}.

(** The object a [Config] is at run time. *)
Definition statuslineValue (c : StatuslineConfig) : value :=
  VObj [ (str "enabled", VBool (enabled c));
         (str "showFragments", VBool (showFragments c));
         (str "showLastArchive", VBool (showLastArchive c));
         (str "showContext", VBool (showContext c));
         (str "contextWarningThreshold", VNum (contextWarningThreshold c)) ].

Definition archiveValue (c : ArchiveConfig) : value :=
  VObj [ (str "autoOnCompact", VBool (autoOnCompact c));
         (str "projectScope", VBool (projectScope c));
         (str "minContentLength", VNum (minContentLength c)) ].

Definition monitorValue (c : MonitorConfig) : value :=
  VObj [ (str "tokenThreshold", VNum (tokenThreshold c)) ].

Definition configValue (c : Config) : value :=
  VObj [ (str "statusline", statuslineValue (statusline c));
         (str "archive", archiveValue (archive c));
         (str "monitor", monitorValue (monitor c)) ].

(** Index keys of arrays and strings. *)
Definition indexKey (i : nat) : jsString :=
  str (NilEmpty.string_of_uint (Nat.to_uint i)).

Fixpoint indexed (A : Type) (f : A -> value) (i : nat) (l : list A) : object :=
  match l with
  | [] => []
  | x :: r => (indexKey i, f x) :: indexed f (S i) r
  end.

(** Own enumerable properties: what the spread [{...v}] copies and
    what [Object.keys(v)] lists.  [None]: [Object.keys] throws. *)
Definition entries (v : value) : option object :=
  match v with
  | VUndefined | VNull => None
  | VBool _ | VNum _ => Some []
  | VStr s => Some (indexed (fun c => VStr [c]) 0 s)
  | VArr items => Some (indexed (fun x => x) 0 items)
  | VObj o => Some o
  end.

(** [{ ...target }] *)
Definition spread (target : value) : object :=
  match entries target with Some o => o | None => [] end.

(** [target[key]] for a [target] that is neither [null] nor
    [undefined] ([deepMerge] throws before it reads a property of such
    a target): the property of the target itself when it has one;
    otherwise what it inherits, which for [__proto__] is the prototype
    of the target, an object without enumerable properties, and for
    every other key [undefined] or a method, which the code treats like
    [undefined] (neither is an object). *)
Definition prop (target : value) (key : jsString) : value :=
  match entries target with
  | Some o =>
      match lookup key o with
      | Some v => v
      | None =>
          if JsString.eqb key (str "__proto__") then VObj [] else VUndefined
      end
  | None => VUndefined
  end.

(** [typeof v === 'object' && v !== null] *)
Definition isObject (v : value) : bool :=
  match v with VObj _ | VArr _ => true | _ => false end.

(** ... [&& !Array.isArray(v)] *)
Definition isPlainObject (v : value) : bool :=
  match v with VObj _ => true | _ => false end.

Definition isUndefined (v : value) : bool :=
  match v with VUndefined => true | _ => false end.

(** One turn of the loop of [deepMerge]; [merged] is the result of the
    recursive call, used in the first branch only. *)
Definition mergeKey (target : value) (key : jsString) (sourceValue : value)
           (merged : object) (result : object) : object :=
  let targetValue := prop target key in
  if isPlainObject sourceValue && isObject targetValue
  then assign key (VObj merged) result
  else if negb (isUndefined sourceValue) then assign key sourceValue result
  else result.

(** The loop of [deepMerge(target, source)], for a [source] that
    [Object.keys] accepts and a [target] whose properties can be read:
    the own properties of the result. *)
Fixpoint deepMergeObject (target source : value) {struct source} : object :=
  match source with
  | VObj fields =>
      (fix loop (fs : object) (result : object) {struct fs} : object :=
         match fs with
         | [] => result
         | (key, sourceValue) :: rest =>
             loop rest
                  (mergeKey target key sourceValue
                            (deepMergeObject (prop target key) sourceValue)
                            result)
         end) fields (spread target)
  | VArr items =>
      (fix loop (i : nat) (its : list value) (result : object)
           {struct its} : object :=
         match its with
         | [] => result
         | sourceValue :: rest =>
             loop (S i) rest
                  (mergeKey target (indexKey i) sourceValue
                            (deepMergeObject (prop target (indexKey i))
                                             sourceValue)
                            result)
         end) 0 items (spread target)
  | VStr s =>
      fold_left (fun result kv => mergeKey target (fst kv) (snd kv) [] result)
                (indexed (fun c => VStr [c]) 0 s) (spread target)
  | _ => spread target
  end.

(** [deepMerge]; [None]: a [TypeError] is thrown, by [Object.keys] of
    a source that is [null] or [undefined], or by [target[key]] at the
    first key of the source when the target is [null] or [undefined]. *)
Definition deepMerge (target source : value) : option value :=
  match source with
  | VUndefined | VNull => None
  | _ =>
      match target, entries source with
      | (VUndefined | VNull), Some (_ :: _) => None
      | _, _ => Some (VObj (deepMergeObject target source))
      end
  end.

(** The configuration file on disk. *)
Inductive configFile : Type :=
| NoConfigFile
| UnreadableConfig
| ConfigText (text : jsString).

Section Load.
(** [JSON.parse]; [None]: it throws a [SyntaxError]. *)
Variable JSON_parse : jsString -> option value.

Definition loadConfig (file : configFile) : value :=
  match file with
  | NoConfigFile => configValue DEFAULT_CONFIG
  | UnreadableConfig => configValue DEFAULT_CONFIG
  | ConfigText text =>
      match JSON_parse text with
      | None => configValue DEFAULT_CONFIG
      | Some loaded =>
          match deepMerge (configValue DEFAULT_CONFIG) loaded with
          | Some merged => merged
          | None => configValue DEFAULT_CONFIG
          end
      end
  end.
End Load.

End ConfigModule.

(* ================================================================== *)
(** ** src/embeddings.ts *)
(* ================================================================== *)

Module Embeddings.

Definition PASSAGE_PREFIX : jsString := str "passage: ".
Definition QUERY_PREFIX : jsString := str "query: ".

(** [texts.slice(i, j)] for [0 <= i <= j]. *)
Definition slice (A : Type) (i j : nat) (l : list A) : list A :=
  firstn (j - i) (skipn i l).

(** One call of the progress callback: [(completed, total)]. *)
Definition progress := (nat * nat)%type.

Record options := {
  batchSize : option nat;
  onProgress : bool;
  isQuery : option bool }.

Definition noOptions : options :=
  {| batchSize := None; onProgress := false; isQuery := None |}.

Section Provider.
Variable Float32Array : Type.

(** The loaded feature-extraction pipeline: the embedding of a text,
    or [None] when the call throws. *)
Definition pipeline := jsString -> option Float32Array.

(** The model behind [initEmbedder]: [None] when it cannot be
    loaded. *)
Variable provider : option pipeline.

Definition initEmbedder : outcome pipeline :=
  match provider with
  | Some pipe => Returned pipe
  | None => Threw ModelLoadError
  end.

(** The inner loop: [for (const text of prefixedBatch)]. *)
Fixpoint embedEach (pipe : pipeline) (prefixedBatch : list jsString)
         (results : list Float32Array) : outcome (list Float32Array) :=
  match prefixedBatch with
  | [] => Returned results
  | text :: rest =>
      match pipe text with
      | Some output => embedEach pipe rest (results ++ [output])
      | None => Threw (InferenceError text)
      end
  end.

(** The outer loop, [for (let i = 0; i < texts.length; i += batchSize)],
    with the calls made to [onProgress] so far. *)
Fixpoint embedLoop (fuel : nat) (pipe : pipeline) (prefix : jsString)
         (texts : list jsString) (size : nat) (report : bool)
         (i : nat) (results : list Float32Array) (calls : list progress)
  : outcome (list Float32Array) * list progress :=
  match fuel with
  | O => (Diverged, calls)
  | S fuel' =>
      if i <? List.length texts then
        let batch := slice i (i + size) texts in
        let prefixedBatch := map (fun t => prefix ++ t) batch in
        match embedEach pipe prefixedBatch results with
        | Returned results' =>
            let calls' :=
              if report
              then calls ++ [(Nat.min (i + size) (List.length texts),
                              List.length texts)]
              else calls in
            embedLoop fuel' pipe prefix texts size report
                      (i + size) results' calls'
        | Threw e => (Threw e, calls)
        | Diverged => (Diverged, calls)
        end
      else (Returned results, calls)
  end.

(** [embedBatch(texts, options)] run for at most [fuel] batches. *)
Definition embedBatchFuel (fuel : nat) (texts : list jsString)
           (opts : options)
  : outcome (list Float32Array) * list progress :=
  let size := match batchSize opts with Some n => n | None => 32 end in
  let query := match isQuery opts with Some b => b | None => false end in
  let prefix := if query then QUERY_PREFIX else PASSAGE_PREFIX in
  match initEmbedder with
  | Returned pipe =>
      embedLoop fuel pipe prefix texts size (onProgress opts) 0 [] []
  | Threw e => (Threw e, [])
  | Diverged => (Diverged, [])
  end.

(** [embedBatch]: a batch size of at least one needs no more than
    one turn per text (and one to leave the loop); with a batch size
    of zero the loop never ends. *)
Definition embedBatch (texts : list jsString) (opts : options)
  : outcome (list Float32Array) * list progress :=
  embedBatchFuel (S (List.length texts)) texts opts.

End Provider.

End Embeddings.
Import Embeddings.

(* ================================================================== *)
(** ** src/database.ts (the memory store) *)
(* ================================================================== *)

Module Database.

Section Store.
Variable Float32Array : Type.

(** Modelled from the spec: the content hash of src/database.ts, a
    deterministic digest of the normalized content (section 3,
    [contentHash]); which digest it is does not matter here. *)
Variable hashContent : jsString -> jsString.

(** [Memory] of src/types.ts; an [embedding] of [None] is
    [undefined]. *)
Record Memory := {
  id : nat;
  content : jsString;
  contentHash : jsString;
  embedding : option Float32Array;
  projectId : option jsString;
  sourceSession : jsString;
  timestamp : Date }.

(** Modelled from the spec: the fragment table of src/database.ts,
    the rows in insertion order (section 6, persisted schema). *)
Definition SqlJsDatabase := list Memory.

(** Modelled from the spec: [contentExists] of src/database.ts,
    true if a fragment with the same content hash already exists
    (section 4.3). *)
Definition contentExists (db : SqlJsDatabase) (text : jsString) : bool :=
  existsb (fun m => JsString.eqb (contentHash m) (hashContent text)) db.

(** Modelled from the spec: identifiers of src/database.ts are
    assigned on insert, increasing, never reused (section 3, [id]). *)
Definition nextId (db : SqlJsDatabase) : nat :=
  S (fold_right Nat.max 0 (map id db)).

(** Modelled from the spec: [insertMemory] of src/database.ts
    computes the content hash; if a fragment with that hash exists it
    returns [isDuplicate = true] and creates no row, otherwise it
    creates the fragment with a fresh id (section 4.3).  The hash
    passed by the caller is ignored. *)
Definition insertMemory (db : SqlJsDatabase) (memory : Memory)
  : SqlJsDatabase * (nat * bool) :=
  let hash := hashContent (content memory) in
  match find (fun m => JsString.eqb (contentHash m) hash) db with
  | Some existing => (db, (id existing, true))
  | None =>
      let row := {| id := nextId db;
                    content := content memory;
                    contentHash := hash;
                    embedding := embedding memory;
                    projectId := projectId memory;
                    sourceSession := sourceSession memory;
                    timestamp := timestamp memory |} in
      (db ++ [row], (id row, false))
  end.

End Store.

End Database.

(* ================================================================== *)
(** ** src/archive.ts *)
(* ================================================================== *)

Module Archive.

Import Database.

(** Minimum content length to consider for archiving. *)
Definition MIN_CONTENT_LENGTH : nat := 50.

(** Patterns to exclude (noise, acknowledgments). *)
Definition EXCLUDED_PATTERNS : list pattern :=
  [ whole (Seq (alts (map litI
      [ "ok"; "okay"; "done"; "yes"; "no"; "sure"; "thanks"; "thank you";
        "got it"; "understood"; "alright" ]%string)) (opt (chr 46%N)));
    whole (Seq (alts (map litI
      [ "hello"; "hi"; "hey"; "bye"; "goodbye" ]%string)) (opt (chr 46%N)));
    whole (Seq (litI "y") (opt (litI "es")));
    whole (Seq (litI "n") (opt (litI "o")));
    whole (plus digit);
    whole (plus (Class (fun c => N.eqb c 46%N || N.eqb c 33%N || N.eqb c 63%N))) ].

(** Content patterns that indicate valuable information. *)
Definition VALUABLE_PATTERNS : list pattern :=
  [ anywhere (Seq (litI "function") (Seq (plus ws) (plus word)));
    anywhere (Seq (litI "class") (Seq (plus ws) (plus word)));
    anywhere (Seq (litI "interface") (Seq (plus ws) (plus word)));
    anywhere (Seq (lit "import") (plus ws));
    anywhere (Seq (lit "export") (plus ws));
    anywhere (Seq (lit "const")
                (Seq (plus ws) (Seq (plus word) (Seq (Star ws) (chr 61%N)))));
    anywhere (Seq (lit "let")
                (Seq (plus ws) (Seq (plus word) (Seq (Star ws) (chr 61%N)))));
    anywhere (Seq (lit "def") (Seq (plus ws) (plus word)));
    anywhere (alts (map litI
      [ "error"; "bug"; "fix"; "issue"; "problem" ]%string));
    anywhere (alts (map (fun s => Seq (litI s) (opt (chrI 100%N)))
      [ "implemente"; "create"; "adde"; "update"; "modifie"; "remove" ]%string));
    anywhere (alts (map litI
      [ "because"; "since"; "therefore"; "however"; "although" ]%string)) ].

(** *** Transcript parsing *)

Definition newline : jsString := [10%N].

(** One turn of the loop over the parts of an array content. *)
Definition pushText (textParts : list jsString) (item : value)
  : list jsString :=
  match item with
  | VStr s => textParts ++ [s]
  | VObj o =>
      match lookup (str "text") o with
      | Some (VStr t) => textParts ++ [t]
      | _ => textParts
      end
  | _ => textParts
  end.

(** Extract text content from various content formats. *)
Definition extractTextContent (content : value) : jsString :=
  match content with
  | VStr s => s
  | VArr items => join newline (fold_left pushText items [])
  | _ => []
  end.

Definition nonEmpty (s : jsString) : bool :=
  negb (Nat.eqb (List.length s) 0).

Section Parse.
(** [JSON.parse]; [None]: it throws a [SyntaxError]. *)
Variable JSON_parse : jsString -> option value.

(** The body of the loop over the lines: the message a line adds,
    if any.  A line that does not parse, and [null] (reading
    [parsed.role] throws), are caught and skipped. *)
Definition parseLine (line : jsString) : option Msg.TranscriptMessage :=
  if negb (nonEmpty (trim line)) then None
  else
    match JSON_parse line with
    | None => None
    | Some VNull => None
    | Some VUndefined => None
    | Some parsed =>
        if truthy (get parsed "role") && truthy (get parsed "content")
        then
          let content := extractTextContent (get parsed "content") in
          if nonEmpty content
          then Some {| Msg.role := get parsed "role";
                       Msg.content := content;
                       Msg.timestamp := get parsed "timestamp" |}
          else None
        else if (isStr (get parsed "type") "message"
                 || isStr (get parsed "type") "user"
                 || isStr (get parsed "type") "assistant")
                && truthy (get parsed "message")
        then
          let message := get parsed "message" in
          let content := extractTextContent (get message "content") in
          if nonEmpty content
          then Some {| Msg.role := get message "role";
                       Msg.content := content;
                       Msg.timestamp := get parsed "timestamp" |}
          else None
        else None
    end.

(** What is at a transcript path: nothing, something that exists
    but cannot be read as a file (the read stream fails), or the
    lines [readline] delivers. *)
Inductive transcriptFile : Type :=
| NoSuchFile
| CannotRead
| Lines (lines : list jsString).

Variable readTranscript : jsString -> transcriptFile.

(** Parse a JSONL transcript file.  Only a missing file is guarded
    ([fs.existsSync]); a failure of the stream is not caught. *)
Definition parseTranscript (transcriptPath : jsString)
  : outcome (list Msg.TranscriptMessage) :=
  match readTranscript transcriptPath with
  | NoSuchFile => Returned []
  | CannotRead => Threw ReadError
  | Lines lines =>
      Returned
        (fold_left
           (fun messages line =>
              match parseLine line with
              | Some m => messages ++ [m]
              | None => messages
              end) lines [])
  end.
End Parse.

(** *** Content filtering *)

(** Check if content should be excluded. *)
Definition shouldExclude (content : jsString) : bool :=
  let trimmed := trim content in
  if List.length trimmed <? MIN_CONTENT_LENGTH then true
  else existsb (fun p => test p trimmed) EXCLUDED_PATTERNS.

(** [/\s+/] as a separator. *)
Definition whitespaceRun : separator :=
  fun _ s => runLength isWhiteSpace s.

(** Check if content appears to be valuable. *)
Definition isValuable (content : jsString) : bool :=
  if existsb (fun p => test p content) VALUABLE_PATTERNS then true
  else
    let words := List.length (split whitespaceRun content) in
    10 <=? words.

(** [/\n\n+/] as a separator. *)
Definition blankLines : separator :=
  fun _ s =>
    let n := runLength (N.eqb 10%N) s in
    if 2 <=? n then n else 0.

Definition isSentenceEnd (c : char) : bool :=
  (N.eqb c 46%N || N.eqb c 33%N || N.eqb c 63%N)%bool.

(** [/(?<=[.!?])\s+/] as a separator. *)
Definition afterSentence : separator :=
  fun prev s =>
    match prev with
    | Some c => if isSentenceEnd c then runLength isWhiteSpace s else 0
    | None => 0
    end.

(** The loop over the sentences of a long paragraph; the state is
    the chunks pushed so far and [currentChunk]. *)
Definition addSentence (st : list jsString * jsString) (sentence : jsString)
  : list jsString * jsString :=
  let (chunks, currentChunk) := st in
  if 800 <? List.length currentChunk + List.length sentence then
    ((if MIN_CONTENT_LENGTH <=? List.length currentChunk
      then chunks ++ [trim currentChunk] else chunks),
     sentence)
  else
    (chunks,
     currentChunk ++ (if nonEmpty currentChunk then str " " else []) ++ sentence).

(** The loop over the paragraphs. *)
Definition addParagraph (chunks : list jsString) (para : jsString)
  : list jsString :=
  let trimmed := trim para in
  if List.length trimmed <? MIN_CONTENT_LENGTH then chunks
  else if 1000 <? List.length trimmed then
    let sentences := split afterSentence trimmed in
    let (chunks', currentChunk) := fold_left addSentence sentences (chunks, []) in
    if MIN_CONTENT_LENGTH <=? List.length currentChunk
    then chunks' ++ [trim currentChunk] else chunks'
  else chunks ++ [trimmed].

(** Extract meaningful chunks from content. *)
Definition extractChunks (content : jsString) : list jsString :=
  let paragraphs := split blankLines content in
  fold_left addParagraph paragraphs [].

(** *** Archiving *)

(** Extract session ID from transcript path: the file name without
    its extension ([/\.[^.]+$/]). *)
Definition slash : separator :=
  fun _ s => match s with c :: _ => if N.eqb c 47%N then 1 else 0 | [] => 0 end.

Definition stripExtension (basename : jsString) : jsString :=
  let r := rev basename in
  let n := runLength (fun c => negb (N.eqb c 46%N)) r in
  if (0 <? n) && (n <? List.length r) then rev (skipn (S n) r) else basename.

Definition getSessionId (transcriptPath : jsString) : jsString :=
  let last := List.last (split slash transcriptPath) [] in
  let basename := if nonEmpty last then last else transcriptPath in
  stripExtension basename.

Section Session.
Variable Float32Array : Type.
Variable hashContent : jsString -> jsString.
Variable provider : option (pipeline Float32Array).
Variable JSON_parse : jsString -> option value.
Variable readTranscript : jsString -> transcriptFile.
(** What [loadConfig()] returns, when it has the shape of a [Config]:
    the definitions of this section are the loops of [archiveSession]
    for a minimum that is a number; [archiveSession] itself, for any
    configuration, follows the section. *)
Variable config : Config.
(** What the clock reads, for [new Date()]. *)
Variable clock : Z.

Definition emptyResult : ArchiveResult :=
  {| archived := 0; skipped := 0; duplicates := 0 |}.

Definition skip (r : ArchiveResult) : ArchiveResult :=
  {| archived := archived r; skipped := S (skipped r);
     duplicates := duplicates r |}.

Definition duplicate (r : ArchiveResult) : ArchiveResult :=
  {| archived := archived r; skipped := skipped r;
     duplicates := S (duplicates r) |}.

Definition archive1 (r : ArchiveResult) : ArchiveResult :=
  {| archived := S (archived r); skipped := skipped r;
     duplicates := duplicates r |}.

(** [config.archive.minContentLength || MIN_CONTENT_LENGTH] *)
Definition minLength : Z :=
  let m := minContentLength (archive config) in
  if (m =? 0)%Z then Z.of_nat MIN_CONTENT_LENGTH else m.

(** The state of the filtering loops: the counters and
    [contentToArchive]. *)
Definition filterState := (ArchiveResult * list (jsString * Date))%type.

(** The body of the loop over the chunks of [message]. *)
Definition considerChunk (db : SqlJsDatabase Float32Array)
           (message : Msg.TranscriptMessage)
           (st : filterState) (chunk : jsString) : filterState :=
  let (result, contentToArchive) := st in
  if (Z.of_nat (List.length chunk) <? minLength)%Z
  then (skip result, contentToArchive)
  else if shouldExclude chunk then (skip result, contentToArchive)
  else if negb (isValuable chunk) then (skip result, contentToArchive)
  else if contentExists hashContent db chunk
  then (duplicate result, contentToArchive)
  else (result,
        contentToArchive ++
          [(chunk,
            if truthy (Msg.timestamp message)
            then DateOf (Msg.timestamp message)
            else DateNow clock)]).

(** The body of the loop over the messages. *)
Definition considerMessage (db : SqlJsDatabase Float32Array)
           (st : filterState) (message : Msg.TranscriptMessage)
  : filterState :=
  if negb (isStr (Msg.role message) "assistant") then st
  else fold_left (considerChunk db message)
                 (extractChunks (Msg.content message)) st.

(** The loop that stores [contentToArchive[i]] with
    [embeddings[i]]. *)
Fixpoint storeAll (db : SqlJsDatabase Float32Array) (sessionId : jsString)
         (projectId : option jsString)
         (contentToArchive : list (jsString * Date))
         (embeddings : list Float32Array) (result : ArchiveResult)
  : SqlJsDatabase Float32Array * ArchiveResult :=
  match contentToArchive with
  | [] => (db, result)
  | (content, timestamp) :: rest =>
      let inserted :=
        insertMemory hashContent db
          {| id := 0;
             Database.content := content;
             contentHash := [];
             embedding := hd_error embeddings;
             Database.projectId := projectId;
             sourceSession := sessionId;
             Database.timestamp := timestamp |} in
      let isDuplicate := snd (snd inserted) in
      storeAll (fst inserted) sessionId projectId rest (tl embeddings)
               (if isDuplicate then duplicate result else archive1 result)
  end.

(** The body of [archiveSession] once the transcript is parsed, for a
    minimum that is a number. *)
Definition archiveMessages (db : SqlJsDatabase Float32Array)
           (messages : list Msg.TranscriptMessage)
           (transcriptPath : jsString) (projectId : option jsString)
           (onProgress : bool)
  : outcome ArchiveResult * SqlJsDatabase Float32Array * list progress :=
  if Nat.eqb (List.length messages) 0
  then (Returned emptyResult, db, [])
  else
    let (result, contentToArchive) :=
      fold_left (considerMessage db) messages (emptyResult, []) in
    if Nat.eqb (List.length contentToArchive) 0
    then (Returned result, db, [])
    else
      let texts := map fst contentToArchive in
      match embedBatch provider texts
              {| batchSize := None; onProgress := onProgress;
                 isQuery := None |} with
      | (Threw e, calls) => (Threw e, db, calls)
      | (Diverged, calls) => (Diverged, db, calls)
      | (Returned embeddings, calls) =>
          let sessionId := getSessionId transcriptPath in
          let (db', result') :=
            storeAll db sessionId projectId contentToArchive
                     embeddings result in
          (Returned result', db', calls)
      end.

End Session.

Section Loaded.
Variable Float32Array : Type.
Variable hashContent : jsString -> jsString.
Variable provider : option (pipeline Float32Array).
Variable JSON_parse : jsString -> option value.
Variable readTranscript : jsString -> transcriptFile.
(** [n < v] of JavaScript for a length [n] and a value [v] that is not
    a number: [v] is converted first (ToPrimitive, then ToNumber);
    [None]: the conversion throws a [TypeError]. *)
Variable lessThan : nat -> value -> option bool.
(** What [loadConfig()] returns. *)
Variable config : value.
(** What the clock reads, for [new Date()]. *)
Variable clock : Z.

(** [config.archive.minContentLength || MIN_CONTENT_LENGTH]; [None]:
    [config.archive] is [null] or [undefined], and reading its property
    throws a [TypeError]. *)
Definition readMinLength : option value :=
  match get config "archive" with
  | VUndefined | VNull => None
  | archive =>
      let m := get archive "minContentLength" in
      Some (if truthy m then m else VNum (Z.of_nat MIN_CONTENT_LENGTH))
  end.

(** [chunk.length < minLength] *)
Definition tooShort (minLength : value) (chunk : jsString) : option bool :=
  match minLength with
  | VNum n => Some (Z.of_nat (List.length chunk) <? n)%Z
  | v => lessThan (List.length chunk) v
  end.

(** The body of the loop over the chunks of [message]; [None]: the
    comparison with [minLength] throws. *)
Definition filterChunk (minLength : value) (db : SqlJsDatabase Float32Array)
           (message : Msg.TranscriptMessage)
           (st : filterState) (chunk : jsString) : option filterState :=
  let (result, contentToArchive) := st in
  match tooShort minLength chunk with
  | None => None
  | Some true => Some (skip result, contentToArchive)
  | Some false =>
      if shouldExclude chunk then Some (skip result, contentToArchive)
      else if negb (isValuable chunk) then Some (skip result, contentToArchive)
      else if contentExists hashContent db chunk
      then Some (duplicate result, contentToArchive)
      else Some (result,
                 contentToArchive ++
                   [(chunk,
                     if truthy (Msg.timestamp message)
                     then DateOf (Msg.timestamp message)
                     else DateNow clock)])
  end.

(** The loop over the chunks of [message]. *)
Fixpoint filterChunks (minLength : value) (db : SqlJsDatabase Float32Array)
         (message : Msg.TranscriptMessage) (chunks : list jsString)
         (st : filterState) : option filterState :=
  match chunks with
  | [] => Some st
  | chunk :: rest =>
      match filterChunk minLength db message st chunk with
      | Some st' => filterChunks minLength db message rest st'
      | None => None
      end
  end.

(** The loop over the messages. *)
Fixpoint filterMessages (minLength : value) (db : SqlJsDatabase Float32Array)
         (messages : list Msg.TranscriptMessage) (st : filterState)
  : option filterState :=
  match messages with
  | [] => Some st
  | message :: rest =>
      if negb (isStr (Msg.role message) "assistant")
      then filterMessages minLength db rest st
      else
        match filterChunks minLength db message
                           (extractChunks (Msg.content message)) st with
        | Some st' => filterMessages minLength db rest st'
        | None => None
        end
  end.

(** Archive a transcript to the database.  The result is what the
    call does, the database afterwards ([saveDb] writes it to disk as
    it is) and the calls made to [options.onProgress]. *)
Definition archiveSession (db : SqlJsDatabase Float32Array)
           (transcriptPath : jsString) (projectId : option jsString)
           (onProgress : bool)
  : outcome ArchiveResult * SqlJsDatabase Float32Array * list progress :=
  match readMinLength with
  | None => (Threw TypeError, db, [])
  | Some minLength =>
      match parseTranscript JSON_parse readTranscript transcriptPath with
      | Threw e => (Threw e, db, [])
      | Diverged => (Diverged, db, [])
      | Returned messages =>
          if Nat.eqb (List.length messages) 0
          then (Returned emptyResult, db, [])
          else
            match filterMessages minLength db messages (emptyResult, []) with
            | None => (Threw TypeError, db, [])
            | Some (result, contentToArchive) =>
                if Nat.eqb (List.length contentToArchive) 0
                then (Returned result, db, [])
                else
                  let texts := map fst contentToArchive in
                  match embedBatch provider texts
                          {| batchSize := None; onProgress := onProgress;
                             isQuery := None |} with
                  | (Threw e, calls) => (Threw e, db, calls)
                  | (Diverged, calls) => (Diverged, db, calls)
                  | (Returned embeddings, calls) =>
                      let sessionId := getSessionId transcriptPath in
                      let (db', result') :=
                        storeAll hashContent db sessionId projectId
                                 contentToArchive embeddings result in
                      (Returned result', db', calls)
                  end
            end
      end
  end.

End Loaded.


End Archive.

(* ================================================================== *)
(** ** src/search.ts (rank fusion) *)
(* ================================================================== *)

Module Search.

Local Open Scope R_scope.





















End Search.


(* ================================================================== *)
(** ** Definitions used by the statements *)
(* ================================================================== *)

Import ConfigModule Database Archive.

(** [JSON.parse] on the texts of a table: each text with the value it
    denotes; any other text is taken not to parse. *)
Definition jsonTable (table : list (jsString * value))
  : jsString -> option value :=
  fun text => lookup text table.

(** The text a part of an array content contributes in
    [extractTextContent]: a string part itself, the [text] of an object
    part when it is a string, nothing otherwise. *)
Definition textOf (item : value) : list jsString :=
  match item with
  | VStr s => [s]
  | VObj o =>
      match lookup (str "text") o with
      | Some (VStr t) => [t]
      | _ => []
      end
  | _ => []
  end.

(** Section 4.1 as it is worded: of a sequence, only the parts carrying
    a [text] attribute contribute. *)
Definition textAttribute (item : value) : list jsString :=
  match item with
  | VObj o =>
      match lookup (str "text") o with
      | Some (VStr t) => [t]
      | _ => []
      end
  | _ => []
  end.

Definition extractTextContentSpec (content : value) : jsString :=
  match content with
  | VStr s => s
  | VArr items => join newline (flat_map textAttribute items)
  | _ => []
  end.

(** The loop of [deepMerge] over the fields of an object source. *)
Definition mergeFields (target : value) (fs : object) (result : object)
  : object :=
  fold_left
    (fun result kv =>
       mergeKey target (fst kv) (snd kv)
                (deepMergeObject (prop target (fst kv)) (snd kv)) result)
    fs result.



(** JSON texts are written with single quotes standing for the double
    quotes. *)
Definition json (s : string) : jsString :=
  map (fun c => if N.eqb c 39 then 34%N else c) (str s).



(** The prefix [embedBatch] puts before each text. *)
Definition prefixOf (opts : options) : jsString :=
  match isQuery opts with
  | Some true => QUERY_PREFIX
  | _ => PASSAGE_PREFIX
  end.

(** A call of the progress callback is well formed for [total] texts. *)
Definition progressOk (total : nat) (call : progress) : Prop :=
  fst call <= snd call /\ snd call = total.

(** No white space at the start, at the end; a piece of text that is not
    empty and has none at either end. *)
Definition startsClean (s : jsString) : bool :=
  match s with
  | c :: _ => negb (isWhiteSpace c)
  | [] => true
  end.

Definition endsClean (s : jsString) : bool := startsClean (rev s).

Definition tidy (s : jsString) : Prop :=
  s <> [] /\ startsClean s = true /\ endsClean s = true.

(** A chunk is at most 800 code units followed by one of the
    [sentences]. *)
Definition oneSentenceOver (sentences : list jsString) (chunk : jsString)
  : Prop :=
  exists pre sentence,
    chunk = pre ++ sentence /\ In sentence sentences
    /\ List.length pre <= 800.

(** A message written by the assistant. *)
Definition isAssistant (m : Msg.TranscriptMessage) : bool :=
  isStr (Msg.role m) "assistant".

(** The chunk candidates of a run: the chunks of its assistant
    messages, in order. *)
Definition candidates (messages : list Msg.TranscriptMessage)
  : list jsString :=
  flat_map (fun m => if isAssistant m then extractChunks (Msg.content m)
                     else [])
           messages.

(** The three gates of [archiveSession]: length, exclusion, value. *)
Definition passesGates (config : Config) (chunk : jsString) : bool :=
  negb (Z.of_nat (List.length chunk) <? minLength config)%Z
  && negb (shouldExclude chunk)
  && isValuable chunk.

(** Examples: a paragraph of one sentence (123 code units), and a
    paragraph of forty sentences (1399 code units). *)
Definition jwtParagraph : jsString :=
  str "We implemented JWT authentication with refresh tokens stored in Redis, because stateless tokens alone could not be revoked.".

Definition longParagraph : jsString :=
  trim (List.concat (repeat (str "One more sentence about the cache. ") 40)).

(** What the gates and the pre-check of [archiveSession] do with one
    chunk, on the counters and the texts kept for embedding. *)
Definition sortChunk (Float32Array : Type) (hashContent : jsString -> jsString)
           (config : Config) (db : SqlJsDatabase Float32Array)
           (st : ArchiveResult * list jsString) (chunk : jsString)
  : ArchiveResult * list jsString :=
  let (result, texts) := st in
  if passesGates config chunk
  then if contentExists hashContent db chunk
       then (duplicate result, texts)
       else (result, texts ++ [chunk])
  else (skip result, texts).

(** The options [archiveSession] passes to [embedBatch]. *)
Definition archiveOptions (onProgress : bool) : options :=
  {| batchSize := None; onProgress := onProgress; isQuery := None |}.

(** An example world: three transcripts, a parser for their lines, a
    model that always answers. *)
Definition noiseParagraph : jsString := repeat 97%N 60.

Definition lineJwt : jsString :=
  json "{'type':'assistant','message':{'role':'assistant','content':[{'type':'text','text':'"
  ++ jwtParagraph
  ++ json "'}]},'timestamp':'2024-06-15T10:00:30.000Z'}".

Definition lineThanks : jsString :=
  json "{'role':'user','content':'thanks'}".

Definition lineNoisy : jsString :=
  json "{'role':'assistant','content':'"
  ++ noiseParagraph ++ str "\n\n" ++ jwtParagraph ++ json "'}".

Definition exampleParse : jsString -> option value :=
  jsonTable
    [ (lineJwt,
       VObj [ (str "type", VStr (str "assistant"));
              (str "message",
               VObj [ (str "role", VStr (str "assistant"));
                      (str "content",
                       VArr [ VObj [ (str "type", VStr (str "text"));
                                     (str "text", VStr jwtParagraph) ] ]) ]);
              (str "timestamp", VStr (str "2024-06-15T10:00:30.000Z")) ]);
      (lineThanks,
       VObj [ (str "role", VStr (str "user"));
              (str "content", VStr (str "thanks")) ]);
      (lineNoisy,
       VObj [ (str "role", VStr (str "assistant"));
              (str "content",
               VStr (noiseParagraph ++ [10%N; 10%N] ++ jwtParagraph)) ]) ].

Definition exampleTranscripts (path : jsString) : transcriptFile :=
  if JsString.eqb path (str "/sessions/twice.jsonl")
  then Lines [lineJwt; lineThanks; lineJwt]
  else if JsString.eqb path (str "/sessions/noisy.jsonl")
  then Lines [lineThanks; lineNoisy]
  else if JsString.eqb path (str "/sessions/locked.jsonl")
  then CannotRead
  else NoSuchFile.

Definition examplePipe : pipeline nat :=
  fun text => Some (List.length text).


(** A comparison that finds no length below a value that is not a
    number (as when the value converts to [NaN]). *)
Definition neverLess : nat -> value -> option bool :=
  fun _ _ => Some false.

(** [archiveSession] in the example world: the default configuration,
    the trimmed content as its own digest. *)
Definition exampleSession (provider : option (pipeline nat))
           (db : SqlJsDatabase nat) (transcriptPath : jsString)
  : outcome ArchiveResult * SqlJsDatabase nat * list progress :=
  archiveSession trim provider exampleParse exampleTranscripts neverLess
                 (configValue ConfigModule.DEFAULT_CONFIG) 0%Z db
                 transcriptPath (Some (str "cortex")) true.

(** What [loadConfig] returns for the configuration file
    [{'archive': null}]. *)
Definition nullArchiveConfig : value :=
  loadConfig (jsonTable [ (json "{'archive':null}",
                           VObj [ (str "archive", VNull) ]) ])
             (ConfigText (json "{'archive':null}")).

(** The messages of an example transcript. *)
Definition parsedMessages (path : jsString) : list Msg.TranscriptMessage :=
  match parseTranscript exampleParse exampleTranscripts path with
  | Returned messages => messages
  | _ => []
  end.

Definition twicePath : jsString := str "/sessions/twice.jsonl".
Definition noisyPath : jsString := str "/sessions/noisy.jsonl".
Definition lockedPath : jsString := str "/sessions/locked.jsonl".
Definition absentPath : jsString := str "/sessions/absent.jsonl".

(** The embedding of one text of a batch. *)
Definition embedText (Float32Array : Type) (pipe : pipeline Float32Array)
           (prefix : jsString) (t : jsString) : option Float32Array :=
  pipe (prefix ++ t).

(** A chunk pushed on the long path. *)
Definition pushedChunk (sentences : list jsString) (chunk : jsString) : Prop :=
  MIN_CONTENT_LENGTH <= List.length chunk /\ oneSentenceOver sentences chunk.

(** The state of the loop over the sentences: the chunks pushed, and
    [currentChunk]. *)
Definition sentenceLoopInv (sentences : list jsString)
           (st : list jsString * jsString) : Prop :=
  Forall (pushedChunk sentences) (fst st)
  /\ (snd st = [] \/ (tidy (snd st) /\ oneSentenceOver sentences (snd st))).


(* ================================================================== *)
(** ** The language of a regular expression *)
(* ================================================================== *)

(** The strings a regular expression denotes; [fullMatch] decides
    membership. *)
Inductive Matches : regex -> jsString -> Prop :=
| MEps : Matches Eps []
| MClass (p : char -> bool) (c : char) : p c = true -> Matches (Class p) [c]
| MSeq (a b : regex) (s t : jsString) :
    Matches a s -> Matches b t -> Matches (Seq a b) (s ++ t)
| MAltL (a b : regex) (s : jsString) : Matches a s -> Matches (Alt a b) s
| MAltR (a b : regex) (s : jsString) : Matches b s -> Matches (Alt a b) s
| MStarNil (a : regex) : Matches (Star a) []
| MStarApp (a : regex) (s t : jsString) :
    Matches a s -> Matches (Star a) t -> Matches (Star a) (s ++ t).

(** A bound on the length of the strings of an expression without
    [Star]. *)
Fixpoint lengthBound (r : regex) : option nat :=
  match r with
  | Void => Some 0
  | Eps => Some 0
  | Class _ => Some 1
  | Seq a b =>
      match lengthBound a, lengthBound b with
      | Some n, Some m => Some (n + m)
      | _, _ => None
      end
  | Alt a b =>
      match lengthBound a, lengthBound b with
      | Some n, Some m => Some (Nat.max n m)
      | _, _ => None
      end
  | Star _ => None
  end.

(** ASCII lower case of a code unit, of a string. *)
Definition lowerAscii (c : char) : char :=
  if isUpper c then (c + 32)%N else c.

Definition lowerCase (s : jsString) : jsString := map lowerAscii s.

(** The words of the last three [VALUABLE_PATTERNS]. *)
Definition valuableWords : list string :=
  [ "error"; "bug"; "fix"; "issue"; "problem";
    "implemente"; "create"; "adde"; "update"; "modifie"; "remove";
    "because"; "since"; "therefore"; "however"; "although" ]%string.

(** Two line feeds in a row somewhere in a text. *)
Fixpoint hasBlankLine (s : jsString) : bool :=
  match s with
  | [] => false
  | _ :: r => (2 <=? runLength (N.eqb 10%N) s) || hasBlankLine r
  end.

(** The last code unit of a text, if any, is not a line feed; the first
    is not. *)
Definition endsOffLine (s : jsString) : Prop :=
  s = [] \/ exists pre c, s = pre ++ [c] /\ N.eqb 10%N c = false.

Definition startsOffLine (s : jsString) : Prop :=
  match s with
  | [] => True
  | c :: _ => N.eqb 10%N c = false
  end.

(** A transcript whose assistant only says short things. *)
Definition lineBrief : jsString :=
  json "{'role':'assistant','content':'Done, the tests pass now.'}".

Definition briefParse : jsString -> option value :=
  jsonTable
    [ (lineBrief,
       VObj [ (str "role", VStr (str "assistant"));
              (str "content", VStr (str "Done, the tests pass now.")) ]) ].

Definition briefTranscripts (path : jsString) : transcriptFile :=
  Lines [lineBrief].

(** A text without the code unit [c]. *)
Definition without (c : char) (s : jsString) : bool :=
  forallb (fun x => negb (N.eqb x c)) s.

(** A directory prefix of a path: nothing, or something ending in a
    slash. *)
Definition directoryPrefix (prefix : jsString) : Prop :=
  prefix = [] \/ exists dir, prefix = dir ++ [47%N].

(* ================================================================== *)
(** ** Saving and updating the configuration *)
(* ================================================================== *)

(** The keys of [base] stay, in their order. *)
Definition keepsKeys (base o : object) : Prop :=
  filter (fun k => hasKey k base) (map fst o) = map fst base.

(** The array index [a] is not above the array index [b]. *)
Definition indexBefore (a b : jsString) : Prop :=
  match arrayIndex a, arrayIndex b with
  | Some i, Some j => (i <= j)%N
  | _, _ => False
  end.

(** The keys are array indices in ascending order, then those of
    [named], then keys that are no array index; no key comes twice. *)
Definition indicesFirst (named : list jsString) (o : object) : Prop :=
  exists indices others,
    map fst o = indices ++ named ++ others
    /\ Forall (fun k => arrayIndex k <> None) indices
    /\ StronglySorted indexBefore indices
    /\ Forall (fun k => arrayIndex k = None) others
    /\ NoDup (map fst o).

Module ConfigStore.

Inductive ConfigPreset : Type := full | essential | minimal.

Definition CONFIG_PRESETS (preset : ConfigPreset) : Config :=
  match preset with
  | full =>
      {| statusline := {| enabled := true; showFragments := true;
                          showLastArchive := true; showContext := true;
                          contextWarningThreshold := 70 |};
         archive := {| autoOnCompact := true; projectScope := true;
                       minContentLength := 50 |};
         monitor := {| tokenThreshold := 70 |} |}
  | essential =>
      {| statusline := {| enabled := true; showFragments := true;
                          showLastArchive := false; showContext := true;
                          contextWarningThreshold := 80 |};
         archive := {| autoOnCompact := true; projectScope := true;
                       minContentLength := 100 |};
         monitor := {| tokenThreshold := 80 |} |}
  | minimal =>
      {| statusline := {| enabled := false; showFragments := false;
                          showLastArchive := false; showContext := false;
                          contextWarningThreshold := 90 |};
         archive := {| autoOnCompact := false; projectScope := true;
                       minContentLength := 50 |};
         monitor := {| tokenThreshold := 90 |} |}
  end.

Section Disk.
(** [JSON.stringify(config, null, 2)] and [JSON.parse]. *)
Variable JSON_stringify : value -> jsString.
Variable JSON_parse : jsString -> option value.

(** Save configuration to disk: the configuration file afterwards (the
    write itself is taken to succeed). *)
Definition saveConfig (config : value) : configFile :=
  ConfigText (JSON_stringify config).

(** Update a specific section of the configuration: the updated
    configuration and the file afterwards; [None]: [deepMerge] throws
    and nothing is written. *)
Definition updateConfig (file : configFile) (updates : value)
  : option (value * configFile) :=
  let current := loadConfig JSON_parse file in
  match deepMerge current updates with
  | Some updated => Some (updated, saveConfig updated)
  | None => None
  end.

(** Apply a configuration preset. *)
Definition applyPreset (preset : ConfigPreset)
  : option (value * configFile) :=
  let presetConfig := configValue (CONFIG_PRESETS preset) in
  match deepMerge (configValue DEFAULT_CONFIG) presetConfig with
  | Some config => Some (config, saveConfig config)
  | None => None
  end.
End Disk.

End ConfigStore.

(** A section of the configuration given whole, as the fields of a
    [Partial<Config>] are. *)
Inductive configSection : Type :=
| StatuslineSection (s : StatuslineConfig)
| ArchiveSection (a : ArchiveConfig)
| MonitorSection (m : MonitorConfig).

Definition sectionField (s : configSection) : jsString * value :=
  match s with
  | StatuslineSection s => (str "statusline", statuslineValue s)
  | ArchiveSection a => (str "archive", archiveValue a)
  | MonitorSection m => (str "monitor", monitorValue m)
  end.

(** The object of a [Partial<Config>] with the given sections. *)
Definition partialConfig (sections : list configSection) : value :=
  VObj (map sectionField sections).

Definition setSection (c : Config) (s : configSection) : Config :=
  match s with
  | StatuslineSection s =>
      {| statusline := s; archive := archive c; monitor := monitor c |}
  | ArchiveSection a =>
      {| statusline := statusline c; archive := a; monitor := monitor c |}
  | MonitorSection m =>
      {| statusline := statusline c; archive := archive c; monitor := m |}
  end.

(** A disk that keeps one text: what [JSON.stringify] writes for the
    minimal preset, and what [JSON.parse] reads back from it. *)
Definition minimalText : jsString :=
  json "{'statusline':{'enabled':false,'showFragments':false,'showLastArchive':false,'showContext':false,'contextWarningThreshold':90},'archive':{'autoOnCompact':false,'projectScope':true,'minContentLength':50},'monitor':{'tokenThreshold':90}}".

Definition minimalStringify (v : value) : jsString := minimalText.

Definition minimalParse : jsString -> option value :=
  jsonTable
    [ (minimalText, configValue (ConfigStore.CONFIG_PRESETS ConfigStore.minimal)) ].

(* ================================================================== *)
(** ** The other embedding functions *)
(* ================================================================== *)

Section EmbeddingFunctions.
Variable Float32Array : Type.
Variable provider : option (pipeline Float32Array).

(** Generate embeddings for passages (content to be stored). *)
Definition embedPassages (texts : list jsString)
  : outcome (list Float32Array) :=
  match initEmbedder provider with
  | Returned pipe =>
      let prefixedTexts := map (fun t => PASSAGE_PREFIX ++ t) texts in
      embedEach pipe prefixedTexts []
  | Threw e => Threw e
  | Diverged => Diverged
  end.

(** Generate embedding for a single passage: [results[0]], which is
    [None] when it is [undefined]. *)
Definition embedPassage (text : jsString) : outcome (option Float32Array) :=
  match embedPassages [text] with
  | Returned results => Returned (hd_error results)
  | Threw e => Threw e
  | Diverged => Diverged
  end.

(** Generate embedding for a search query. *)
Definition embedQuery (text : jsString) : outcome Float32Array :=
  match initEmbedder provider with
  | Returned pipe =>
      let prefixedText := QUERY_PREFIX ++ text in
      match pipe prefixedText with
      | Some output => Returned output
      | None => Threw (InferenceError prefixedText)
      end
  | Threw e => Threw e
  | Diverged => Diverged
  end.

End EmbeddingFunctions.

(** The result of a call, with a function applied to what it returns. *)
Definition mapOutcome (A B : Type) (f : A -> B) (o : outcome A) : outcome B :=
  match o with
  | Returned a => Returned (f a)
  | Threw e => Threw e
  | Diverged => Diverged
  end.

(** A model that refuses the texts longer than 16 code units. *)
Definition shortPipe : pipeline nat :=
  fun text => if List.length text <=? 16 then Some (List.length text) else None.

(* ================================================================== *)
(** ** The embedder as module state *)
(* ================================================================== *)

Module Singleton.

Section Loader.
Variable Float32Array : Type.

(** What the [k]-th attempt to load the model gives (the import of the
    library, then [pipeline('feature-extraction', MODEL_NAME, ...)]):
    the pipeline, or [None] when the attempt throws. *)
Variable load : nat -> option (pipeline Float32Array).

(** The variables of the module, for calls that are awaited one after
    the other (an [initPromise] that is set is settled), and the number
    of attempts made so far. *)
Record state := {
  embedder : option (pipeline Float32Array);
  initPromise : option (outcome (pipeline Float32Array));
  attempts : nat }.

Definition initial : state :=
  {| embedder := None; initPromise := None; attempts := 0 |}.

(** Initialize the embedding pipeline: what the call gives, and the
    state afterwards. *)
Definition initEmbedder (st : state)
  : outcome (pipeline Float32Array) * state :=
  match embedder st with
  | Some e => (Returned e, st)
  | None =>
      match initPromise st with
      | Some promise => (promise, st)
      | None =>
          match load (attempts st) with
          | Some e =>
              (Returned e,
               {| embedder := Some e; initPromise := Some (Returned e);
                  attempts := S (attempts st) |})
          | None =>
              (Threw ModelLoadError,
               {| embedder := None; initPromise := None;
                  attempts := S (attempts st) |})
          end
      end
  end.

(** Check if embedder is initialized. *)
Definition isEmbedderReady (st : state) : bool :=
  match embedder st with Some _ => true | None => false end.

(** The state after [n] calls of [initEmbedder]. *)
Fixpoint after (n : nat) (st : state) : state :=
  match n with
  | O => st
  | S n' => after n' (snd (initEmbedder st))
  end.

End Loader.

End Singleton.

(** A model that loads at the third attempt. *)
Definition thirdTime (k : nat) : option (pipeline nat) :=
  if k <? 2 then None else Some examplePipe.

(* ================================================================== *)
(** ** Archiving content directly *)
(* ================================================================== *)

Record ContentResult := {
  success : bool;
  isDuplicate : bool }.

Section Manual.
Variable Float32Array : Type.
Variable hashContent : jsString -> jsString.
Variable provider : option (pipeline Float32Array).
(** What the clock reads, for [new Date()]. *)
Variable clock : Z.

(** Archive content directly (for manual archiving): what the call
    does, and the database afterwards. *)
Definition archiveContent (db : SqlJsDatabase Float32Array)
           (content : jsString) (projectId : option jsString)
  : outcome ContentResult * SqlJsDatabase Float32Array :=
  if contentExists hashContent db content
  then (Returned {| success := false; isDuplicate := true |}, db)
  else
    match fst (embedBatch provider [content] noOptions) with
    | Returned embeddings =>
        let inserted :=
          insertMemory hashContent db
            {| id := 0;
               Database.content := content;
               contentHash := [];
               embedding := hd_error embeddings;
               Database.projectId := projectId;
               sourceSession := str "manual";
               Database.timestamp := DateNow clock |} in
        let isDuplicate := snd (snd inserted) in
        (Returned {| success := negb isDuplicate;
                     isDuplicate := isDuplicate |},
         fst inserted)
    | Threw e => (Threw e, db)
    | Diverged => (Diverged, db)
    end.

(** What a row archived from a transcript holds besides its content:
    the session and the project of the run, the digest of its content
    and the embedding of its content as a passage. *)
Definition rowOfRun (sessionId : jsString) (projectId : option jsString)
           (row : Memory Float32Array) : Prop :=
  sourceSession row = sessionId
  /\ Database.projectId row = projectId
  /\ contentHash row = hashContent (Database.content row)
  /\ exists pipe output,
      provider = Some pipe
      /\ pipe (PASSAGE_PREFIX ++ Database.content row) = Some output
      /\ embedding row = Some output.

End Manual.

(* ================================================================== *)
(** ** Lines of a transcript *)
(* ================================================================== *)

(** A line that is blank, that [JSON.parse] rejects, or that is the
    JSON text of something other than an object. *)
Definition malformed (JSON_parse : jsString -> option value)
           (line : jsString) : Prop :=
  nonEmpty (trim line) = false
  \/ match JSON_parse line with
     | None => True
     | Some (VObj _) => False
     | Some _ => True
     end.

(** The messages a line adds. *)
Definition lineMessages (JSON_parse : jsString -> option value)
           (line : jsString) : list Msg.TranscriptMessage :=
  match parseLine JSON_parse line with
  | Some m => [m]
  | None => []
  end.

(** Two transcripts that differ by a line that is not JSON. *)
Definition gappyTranscripts (path : jsString) : transcriptFile :=
  if JsString.eqb path (str "/sessions/gappy.jsonl")
  then Lines [lineBrief; str "{'role':"; lineBrief]
  else Lines [lineBrief; lineBrief].

(* ================================================================== *)
(** ** Words *)
(* ================================================================== *)

(** A word: some code units, none of them white space. *)
Definition isWordText (w : jsString) : Prop :=
  w <> [] /\ forallb (fun c => negb (isWhiteSpace c)) w = true.

(** A gap between two words: some white space. *)
Definition isGap (sep : jsString) : Prop :=
  sep <> [] /\ forallb isWhiteSpace sep = true.

(* ================================================================== *)
(** ** The report of a run *)
(* ================================================================== *)

From Stdlib Require DecimalNat.

(** A count in a template literal: its decimal digits. *)
Definition decimal (n : nat) : jsString :=
  str (NilEmpty.string_of_uint (Nat.to_uint n)).

(** Format archive result for display. *)
Definition formatArchiveResult (result : ArchiveResult) : jsString :=
  let lines := [] in
  let lines := lines ++ [str "Archive Complete"] in
  let lines := lines ++ [str "----------------"] in
  let lines :=
    lines ++ [str "Archived:   " ++ decimal (archived result)
              ++ str " fragments"] in
  let lines :=
    lines ++ [str "Skipped:    " ++ decimal (skipped result)
              ++ str " (too short/noise)"] in
  let lines :=
    lines ++ [str "Duplicates: " ++ decimal (duplicates result)
              ++ str " (already stored)"] in
  join newline lines.

(* ================================================================== *)
(** ** Command line arguments *)
(* ================================================================== *)

Module Cli.

(** [s.startsWith(prefix)] *)
Definition startsWith (s prefix : jsString) : bool :=
  JsString.eqb (firstn (List.length prefix) s) prefix.

(** [arg === '--all' || arg === '--global'] *)
Definition isAllFlag (arg : jsString) : bool :=
  JsString.eqb arg (str "--all") || JsString.eqb arg (str "--global").

(** The variables the argument loop of [handleSave] sets. *)
Record saveArguments := {
  transcriptPath : jsString;
  forceGlobal : bool }.

(** One turn of the loop of [handleSave] over its arguments. *)
Definition saveArgument (st : saveArguments) (arg : jsString)
  : saveArguments :=
  if isAllFlag arg
  then {| transcriptPath := transcriptPath st; forceGlobal := true |}
  else if startsWith arg (str "--transcript=")
  then {| transcriptPath := skipn (List.length (str "--transcript=")) arg;
          forceGlobal := forceGlobal st |}
  else if negb (startsWith arg (str "--"))
  then {| transcriptPath := arg; forceGlobal := forceGlobal st |}
  else st.

Definition parseSaveArguments (args : list jsString) : saveArguments :=
  fold_left saveArgument args {| transcriptPath := []; forceGlobal := false |}.

(** The variables the argument loop of [handleRecall] sets. *)
Record recallArguments := {
  query : jsString;
  includeAll : bool }.

(** One turn of the loop of [handleRecall] over its arguments. *)
Definition recallArgument (st : recallArguments) (arg : jsString)
  : recallArguments :=
  if isAllFlag arg
  then {| query := query st; includeAll := true |}
  else if negb (startsWith arg (str "--"))
  then {| query := query st
                   ++ ((if nonEmpty (query st) then str " " else []) ++ arg);
          includeAll := includeAll st |}
  else st.

Definition parseRecallArguments (args : list jsString) : recallArguments :=
  fold_left recallArgument args {| query := []; includeAll := false |}.

End Cli.

(** The arguments that are not options. *)
Definition plainArguments (args : list jsString) : list jsString :=
  filter (fun arg => negb (Cli.startsWith arg (str "--"))) args.

(** A list of words without the empty words at its head. *)
Fixpoint dropEmpty (words : list jsString) : list jsString :=
  match words with
  | [] :: rest => dropEmpty rest
  | _ => words
  end.

(** The path an argument of [save] gives, if it gives one. *)
Definition pathArgument (arg : jsString) : option jsString :=
  if Cli.isAllFlag arg then None
  else if Cli.startsWith arg (str "--transcript=")
  then Some (skipn (List.length (str "--transcript=")) arg)
  else if negb (Cli.startsWith arg (str "--")) then Some arg
  else None.


(* ================================================================== *)
(** * Properties *)
(* ================================================================== *)

#[local] Arguments Nat.leb : simpl never.
#[local] Arguments Nat.ltb : simpl never.

(** ** Strings and objects *)

Lemma jsString_eqb_eq (a b : jsString) : JsString.eqb a b = true <-> a = b.
Proof.
  revert b; induction a as [|x a IH]; intros [|y b]; simpl;
    try (split; [discriminate | discriminate]); try tauto.
  rewrite andb_true_iff, N.eqb_eq, IH.
  split; [intros [-> ->]; reflexivity | intros H; inversion H; auto].
Qed.

Lemma jsString_eqb_refl (a : jsString) : JsString.eqb a a = true.
Proof. apply jsString_eqb_eq; reflexivity. Qed.

Lemma jsString_eqb_neq (a b : jsString) : JsString.eqb a b = false <-> a <> b.
Proof.
  rewrite <- jsString_eqb_eq.
  destruct (JsString.eqb a b); split; congruence.
Qed.










(** ** The model on small inputs *)

Example split_paragraphs :
  split blankLines (str "one" ++ [10; 10; 10]%N ++ str "two" ++ [10]%N
                    ++ str "three")
  = [str "one"; str "two" ++ [10%N] ++ str "three"].
Proof. reflexivity. Qed.

Example split_sentences :
  split afterSentence (str "Done. Is it?  Yes! ok")
  = [str "Done."; str "Is it?"; str "Yes!"; str "ok"].
Proof. reflexivity. Qed.

Example exclude_acknowledgment :
  map (fun p => test p (str "Thank you.")) EXCLUDED_PATTERNS
  = [true; false; false; false; false; false].
Proof. vm_compute; reflexivity. Qed.

Example jwt_is_kept :
  shouldExclude jwtParagraph = false /\ isValuable jwtParagraph = true
  /\ extractChunks (jwtParagraph ++ [10; 10]%N ++ str "thanks")
     = [jwtParagraph].
Proof. repeat split; vm_compute; reflexivity. Qed.

Example noise_is_not_valuable :
  shouldExclude noiseParagraph = false /\ isValuable noiseParagraph = false.
Proof. split; vm_compute; reflexivity. Qed.

Example session_of_path :
  getSessionId (str "/home/me/.claude/a.b/test-session.jsonl")
  = str "test-session".
Proof. vm_compute; reflexivity. Qed.

(** ** C7: content extraction *)

Lemma pushText_textOf (items : list value) (acc : list jsString) :
  fold_left pushText items acc = acc ++ flat_map textOf items.
Proof.
  revert acc; induction items as [|item items IH]; intros acc; simpl.
  - now rewrite app_nil_r.
  - rewrite IH.
    destruct item as [| | | |s| |o]; simpl; try reflexivity.
    + now rewrite <- app_assoc.
    + destruct (lookup (str "text") o) as [[| | | |t| |]|]; simpl;
        try reflexivity.
      now rewrite <- app_assoc.
Qed.

(** C7, as amended: a string content is returned unchanged; of a
    sequence, the string parts themselves and the string [text]
    attributes of the object parts are returned, in order, joined by
    newlines, and every other part is dropped; any other content yields
    the empty string. *)
Theorem extractTextContent_parts (content : value) :
  extractTextContent content =
  match content with
  | VStr s => s
  | VArr items => join newline (flat_map textOf items)
  | _ => []
  end.
Proof.
  destruct content; simpl; try reflexivity.
  now rewrite pushText_textOf.
Qed.

(** C7, as stated, fails: a bare string part carries no [text]
    attribute, yet it is kept. *)
Lemma extractTextContent_keeps_string_parts :
  let content :=
    VArr [ VStr (str "first");
           VObj [ (str "type", VStr (str "text"));
                  (str "text", VStr (str "second")) ] ] in
  extractTextContent content = str "first" ++ newline ++ str "second"
  /\ extractTextContentSpec content = str "second"
  /\ extractTextContent content <> extractTextContentSpec content.
Proof.
  repeat split; try reflexivity.
  vm_compute; discriminate.
Qed.

(** ** C9: configuration merge *)

Lemma deepMergeObject_VObj (target : value) (fields : object) :
  deepMergeObject target (VObj fields) = mergeFields target fields (spread target).
Proof.
  unfold mergeFields; simpl.
  generalize (spread target) as result.
  induction fields as [|[key sourceValue] rest IH]; intros result; simpl.
  - reflexivity.
  - apply IH.
Qed.








(** ** C10: batch embedding *)

Section EmbedBatch.
Variable Float32Array : Type.
Variable pipe : pipeline Float32Array.
Variable prefix : jsString.

Local Abbreviation embedOne := (embedText pipe prefix).

Lemma firstn_plus (A : Type) (i s : nat) (l : list A) :
  firstn (i + s) l = firstn i l ++ firstn s (skipn i l).
Proof.
  revert l; induction i as [|i IH]; intros [|x l]; simpl;
    try reflexivity.
  - now destruct s.
  - now rewrite IH.
Qed.

Lemma embedEach_ok (batch : list jsString) :
  Forall (fun t => embedOne t <> None) batch ->
  forall results,
  exists es,
    embedEach pipe (map (fun t => prefix ++ t) batch) results
    = Returned (results ++ es)
    /\ map Some es = map embedOne batch.
Proof.
  induction 1 as [|t batch Ht _ IH]; intros results; simpl.
  - exists []; now rewrite app_nil_r.
  - unfold embedOne in Ht.
    destruct (pipe (prefix ++ t)) as [e|] eqn:E; [|congruence].
    destruct (IH (results ++ [e])) as [es [Hrun Hes]].
    exists (e :: es); split.
    + now rewrite Hrun, <- app_assoc.
    + simpl; rewrite Hes; f_equal.
      unfold embedOne; now rewrite E.
Qed.

Lemma Forall_prefix (A : Type) (P : A -> Prop) (n : nat) (l : list A) :
  Forall P l -> Forall P (firstn n l).
Proof.
  intros H; revert n; induction H; intros [|n]; simpl; auto.
Qed.

Lemma Forall_suffix (A : Type) (P : A -> Prop) (n : nat) (l : list A) :
  Forall P l -> Forall P (skipn n l).
Proof.
  intros H; revert n; induction H; intros [|n]; simpl; auto.
Qed.

Lemma Forall_slice (A : Type) (P : A -> Prop) (i j : nat) (l : list A) :
  Forall P l -> Forall P (slice i j l).
Proof.
  intros H; unfold slice.
  now apply Forall_prefix, Forall_suffix.
Qed.

Lemma embedLoop_ok (texts : list jsString) (size : nat) (report : bool) :
  1 <= size ->
  Forall (fun t => embedOne t <> None) texts ->
  forall fuel i results calls,
    List.length texts - i < fuel ->
    map Some results = map embedOne (firstn i texts) ->
    exists results' calls',
      embedLoop fuel pipe prefix texts size report i results calls
      = (Returned results', calls ++ calls')
      /\ map Some results' = map embedOne texts
      /\ (report = false -> calls' = [])
      /\ (report = true ->
          Forall (progressOk (List.length texts)) calls'
          /\ (i < List.length texts ->
              calls' <> []
              /\ last calls' (0, 0) = (List.length texts, List.length texts))).
Proof.
  intros Hsize Hall.
  induction fuel as [|fuel IH]; intros i results calls Hfuel Hinv;
    [lia|].
  simpl.
  destruct (i <? List.length texts) eqn:Hlt.
  - apply Nat.ltb_lt in Hlt.
    destruct (embedEach_ok (Forall_slice i (i + size) Hall) results)
      as [es [Hrun Hes]].
    rewrite Hrun.
    assert (Hinv' : map Some (results ++ es)
                    = map embedOne (firstn (i + size) texts)).
    { rewrite map_app, Hinv, Hes, firstn_plus, map_app.
      unfold slice. now replace (i + size - i) with size by lia. }
    set (call := (Nat.min (i + size) (List.length texts), List.length texts)).
    destruct (IH (i + size) (results ++ es)
                 (if report then calls ++ [call] else calls))
      as [results' [calls' [Hloop [Hres [Hoff Hon]]]]];
      [lia | exact Hinv' |].
    rewrite Hloop.
    destruct report.
    + exists results', (call :: calls'); repeat split.
      * now rewrite <- app_assoc.
      * exact Hres.
      * discriminate.
      * constructor; [|apply Hon; reflexivity].
        unfold progressOk, call; simpl; split; [lia | reflexivity].
      * discriminate.
      * destruct (Hon eq_refl) as [_ Hlast].
        destruct (Nat.lt_ge_cases (i + size) (List.length texts)) as [Hmore|Hdone].
        -- destruct (Hlast Hmore) as [Hne Hl].
           destruct calls' as [|c calls']; [congruence|].
           exact Hl.
        -- assert (Hnil : calls' = []).
           { destruct fuel as [|fuel']; [lia|].
             simpl in Hloop.
             replace (i + size <? List.length texts) with false in Hloop
               by (symmetry; apply Nat.ltb_ge; lia).
             inversion Hloop as [[Hr Hc]].
             rewrite <- (app_nil_r (calls ++ [call])) in Hc at 1.
             now apply app_inv_head in Hc. }
           subst calls'; simpl; unfold call.
           now rewrite Nat.min_r by lia.
    + exists results', calls'; repeat split; auto; try discriminate.
  - apply Nat.ltb_ge in Hlt.
    exists results, []; repeat split; auto.
    + now rewrite app_nil_r.
    + now rewrite Hinv, firstn_all2 by lia.
    + lia.
    + lia.
Qed.

End EmbedBatch.

(** ** C3: chunking *)

(** *** Trimming *)

Lemma trimStart_suffix (s : jsString) : exists pre, s = pre ++ trimStart s.
Proof.
  induction s as [|c s [pre IH]]; simpl.
  - now exists [].
  - destruct (isWhiteSpace c).
    + exists (c :: pre); simpl; now rewrite <- IH.
    + now exists [].
Qed.

Lemma trimStart_startsClean (s : jsString) : startsClean (trimStart s) = true.
Proof.
  induction s as [|c s IH]; simpl; auto.
  destruct (isWhiteSpace c) eqn:E; auto.
  simpl; now rewrite E.
Qed.

Lemma trimStart_clean (s : jsString) : startsClean s = true -> trimStart s = s.
Proof.
  destruct s as [|c s]; simpl; auto.
  now destruct (isWhiteSpace c).
Qed.

Lemma trimEnd_prefix (s : jsString) : exists post, s = trimEnd s ++ post.
Proof.
  unfold trimEnd.
  destruct (trimStart_suffix (rev s)) as [pre H].
  exists (rev pre).
  rewrite <- rev_app_distr, <- H.
  now rewrite rev_involutive.
Qed.

Lemma startsClean_prefix (a b : jsString) :
  startsClean (a ++ b) = true -> a <> [] -> startsClean a = true.
Proof. destruct a; simpl; congruence. Qed.

Lemma trim_tidy_ends (s : jsString) :
  startsClean (trim s) = true /\ endsClean (trim s) = true.
Proof.
  unfold trim; split.
  - destruct (trimEnd_prefix (trimStart s)) as [post H].
    destruct (trimEnd (trimStart s)) as [|c r] eqn:E; [reflexivity|].
    apply (@startsClean_prefix (c :: r) post); [|discriminate].
    rewrite <- H; apply trimStart_startsClean.
  - unfold endsClean, trimEnd.
    rewrite rev_involutive; apply trimStart_startsClean.
Qed.

Lemma trim_clean (s : jsString) :
  startsClean s = true -> endsClean s = true -> trim s = s.
Proof.
  intros Hs He; unfold trim, trimEnd.
  rewrite (trimStart_clean _ Hs).
  unfold endsClean in He.
  now rewrite (trimStart_clean _ He), rev_involutive.
Qed.

Lemma endsClean_single (c : char) : endsClean [c] = negb (isWhiteSpace c).
Proof. reflexivity. Qed.

Lemma endsClean_app (a b : jsString) :
  b <> [] -> endsClean (a ++ b) = endsClean b.
Proof.
  intros Hb; unfold endsClean; rewrite rev_app_distr.
  destruct (rev b) as [|x r] eqn:E; [|reflexivity].
  apply (f_equal (@rev char)) in E; rewrite rev_involutive in E.
  now destruct Hb.
Qed.

Lemma endsClean_cons (c : char) (r : jsString) :
  endsClean (c :: r) = true -> endsClean r = true.
Proof.
  destruct r as [|x r]; [reflexivity|].
  change (c :: x :: r) with ([c] ++ x :: r).
  now rewrite endsClean_app by discriminate.
Qed.

Lemma startsClean_app (a b : jsString) :
  a <> [] -> startsClean (a ++ b) = startsClean a.
Proof. destruct a; simpl; congruence. Qed.

Lemma sentenceEnd_not_whiteSpace (c : char) :
  isSentenceEnd c = true -> isWhiteSpace c = false.
Proof.
  unfold isSentenceEnd; rewrite !orb_true_iff, !N.eqb_eq.
  intros [[-> | ->] | ->]; reflexivity.
Qed.

(** *** Sentences of a trimmed paragraph *)

Lemma runLength_zero_head (p : char -> bool) (c : char) (r : jsString) :
  runLength p (c :: r) = 0 -> p c = false.
Proof. simpl; destruct (p c); [discriminate | reflexivity]. Qed.

Lemma runLength_succ (p : char -> bool) (c : char) (r : jsString) (k : nat) :
  runLength p (c :: r) = S k -> p c = true /\ runLength p r = k.
Proof.
  simpl; destruct (p c); [|discriminate].
  intros H; split; [reflexivity | now inversion H].
Qed.

Lemma afterSentence_succ (prev : option char) (s : jsString) (k : nat) :
  afterSentence prev s = S k ->
  (exists c0, prev = Some c0 /\ isSentenceEnd c0 = true)
  /\ runLength isWhiteSpace s = S k.
Proof.
  unfold afterSentence; destruct prev as [c0|]; [|discriminate].
  destruct (isSentenceEnd c0) eqn:E; [|discriminate].
  intros H; split; [exists c0; auto | exact H].
Qed.

Lemma split_go_sentences (s : jsString) :
  forall (prev : option char) (skip : nat),
    endsClean s = true ->
    (0 < skip -> runLength isWhiteSpace s = skip) ->
    exists p ps,
      split_go afterSentence prev skip s = p :: ps
      /\ Forall tidy ps
      /\ endsClean p = true
      /\ (0 < skip -> tidy p)
      /\ (skip = 0 ->
          p = [] \/ exists c1 rest p', s = c1 :: rest /\ p = c1 :: p')
      /\ (skip = 0 -> p = [] ->
          s = [] \/ exists c0, prev = Some c0 /\ isSentenceEnd c0 = true).
Proof.
  induction s as [|c rest IH]; intros prev skip Hend Hrun.
  - exists [], []; simpl.
    split; [reflexivity|]. split; [constructor|]. split; [reflexivity|].
    split; [intros Hpos; specialize (Hrun Hpos); simpl in Hrun; lia|].
    split; auto.
  - (* the pieces after a separator that has [c] in it and [k] more
       code units to go *)
    assert (Hafter : forall k,
               isWhiteSpace c = true ->
               runLength isWhiteSpace rest = k ->
               exists p ps,
                 split_go afterSentence (Some c) k rest = p :: ps
                 /\ Forall tidy ps /\ tidy p).
    { intros k Hc Hk.
      destruct (IH (Some c) k (@endsClean_cons c rest Hend) (fun _ => Hk))
        as [p [ps [Heq [Hps [Hpe [Hpos [Hhead Hempty]]]]]]].
      exists p, ps.
      split; [exact Heq|]. split; [exact Hps|].
      destruct k as [|k]; [|apply Hpos; lia].
      destruct rest as [|c1 rest'].
      { rewrite endsClean_single, Hc in Hend; discriminate. }
      apply runLength_zero_head in Hk.
      destruct (Hhead eq_refl) as [Hp | [c1' [rest'' [p' [Hs Hp]]]]].
      - destruct (Hempty eq_refl Hp) as [Hnil | [c0 [Hc0 Hse]]];
          [discriminate|].
        inversion Hc0; subst c0.
        rewrite (@sentenceEnd_not_whiteSpace c Hse) in Hc; discriminate.
      - inversion Hs; subst c1' rest'' p.
        split; [discriminate|].
        split; [simpl; now rewrite Hk | exact Hpe]. }
    destruct skip as [|k].
    + simpl split_go.
      destruct (afterSentence prev (c :: rest)) as [|k] eqn:Hm.
      * destruct (IH (Some c) 0 (@endsClean_cons c rest Hend)
                     (fun H => False_ind _ (Nat.lt_irrefl 0 H)))
          as [q [qs [Heq [Hqs [Hqe [_ [_ Hempty]]]]]]].
        rewrite Heq; simpl.
        exists (c :: q), qs.
        split; [reflexivity|]. split; [exact Hqs|].
        split.
        { destruct q as [|x q].
          - rewrite endsClean_single.
            destruct (Hempty eq_refl eq_refl) as [Hnil | [c0 [Hc0 Hse]]].
            + subst rest; now rewrite endsClean_single in Hend.
            + inversion Hc0; subst c0.
              now rewrite (@sentenceEnd_not_whiteSpace c Hse).
          - change (c :: x :: q) with ([c] ++ x :: q).
            now rewrite endsClean_app by discriminate. }
        split; [intros H0; lia|].
        split; [intros _; right; now exists c, rest, q | discriminate].
      * destruct (@afterSentence_succ prev (c :: rest) k Hm) as [Hprev Hk].
        apply runLength_succ in Hk; destruct Hk as [Hc Hk].
        destruct (Hafter k Hc Hk) as [q [qs [Heq [Hqs Hq]]]].
        rewrite Heq.
        exists [], (q :: qs).
        split; [reflexivity|]. split; [now constructor|].
        split; [reflexivity|]. split; [intros H0; lia|].
        split; [intros _; now left | intros _ _; right; exact Hprev].
    + simpl split_go.
      specialize (Hrun (Nat.lt_0_succ k)).
      apply runLength_succ in Hrun; destruct Hrun as [Hc Hk].
      destruct (Hafter k Hc Hk) as [q [qs [Heq [Hqs Hq]]]].
      rewrite Heq.
      exists q, qs.
      split; [reflexivity|]. split; [exact Hqs|]. split; [apply Hq|].
      split; [intros _; exact Hq|]. split; discriminate.
Qed.

Lemma sentences_tidy (trimmed : jsString) :
  trimmed <> [] ->
  startsClean trimmed = true ->
  endsClean trimmed = true ->
  Forall tidy (split afterSentence trimmed).
Proof.
  intros Hne Hs He; unfold split.
  destruct (@split_go_sentences trimmed None 0 He
              (fun H => False_ind _ (Nat.lt_irrefl 0 H)))
    as [p [ps [Heq [Hps [Hpe [_ [Hhead Hempty]]]]]]].
  rewrite Heq; constructor; [|exact Hps].
  destruct (Hhead eq_refl) as [Hp | [c1 [rest [p' [Hs' Hp]]]]].
  - destruct (Hempty eq_refl Hp) as [Hnil | [c0 [Hc0 _]]];
      [contradiction | discriminate].
  - subst; repeat split; [discriminate | exact Hs | exact Hpe].
Qed.

(** *** The loop over the sentences *)

Lemma addSentence_prefix1 (chunks x : list jsString) (cur s : jsString) :
  addSentence (chunks ++ x, cur) s
  = (chunks ++ fst (addSentence (x, cur) s), snd (addSentence (x, cur) s)).
Proof.
  unfold addSentence.
  destruct (800 <? List.length cur + List.length s); [|reflexivity].
  destruct (MIN_CONTENT_LENGTH <=? List.length cur); cbn [fst snd];
    [now rewrite app_assoc | reflexivity].
Qed.

Lemma addSentence_prefix (sentences : list jsString) :
  forall (chunks x : list jsString) (cur : jsString),
    fold_left addSentence sentences (chunks ++ x, cur)
    = (chunks ++ fst (fold_left addSentence sentences (x, cur)),
       snd (fold_left addSentence sentences (x, cur))).
Proof.
  induction sentences as [|s rest IH]; intros chunks x cur;
    cbn [fold_left].
  - reflexivity.
  - rewrite addSentence_prefix1.
    destruct (addSentence (x, cur) s) as [x' cur']; cbn [fst snd].
    apply IH.
Qed.

Lemma lastFlush_prefix (chunks : list jsString)
      (st : list jsString * jsString) :
  (let (chunks', currentChunk) := (chunks ++ fst st, snd st) in
   if MIN_CONTENT_LENGTH <=? List.length currentChunk
   then chunks' ++ [trim currentChunk] else chunks')
  = chunks ++
    (let (chunks', currentChunk) := st in
     if MIN_CONTENT_LENGTH <=? List.length currentChunk
     then chunks' ++ [trim currentChunk] else chunks').
Proof.
  destruct st as [chunks' cur]; cbn [fst snd].
  destruct (MIN_CONTENT_LENGTH <=? List.length cur);
    [now rewrite app_assoc | reflexivity].
Qed.

Lemma addParagraph_prefix (chunks : list jsString) (para : jsString) :
  addParagraph chunks para = chunks ++ addParagraph [] para.
Proof.
  unfold addParagraph.
  destruct (List.length (trim para) <? MIN_CONTENT_LENGTH);
    [now rewrite app_nil_r|].
  destruct (1000 <? List.length (trim para)); [|reflexivity].
  rewrite <- (app_nil_r chunks) at 1.
  rewrite addSentence_prefix.
  apply lastFlush_prefix.
Qed.

Lemma extractChunks_flat_map (content : jsString) :
  extractChunks content
  = flat_map (addParagraph []) (split blankLines content).
Proof.
  unfold extractChunks.
  assert (H : forall ps chunks,
             fold_left addParagraph ps chunks
             = chunks ++ flat_map (addParagraph []) ps).
  { induction ps as [|para rest IH]; intros chunks;
      cbn [fold_left flat_map].
    - now rewrite app_nil_r.
    - rewrite IH, (addParagraph_prefix chunks para).
      now rewrite <- app_assoc. }
  apply H.
Qed.

Section Sentences.
Variable sentences : list jsString.

Local Abbreviation pushed := (pushedChunk sentences).
Local Abbreviation loopInv := (sentenceLoopInv sentences).

Lemma flush_pushed (chunks : list jsString) (cur : jsString) :
  loopInv (chunks, cur) ->
  Forall pushed
    (if MIN_CONTENT_LENGTH <=? List.length cur
     then chunks ++ [trim cur] else chunks).
Proof.
  intros [Hchunks Hcur]; simpl in *.
  destruct (MIN_CONTENT_LENGTH <=? List.length cur) eqn:E; [|exact Hchunks].
  apply Nat.leb_le in E.
  destruct Hcur as [-> | [[Hne [Hs He]] Hone]].
  - unfold MIN_CONTENT_LENGTH in E; simpl in E; lia.
  - rewrite (trim_clean _ Hs He).
    apply Forall_app; split; [exact Hchunks|].
    constructor; [split; assumption | constructor].
Qed.

Lemma addSentence_inv (st : list jsString * jsString) (s : jsString) :
  tidy s -> In s sentences -> loopInv st -> loopInv (addSentence st s).
Proof.
  intros Hs Hin Hinv.
  destruct st as [chunks cur]; unfold addSentence.
  destruct (800 <? List.length cur + List.length s) eqn:E.
  - split; simpl.
    + now apply flush_pushed.
    + right; split; [exact Hs|].
      exists [], s; repeat split; auto; simpl; lia.
  - apply Nat.ltb_ge in E.
    destruct Hinv as [Hchunks Hcur]; simpl in Hchunks, Hcur.
    split; simpl; [exact Hchunks|].
    right.
    destruct Hs as [Hsne [Hss Hse]].
    destruct Hcur as [-> | [[Hne [Hcs Hce]] _]].
    + simpl; split; [repeat split; assumption|].
      exists [], s; repeat split; auto; simpl; lia.
    + assert (Hlen : 1 <= List.length s).
      { destruct s; [congruence | simpl; lia]. }
      replace (nonEmpty cur) with true
        by (destruct cur; [congruence | reflexivity]).
      split.
      * split; [destruct cur; [congruence | discriminate]|].
        split.
        -- now rewrite startsClean_app.
        -- rewrite endsClean_app by (destruct s; [congruence | discriminate]).
           now rewrite endsClean_app.
      * exists (cur ++ str " "), s.
        split; [now rewrite <- app_assoc|].
        split; [exact Hin|].
        rewrite length_app; simpl; lia.
Qed.

Lemma addSentences_inv (l : list jsString) :
  Forall (fun s => tidy s /\ In s sentences) l ->
  forall st, loopInv st -> loopInv (fold_left addSentence l st).
Proof.
  induction 1 as [|s l [Hs Hin] _ IH]; intros st Hinv; simpl.
  - exact Hinv.
  - apply IH, addSentence_inv; assumption.
Qed.

Lemma longParagraph_pushed :
  Forall tidy sentences ->
  let (chunks, cur) := fold_left addSentence sentences ([], []) in
  Forall pushed
    (if MIN_CONTENT_LENGTH <=? List.length cur
     then chunks ++ [trim cur] else chunks).
Proof.
  intros Htidy.
  assert (Hall : Forall (fun s => tidy s /\ In s sentences) sentences).
  { apply Forall_forall; intros s Hin; split; [|exact Hin].
    exact (proj1 (Forall_forall _ _) Htidy s Hin). }
  pose proof (@addSentences_inv sentences Hall ([], [])) as Hinv.
  destruct (fold_left addSentence sentences ([], [])) as [chunks cur].
  apply flush_pushed, Hinv.
  split; simpl; [constructor | now left].
Qed.

End Sentences.

Lemma longParagraph_chunks (para : jsString) :
  1000 < List.length (trim para) ->
  Forall (fun chunk =>
            MIN_CONTENT_LENGTH <= List.length chunk
            /\ oneSentenceOver (split afterSentence (trim para)) chunk)
         (addParagraph [] para).
Proof.
  intros Hlong.
  unfold addParagraph.
  replace (List.length (trim para) <? MIN_CONTENT_LENGTH) with false
    by (symmetry; apply Nat.ltb_ge; unfold MIN_CONTENT_LENGTH; lia).
  replace (1000 <? List.length (trim para)) with true
    by (symmetry; now apply Nat.ltb_lt).
  destruct (trim_tidy_ends para) as [Hs He].
  assert (Hne : trim para <> []).
  { intros H; rewrite H in Hlong; simpl in Hlong; lia. }
  pose proof (@longParagraph_pushed _ (sentences_tidy Hne Hs He)) as H.
  destruct (fold_left addSentence _ ([], [])) as [chunks cur].
  exact H.
Qed.

Lemma paragraph_chunks_min (para : jsString) :
  Forall (fun chunk => MIN_CONTENT_LENGTH <= List.length chunk)
         (addParagraph [] para).
Proof.
  destruct (Nat.lt_ge_cases 1000 (List.length (trim para))) as [Hlong|Hshort].
  - eapply Forall_impl; [|apply (longParagraph_chunks _ Hlong)].
    intros chunk [H _]; exact H.
  - unfold addParagraph.
    destruct (List.length (trim para) <? MIN_CONTENT_LENGTH) eqn:E;
      [constructor|].
    apply Nat.ltb_ge in E.
    replace (1000 <? List.length (trim para)) with false
      by (symmetry; now apply Nat.ltb_ge).
    simpl; constructor; [exact E | constructor].
Qed.

Lemma extractChunks_min (content chunk : jsString) :
  In chunk (extractChunks content) ->
  MIN_CONTENT_LENGTH <= List.length chunk.
Proof.
  rewrite extractChunks_flat_map, in_flat_map.
  intros [para [_ Hin]].
  exact (proj1 (Forall_forall _ _) (paragraph_chunks_min para) chunk Hin).
Qed.

Section Gates.
Variable Float32Array : Type.
Variable hashContent : jsString -> jsString.
Variable config : Config.
Variable clock : Z.

Lemma considerChunk_cases (db : SqlJsDatabase Float32Array)
      (message : Msg.TranscriptMessage) (result : ArchiveResult)
      (pending : list (jsString * Date)) (chunk : jsString) :
  considerChunk hashContent config clock db message (result, pending) chunk
  = if passesGates config chunk
    then if contentExists hashContent db chunk
         then (duplicate result, pending)
         else (result,
               pending ++
                 [(chunk,
                   if truthy (Msg.timestamp message)
                   then DateOf (Msg.timestamp message)
                   else DateNow clock)])
    else (skip result, pending).
Proof.
  unfold considerChunk, passesGates.
  destruct (Z.of_nat (List.length chunk) <? minLength config)%Z;
    [reflexivity|].
  destruct (shouldExclude chunk); [reflexivity|].
  destruct (isValuable chunk); reflexivity.
Qed.

Lemma passesGates_length (chunk : jsString) :
  passesGates config chunk = true ->
  (minLength config <= Z.of_nat (List.length chunk))%Z
  /\ (minContentLength (archive config) <= Z.of_nat (List.length chunk))%Z.
Proof.
  unfold passesGates; rewrite !andb_true_iff, negb_true_iff, Z.ltb_ge.
  intros [[Hlen _] _]; split; [exact Hlen|].
  unfold minLength in Hlen.
  destruct (minContentLength (archive config) =? 0)%Z eqn:E;
    [|exact Hlen].
  apply Z.eqb_eq in E; rewrite E; lia.
Qed.

End Gates.

(** C3, as amended: every chunk [extractChunks] emits has at least
    [MIN_CONTENT_LENGTH] = 50 code units, the minimum of the chunker
    itself, and a chunk that [archiveSession] lets through its length
    gate has at least the configured minimum; a chunk of a paragraph of
    more than 1000 code units is at most 800 code units followed by one
    sentence of the paragraph. *)
Theorem chunk_length_bound :
  (forall content chunk : jsString,
      In chunk (extractChunks content) ->
      MIN_CONTENT_LENGTH <= List.length chunk)
  /\ (forall (Float32Array : Type) (hashContent : jsString -> jsString)
             (config : Config) (clock : Z)
             (db : SqlJsDatabase Float32Array)
             (message : Msg.TranscriptMessage) (result : ArchiveResult)
             (pending : list (jsString * Date)) (chunk : jsString),
         snd (considerChunk hashContent config clock db message
                            (result, pending) chunk) <> pending ->
         (minContentLength (archive config)
          <= Z.of_nat (List.length chunk))%Z)
  /\ (forall para chunk : jsString,
         1000 < List.length (trim para) ->
         In chunk (addParagraph [] para) ->
         oneSentenceOver (split afterSentence (trim para)) chunk).
Proof.
  split; [exact extractChunks_min|]. split.
  - intros F hashContent config clock db message result pending chunk.
    rewrite considerChunk_cases.
    destruct (passesGates config chunk) eqn:E; [|simpl; congruence].
    intros _; exact (proj2 (passesGates_length _ _ E)).
  - intros para chunk Hlong Hin.
    exact (proj2 (proj1 (Forall_forall _ _) (longParagraph_chunks _ Hlong)
                        chunk Hin)).
Qed.

Lemma chunk_length_bound_witness :
  MIN_CONTENT_LENGTH <= List.length jwtParagraph
  /\ (minContentLength (archive ConfigModule.DEFAULT_CONFIG)
      <= Z.of_nat (List.length jwtParagraph))%Z
  /\ oneSentenceOver (split afterSentence (trim longParagraph))
                     (hd [] (addParagraph [] longParagraph)).
Proof.
  destruct chunk_length_bound as [Hmin [Hgate Hlong]].
  split; [|split].
  - apply (Hmin jwtParagraph jwtParagraph).
    vm_compute; left; reflexivity.
  - apply (Hgate nat (fun s => s) ConfigModule.DEFAULT_CONFIG 0%Z []
                 {| Msg.role := VStr (str "assistant");
                    Msg.content := jwtParagraph;
                    Msg.timestamp := VUndefined |}
                 {| archived := 0; skipped := 0; duplicates := 0 |}
                 [] jwtParagraph).
    vm_compute; discriminate.
  - apply (Hlong longParagraph).
    + apply Nat.ltb_lt; vm_compute; reflexivity.
    + vm_compute; left; reflexivity.
Defined.

(** C3, as stated, fails: with the minimum of the essential preset,
    100, [extractChunks] emits a chunk of 60 code units; the chunker
    never reads the configuration. *)
Lemma chunk_below_configured_minimum :
  minContentLength
    (archive (ConfigStore.CONFIG_PRESETS ConfigStore.essential)) = 100%Z
  /\ extractChunks noiseParagraph = [noiseParagraph]
  /\ List.length noiseParagraph = 60
  /\ (Z.of_nat (List.length noiseParagraph)
      < minContentLength
          (archive (ConfigStore.CONFIG_PRESETS ConfigStore.essential)))%Z.
Proof. repeat split; vm_compute; reflexivity. Qed.

(** ** The archive pipeline *)

Section Run.
Variable Float32Array : Type.
Variable hashContent : jsString -> jsString.
Variable provider : option (pipeline Float32Array).
Variable JSON_parse : jsString -> option value.
Variable readTranscript : jsString -> transcriptFile.
Variable config : Config.
Variable clock : Z.

Local Abbreviation database := (SqlJsDatabase Float32Array).
Local Abbreviation exists_in := (contentExists hashContent).
Local Abbreviation consider := (considerMessage hashContent config clock).
Local Abbreviation sort := (@sortChunk Float32Array hashContent config).
Local Abbreviation store := (@storeAll Float32Array hashContent).

(** *** The filtering loops *)

Lemma considerChunks_sort (db : database) (message : Msg.TranscriptMessage)
      (chunks : list jsString) :
  forall st : filterState,
    let st' := fold_left (considerChunk hashContent config clock db message)
                         chunks st in
    (fst st', map fst (snd st'))
    = fold_left (sort db) chunks (fst st, map fst (snd st)).
Proof.
  induction chunks as [|chunk rest IH]; intros [result pending];
    cbn [fold_left].
  - reflexivity.
  - rewrite considerChunk_cases.
    cbv zeta in IH; rewrite IH; f_equal.
    unfold sortChunk; cbn [fst snd].
    destruct (passesGates config chunk); [|reflexivity].
    destruct (exists_in db chunk); [reflexivity|].
    cbn [fst snd]; now rewrite map_app.
Qed.

Lemma considerMessages_sort (db : database)
      (messages : list Msg.TranscriptMessage) :
  forall st : filterState,
    let st' := fold_left (consider db) messages st in
    (fst st', map fst (snd st'))
    = fold_left (sort db) (candidates messages) (fst st, map fst (snd st)).
Proof.
  induction messages as [|m rest IH]; intros st; cbn [fold_left].
  - reflexivity.
  - cbv zeta in IH; rewrite IH.
    unfold candidates; cbn [flat_map]; rewrite fold_left_app.
    f_equal.
    unfold considerMessage, isAssistant.
    destruct (isStr (Msg.role m) "assistant"); cbn [negb].
    + apply considerChunks_sort.
    + reflexivity.
Qed.

Lemma considerMessages_assistant (db : database)
      (messages : list Msg.TranscriptMessage) :
  forall st : filterState,
    fold_left (consider db) messages st
    = fold_left (consider db) (filter isAssistant messages) st.
Proof.
  induction messages as [|m rest IH]; intros st; cbn [fold_left filter].
  - reflexivity.
  - destruct (isAssistant m) eqn:E; cbn [fold_left].
    + apply IH.
    + rewrite <- IH; f_equal.
      unfold considerMessage; unfold isAssistant in E; now rewrite E.
Qed.

Lemma sort_step (db : database) (result : ArchiveResult)
      (texts : list jsString) (chunk : jsString) :
  sort db (result, texts) chunk
  = if passesGates config chunk
    then if exists_in db chunk
         then (duplicate result, texts)
         else (result, texts ++ [chunk])
    else (skip result, texts).
Proof. reflexivity. Qed.

(** Counting after the gates. *)
Lemma sort_counts (db : database) (chunks : list jsString) :
  forall (result : ArchiveResult) (texts : list jsString),
    let st := fold_left (sort db) chunks (result, texts) in
    archived (fst st) = archived result
    /\ skipped (fst st)
       = skipped result
         + List.length (filter (fun c => negb (passesGates config c)) chunks)
    /\ duplicates (fst st) + List.length (snd st)
       = duplicates result + List.length texts
         + List.length (filter (passesGates config) chunks).
Proof.
  induction chunks as [|chunk rest IH]; intros result texts;
    cbn [fold_left filter]; cbv zeta.
  - cbn; repeat split; lia.
  - rewrite sort_step.
    destruct (passesGates config chunk); cbn [negb].
    + destruct (exists_in db chunk).
      * destruct (IH (duplicate result) texts) as [Ha [Hs Hd]].
        rewrite Ha, Hs, Hd; cbn; repeat split; lia.
      * destruct (IH result (texts ++ [chunk])) as [Ha [Hs Hd]].
        rewrite Ha, Hs, Hd, length_app; cbn; repeat split; lia.
    + destruct (IH (skip result) texts) as [Ha [Hs Hd]].
      rewrite Ha, Hs, Hd; cbn; repeat split; lia.
Qed.

(** The texts kept are the chunks that passed the gates and that the
    database does not have. *)
Lemma sort_texts (db : database) (chunks : list jsString) :
  forall (result : ArchiveResult) (texts : list jsString),
    snd (fold_left (sort db) chunks (result, texts))
    = texts ++ filter (fun c => passesGates config c
                                && negb (exists_in db c)) chunks.
Proof.
  induction chunks as [|chunk rest IH]; intros result texts;
    cbn [fold_left filter].
  - now rewrite app_nil_r.
  - rewrite sort_step.
    destruct (passesGates config chunk); cbn [andb].
    + destruct (exists_in db chunk); cbn [negb].
      * apply IH.
      * rewrite IH, <- app_assoc; reflexivity.
    + apply IH.
Qed.

(** *** The store *)

Lemma find_existsb (A : Type) (f : A -> bool) (l : list A) :
  existsb f l = match find f l with Some _ => true | None => false end.
Proof.
  induction l as [|x l IH]; cbn [existsb find]; [reflexivity|].
  destruct (f x); [reflexivity | exact IH].
Qed.

Lemma contentExists_app (db news : database) (text : jsString) :
  exists_in (db ++ news) text = exists_in db text || exists_in news text.
Proof. unfold contentExists; apply existsb_app. Qed.

Lemma insertMemory_cases (db : database) (memory : Memory Float32Array) :
  (exists_in db (Database.content memory) = true
   /\ fst (insertMemory hashContent db memory) = db
   /\ snd (snd (insertMemory hashContent db memory)) = true)
  \/ (exists_in db (Database.content memory) = false
      /\ snd (snd (insertMemory hashContent db memory)) = false
      /\ exists row,
          fst (insertMemory hashContent db memory) = db ++ [row]
          /\ Database.content row = Database.content memory
          /\ contentHash row = hashContent (Database.content memory)).
Proof.
  unfold contentExists, insertMemory; rewrite find_existsb.
  destruct (find _ db) as [existing|].
  - left; repeat split.
  - right; repeat split. eexists; repeat split.
Qed.

Lemma storeAll_spec (sessionId : jsString) (projectId : option jsString)
      (items : list (jsString * Date)) :
  forall (db : database) (embeddings : list Float32Array)
         (result : ArchiveResult),
    let out := store db sessionId projectId items embeddings result in
    skipped (snd out) = skipped result
    /\ archived (snd out) + duplicates (snd out)
       = archived result + duplicates result + List.length items
    /\ exists news,
        fst out = db ++ news
        /\ Forall (fun row => In (Database.content row) (map fst items)) news
        /\ forall text, In text (map fst items) ->
                        exists_in (fst out) text = true.
Proof.
  induction items as [|[text date] rest IH]; intros db embeddings result;
    cbv zeta; cbn [storeAll].
  - cbn; repeat split; try lia.
    exists []; rewrite app_nil_r; repeat split; [constructor | intros ? []].
  - set (memory := {| id := 0; Database.content := text; contentHash := [];
                      embedding := hd_error embeddings;
                      Database.projectId := projectId;
                      sourceSession := sessionId;
                      Database.timestamp := date |}).
    destruct (insertMemory_cases db memory)
      as [[Hex [Hdb Hdup]] | [Hex [Hdup [row [Hdb [Hrow Hhash]]]]]];
      rewrite Hdb, Hdup;
      match goal with
      | |- context [store ?d _ _ rest ?e ?r] =>
          destruct (IH d e r) as [Hs [Hc [news [Hout [Hnews Hall]]]]]
      end;
      rewrite Hs, Hc, Hout.
    + split; [reflexivity|]. split; [cbn; lia|].
      exists news. split; [reflexivity|]. split.
      * eapply Forall_impl; [|exact Hnews]. intros r Hr; now right.
      * intros t [<- | Ht].
        -- rewrite contentExists_app; cbn [fst].
           subst memory; cbn [Database.content] in Hex; now rewrite Hex.
        -- rewrite <- Hout; now apply Hall.
    + split; [reflexivity|]. split; [cbn; lia|].
      exists (row :: news). split; [now rewrite <- app_assoc|]. split.
      * constructor; [left; exact (eq_sym Hrow)|].
        eapply Forall_impl; [|exact Hnews]. intros r Hr; now right.
      * intros t [<- | Ht].
        -- rewrite !contentExists_app; cbn [fst].
           replace (exists_in [row] text) with true;
             [now rewrite orb_true_r|].
           unfold contentExists; cbn [existsb].
           rewrite Hhash; subst memory; cbn [Database.content].
           now rewrite jsString_eqb_refl.
        -- rewrite <- Hout; now apply Hall.
Qed.

End Run.

Lemma filter_split_length (A : Type) (p : A -> bool) (l : list A) :
  List.length (filter (fun x => negb (p x)) l) + List.length (filter p l)
  = List.length l.
Proof.
  induction l as [|x l IH]; cbn [filter]; [reflexivity|].
  destruct (p x); cbn; lia.
Qed.

Lemma length_zero_nil (A : Type) (l : list A) :
  Nat.eqb (List.length l) 0 = true -> l = [].
Proof. destruct l; [reflexivity | discriminate]. Qed.

Section Session.
Variable Float32Array : Type.
Variable hashContent : jsString -> jsString.
Variable provider : option (pipeline Float32Array).
Variable JSON_parse : jsString -> option value.
Variable readTranscript : jsString -> transcriptFile.
Variable lessThan : nat -> value -> option bool.
Variable config : Config.
Variable clock : Z.

Local Abbreviation database := (SqlJsDatabase Float32Array).
Local Abbreviation exists_in := (contentExists hashContent).
Local Abbreviation consider := (considerMessage hashContent config clock).
Local Abbreviation archiveParsed :=
  (archiveMessages hashContent provider config clock).
Local Abbreviation archive_session :=
  (archiveSession hashContent provider JSON_parse readTranscript lessThan
                  (configValue config) clock).
Local Abbreviation parse := (parseTranscript JSON_parse readTranscript).

(** *** A configuration of the [Config] shape *)

Lemma readMinLength_config :
  readMinLength (configValue config) = Some (VNum (minLength config)).
Proof.
  unfold readMinLength, minLength; cbn.
  destruct (minContentLength (archive config) =? 0)%Z; reflexivity.
Qed.

Lemma filterChunks_config (db : database) (message : Msg.TranscriptMessage)
      (chunks : list jsString) :
  forall st : filterState,
    filterChunks hashContent lessThan clock (VNum (minLength config)) db
                 message chunks st
    = Some (fold_left (considerChunk hashContent config clock db message)
                      chunks st).
Proof.
  induction chunks as [|chunk chunks IH]; intros [result pending];
    cbn [filterChunks fold_left]; [reflexivity|].
  assert (Hstep : filterChunk hashContent lessThan clock
                              (VNum (minLength config)) db message
                              (result, pending) chunk
                  = Some (considerChunk hashContent config clock db message
                                        (result, pending) chunk)).
  { unfold filterChunk, considerChunk, tooShort.
    destruct (Z.of_nat (List.length chunk) <? minLength config)%Z;
      [reflexivity|].
    destruct (shouldExclude chunk); [reflexivity|].
    destruct (negb (isValuable chunk)); [reflexivity|].
    destruct (contentExists hashContent db chunk); reflexivity. }
  rewrite Hstep; apply IH.
Qed.

Lemma filterMessages_config (db : database)
      (messages : list Msg.TranscriptMessage) :
  forall st : filterState,
    filterMessages hashContent lessThan clock (VNum (minLength config)) db
                   messages st
    = Some (fold_left (consider db) messages st).
Proof.
  induction messages as [|m messages IH]; intros st;
    cbn [filterMessages fold_left]; [reflexivity|].
  unfold considerMessage at 2.
  destruct (negb (isStr (Msg.role m) "assistant")); [apply IH|].
  rewrite filterChunks_config; apply IH.
Qed.

(** For a configuration of the [Config] shape, [archiveSession] parses
    the transcript and runs the loops for a numeric minimum. *)
Lemma archiveSession_config (db : database) (transcriptPath : jsString)
      (projectId : option jsString) (onProgress : bool) :
  archive_session db transcriptPath projectId onProgress
  = match parse transcriptPath with
    | Returned messages =>
        archiveParsed db messages transcriptPath projectId onProgress
    | Threw e => (Threw e, db, [])
    | Diverged => (Diverged, db, [])
    end.
Proof.
  unfold archiveSession; rewrite readMinLength_config.
  destruct (parse transcriptPath) as [messages| e |]; try reflexivity.
  unfold archiveMessages; rewrite filterMessages_config.
  destruct (Nat.eqb (List.length messages) 0); [reflexivity|].
  destruct (fold_left (consider db) messages (emptyResult, []))
    as [result pending].
  reflexivity.
Qed.

(** What the filtering loops leave: the counters and the texts to
    embed, in terms of the candidates. *)
Lemma filter_phase (db : database) (messages : list Msg.TranscriptMessage)
      (result : ArchiveResult) (pending : list (jsString * Date)) :
  fold_left (consider db) messages (emptyResult, []) = (result, pending) ->
  archived result = 0
  /\ skipped result
     = List.length (filter (fun c => negb (passesGates config c))
                           (candidates messages))
  /\ duplicates result + List.length pending
     = List.length (filter (passesGates config) (candidates messages))
  /\ map fst pending
     = filter (fun c => passesGates config c && negb (exists_in db c))
              (candidates messages).
Proof.
  intros Hfold.
  pose proof (considerMessages_sort hashContent config clock db messages
                                    (emptyResult, [])) as Hsort.
  cbv zeta in Hsort; rewrite Hfold in Hsort; cbn [fst snd map] in Hsort.
  pose proof (sort_counts hashContent config db (candidates messages)
                          emptyResult []) as Hcount.
  pose proof (sort_texts hashContent config db (candidates messages)
                         emptyResult []) as Htexts.
  cbv zeta in Hcount; rewrite <- Hsort in Hcount, Htexts.
  cbn [fst snd] in Hcount, Htexts.
  destruct Hcount as [Ha [Hs Hd]].
  rewrite length_map in Hd.
  cbn in Ha, Hs, Hd.
  repeat split; [exact Ha | exact Hs | lia | exact Htexts].
Qed.

(** A run that throws has inserted nothing; a run that returns has
    added the rows [storeAll] made. *)
Lemma archiveMessages_cases (db : database)
      (messages : list Msg.TranscriptMessage) (transcriptPath : jsString)
      (projectId : option jsString) (onProgress : bool) :
  let run := archiveParsed db messages transcriptPath projectId onProgress in
  let st := fold_left (consider db) messages (emptyResult, []) in
  (messages = [] /\ run = (Returned emptyResult, db, []))
  \/ (messages <> [] /\ snd st = [] /\ run = (Returned (fst st), db, []))
  \/ (messages <> [] /\ snd st <> []
      /\ exists calls,
          (exists e,
              embedBatch provider (map fst (snd st))
                         (archiveOptions onProgress) = (Threw e, calls)
              /\ run = (Threw e, db, calls))
          \/ (embedBatch provider (map fst (snd st))
                         (archiveOptions onProgress) = (Diverged, calls)
              /\ run = (Diverged, db, calls))
          \/ (exists embeddings,
                 embedBatch provider (map fst (snd st))
                            (archiveOptions onProgress)
                 = (Returned embeddings, calls)
                 /\ let out := storeAll hashContent db
                                        (getSessionId transcriptPath)
                                        projectId (snd st) embeddings
                                        (fst st) in
                    run = (Returned (snd out), fst out, calls))).
Proof.
  cbv zeta; unfold archiveMessages.
  destruct (Nat.eqb (List.length messages) 0) eqn:Hm.
  { left; split; [now apply length_zero_nil | reflexivity]. }
  right.
  assert (Hne : messages <> []) by (intros ->; discriminate).
  destruct (fold_left (consider db) messages (emptyResult, []))
    as [result pending]; cbn [fst snd].
  destruct (Nat.eqb (List.length pending) 0) eqn:Hp.
  { left; repeat split; [exact Hne | now apply length_zero_nil]. }
  right.
  split; [exact Hne|]. split; [intros ->; discriminate|].
  fold (archiveOptions onProgress).
  destruct (embedBatch provider (map fst pending) (archiveOptions onProgress))
    as [[embeddings | e |] calls]; exists calls.
  - right; right; exists embeddings; split; [reflexivity|].
    destruct (storeAll _ _ _ _ _ _ _); reflexivity.
  - left; exists e; split; reflexivity.
  - right; left; split; reflexivity.
Qed.

(** ** C2: count accounting *)

(** C2: the counters of a run that returns add up to the number of
    chunk candidates, the chunks of the assistant messages of the
    transcript. *)
Theorem archive_counts_cover_candidates
        (db : database) (transcriptPath : jsString)
        (projectId : option jsString) (onProgress : bool)
        (messages : list Msg.TranscriptMessage)
        (result : ArchiveResult) (db' : database) (calls : list progress) :
  parse transcriptPath = Returned messages ->
  archive_session db transcriptPath projectId onProgress
  = (Returned result, db', calls) ->
  archived result + skipped result + duplicates result
  = List.length (candidates messages).
Proof.
  intros Hparse Hrun.
  rewrite archiveSession_config, Hparse in Hrun.
  pose proof (filter_split_length (passesGates config) (candidates messages))
    as Hsplit.
  destruct (archiveMessages_cases db messages transcriptPath projectId
                                   onProgress)
    as [[Hnil Heq] | [[Hne [Hpending Heq]] | [Hne [Hpending [calls' Hembed]]]]];
    cbv zeta in *.
  - rewrite Heq in Hrun; inversion Hrun; subst; reflexivity.
  - rewrite Heq in Hrun; inversion Hrun; subst result db' calls.
    destruct (fold_left (consider db) messages (emptyResult, []))
      as [result pending] eqn:Hfold; cbn [fst snd] in *.
    destruct (filter_phase db messages Hfold) as [Ha [Hs [Hd _]]].
    subst pending; cbn in Hd; lia.
  - destruct Hembed as [[e [_ Heq]] | [[_ Heq] | [embeddings [_ Heq]]]];
      rewrite Heq in Hrun; try discriminate.
    inversion Hrun as [[Hr Hdb Hc]].
    destruct (fold_left (consider db) messages (emptyResult, []))
      as [result0 pending] eqn:Hfold; cbn [fst snd] in *.
    destruct (filter_phase db messages Hfold) as [Ha [Hs [Hd _]]].
    destruct (storeAll_spec hashContent (getSessionId transcriptPath)
                            projectId pending db embeddings result0)
      as [Hs' [Hc' _]].
    rewrite Hr in Hs', Hc'; rewrite ?Hr; lia.
Qed.

(** ** C1: archiving twice *)

Lemma filter_none (A : Type) (p : A -> bool) (l : list A) :
  (forall x, In x l -> p x = false) -> filter p l = [].
Proof.
  induction l as [|x l IH]; intros H; cbn [filter]; [reflexivity|].
  rewrite (H x (or_introl eq_refl)); apply IH.
  intros y Hy; apply H; now right.
Qed.

(** When the database has every candidate that passes the gates,
    nothing is embedded or inserted. *)
Lemma archive_known_content (db : database)
      (messages : list Msg.TranscriptMessage) (transcriptPath : jsString)
      (projectId : option jsString) (onProgress : bool) :
  (forall c, In c (candidates messages) ->
             passesGates config c = true -> exists_in db c = true) ->
  archiveParsed db messages transcriptPath projectId onProgress
  = (Returned
       {| archived := 0;
          skipped := List.length
                       (filter (fun c => negb (passesGates config c))
                               (candidates messages));
          duplicates := List.length
                          (filter (passesGates config)
                                  (candidates messages)) |},
     db, []).
Proof.
  intros Hknown.
  unfold archiveMessages.
  destruct (Nat.eqb (List.length messages) 0) eqn:Hm.
  { apply length_zero_nil in Hm; subst messages; reflexivity. }
  destruct (fold_left (consider db) messages (emptyResult, []))
    as [result pending] eqn:Hfold.
  destruct (filter_phase db messages Hfold) as [Ha [Hs [Hd Htexts]]].
  rewrite filter_none in Htexts.
  - destruct pending; [|discriminate].
    cbn [List.length Nat.eqb].
    destruct result as [a s d]; cbn in Ha, Hs, Hd.
    subst a s; rewrite Nat.add_0_r in Hd; subst d; reflexivity.
  - intros c Hin.
    destruct (passesGates config c) eqn:E; [|reflexivity].
    now rewrite (Hknown c Hin E).
Qed.

(** After a run that returns, the database has every candidate that
    passes the gates, and the counters are those of the candidates. *)
Lemma archive_learns_content (db : database)
      (messages : list Msg.TranscriptMessage) (transcriptPath : jsString)
      (projectId : option jsString) (onProgress : bool)
      (result : ArchiveResult) (db' : database) (calls : list progress) :
  archiveParsed db messages transcriptPath projectId onProgress
  = (Returned result, db', calls) ->
  skipped result
  = List.length (filter (fun c => negb (passesGates config c))
                        (candidates messages))
  /\ archived result + duplicates result
     = List.length (filter (passesGates config) (candidates messages))
  /\ (exists news,
         db' = db ++ news
         /\ Forall (fun row =>
                      In (Database.content row)
                         (filter (passesGates config) (candidates messages)))
                   news)
  /\ forall c, In c (candidates messages) ->
               passesGates config c = true -> exists_in db' c = true.
Proof.
  intros Hrun.
  assert (Hkeep : forall (pending : list (jsString * Date)) c,
             map fst pending
             = filter (fun c => passesGates config c && negb (exists_in db c))
                      (candidates messages) ->
             In c (candidates messages) -> passesGates config c = true ->
             exists_in db c = true \/ In c (map fst pending)).
  { intros pending c Htexts Hin Hpass.
    destruct (exists_in db c) eqn:E; [now left | right].
    rewrite Htexts; apply filter_In; split; [exact Hin|].
    now rewrite Hpass, E. }
  destruct (archiveMessages_cases db messages transcriptPath projectId
                                   onProgress)
    as [[Hnil Heq] | [[Hne [Hpending Heq]] | [Hne [Hpending [calls' Hembed]]]]];
    cbv zeta in *.
  - rewrite Heq in Hrun; inversion Hrun; subst.
    repeat split; try reflexivity.
    + exists []; split; [now rewrite app_nil_r | constructor].
    + intros c [].
  - rewrite Heq in Hrun; inversion Hrun; subst result db' calls.
    destruct (fold_left (consider db) messages (emptyResult, []))
      as [result pending] eqn:Hfold; cbn [fst snd] in *.
    destruct (filter_phase db messages Hfold) as [Ha [Hs [Hd Htexts]]].
    subst pending; cbn in Hd.
    split; [exact Hs|]. split; [lia|]. split.
    + exists []; split; [now rewrite app_nil_r | constructor].
    + intros c Hin Hpass.
      destruct (Hkeep [] c Htexts Hin Hpass) as [H | []]; exact H.
  - destruct Hembed as [[e [_ Heq]] | [[_ Heq] | [embeddings [_ Heq]]]];
      rewrite Heq in Hrun; try discriminate.
    inversion Hrun as [[Hr Hdb Hc]].
    destruct (fold_left (consider db) messages (emptyResult, []))
      as [result0 pending] eqn:Hfold; cbn [fst snd] in *.
    destruct (filter_phase db messages Hfold) as [Ha [Hs [Hd Htexts]]].
    destruct (storeAll_spec hashContent (getSessionId transcriptPath)
                            projectId pending db embeddings result0)
      as [Hs' [Hc' [news [Hout [Hnews Hall]]]]].
    rewrite Hr in Hs', Hc'; rewrite Hdb in Hout, Hall;
      rewrite ?Hr, ?Hdb.
    split; [lia|]. split; [lia|]. split.
    + exists news; split; [exact Hout|].
      eapply Forall_impl; [|exact Hnews].
      intros row Hrow; rewrite Htexts in Hrow.
      apply filter_In in Hrow; destruct Hrow as [Hin Hp].
      apply filter_In; split; [exact Hin|].
      now apply andb_true_iff in Hp.
    + intros c Hin Hpass.
      destruct (Hkeep pending c Htexts Hin Hpass) as [H | H].
      * rewrite Hout, contentExists_app, H; reflexivity.
      * now apply Hall.
Qed.

(** C1, as amended: when a run returns, a second run on the same
    transcript against the database the first one left returns
    [archived = 0], the same [skipped], and [duplicates] equal to the
    [archived] plus the [duplicates] of the first run; it inserts
    nothing and embeds nothing. *)
Theorem second_run_archives_nothing
        (db : database) (transcriptPath : jsString)
        (projectId : option jsString) (onProgress onProgress' : bool)
        (first : ArchiveResult) (db' : database) (calls : list progress) :
  archive_session db transcriptPath projectId onProgress
  = (Returned first, db', calls) ->
  archive_session db' transcriptPath projectId onProgress'
  = (Returned {| archived := 0;
                 skipped := skipped first;
                 duplicates := archived first + duplicates first |},
     db', []).
Proof.
  rewrite !archiveSession_config.
  destruct (parse transcriptPath) as [messages | e |]; try discriminate.
  intros Hrun.
  destruct (@archive_learns_content db messages transcriptPath projectId
              onProgress first db' calls Hrun) as [Hs [Hd [_ Hknown]]].
  rewrite (@archive_known_content db' messages transcriptPath projectId
                                  onProgress' Hknown).
  now rewrite Hs, Hd.
Qed.

(** ** C8: assistant messages only *)

Lemma candidate_source (messages : list Msg.TranscriptMessage)
      (c : jsString) :
  In c (candidates messages) ->
  exists m, In m messages /\ isAssistant m = true
            /\ In c (extractChunks (Msg.content m)).
Proof.
  unfold candidates; rewrite in_flat_map.
  intros [m [Hm Hc]].
  destruct (isAssistant m) eqn:E; [|destruct Hc].
  now exists m.
Qed.

Lemma archive_rows (db : database) (messages : list Msg.TranscriptMessage)
      (transcriptPath : jsString) (projectId : option jsString)
      (onProgress : bool) (o : outcome ArchiveResult) (db' : database)
      (calls : list progress) :
  archiveParsed db messages transcriptPath projectId onProgress
  = (o, db', calls) ->
  exists news,
    db' = db ++ news
    /\ Forall (fun row =>
                 In (Database.content row)
                    (filter (passesGates config) (candidates messages)))
              news
    /\ (forall e, o = Threw e -> news = []).
Proof.
  intros Hrun.
  destruct o as [result | e |].
  - destruct (@archive_learns_content db messages transcriptPath projectId
                onProgress result db' calls Hrun)
      as [_ [_ [[news [Hdb Hnews]] _]]].
    exists news; repeat split; auto; discriminate.
  - exists []; rewrite app_nil_r.
    split; [|split; [constructor | reflexivity]].
    destruct (archiveMessages_cases db messages transcriptPath projectId
                                    onProgress)
      as [[_ Heq] | [[_ [_ Heq]] | [_ [_ [calls' Hembed]]]]];
      cbv zeta in *;
      [| | destruct Hembed as [[e' [_ Heq]] | [[_ Heq] | [? [_ Heq]]]]];
      rewrite Heq in Hrun; inversion Hrun; reflexivity.
  - exists []; rewrite app_nil_r.
    split; [|split; [constructor | discriminate]].
    destruct (archiveMessages_cases db messages transcriptPath projectId
                                    onProgress)
      as [[_ Heq] | [[_ [_ Heq]] | [_ [_ [calls' Hembed]]]]];
      cbv zeta in *;
      [| | destruct Hembed as [[e' [_ Heq]] | [[_ Heq] | [? [_ Heq]]]]];
      rewrite Heq in Hrun; inversion Hrun; reflexivity.
Qed.

(** C8: a run does exactly what it would do on the assistant messages
    of the transcript alone (the same outcome and counters, the same
    database, the same progress calls), so that user and system
    messages change nothing; and every row it adds holds a chunk of an
    assistant message. *)
Theorem only_assistant_messages_are_archived
        (db : database) (transcriptPath : jsString)
        (projectId : option jsString) (onProgress : bool)
        (messages : list Msg.TranscriptMessage) :
  parse transcriptPath = Returned messages ->
  archive_session db transcriptPath projectId onProgress
  = archiveParsed db (filter isAssistant messages) transcriptPath projectId
                  onProgress
  /\ forall (o : outcome ArchiveResult) (db' : database)
            (calls : list progress),
      archive_session db transcriptPath projectId onProgress
      = (o, db', calls) ->
      exists news,
        db' = db ++ news
        /\ forall row, In row news ->
            exists m, In m messages /\ isAssistant m = true
                      /\ In (Database.content row)
                            (extractChunks (Msg.content m)).
Proof.
  intros Hparse; rewrite archiveSession_config, Hparse.
  split.
  - unfold archiveMessages.
    rewrite (considerMessages_assistant hashContent config clock db messages).
    destruct messages as [|m0 rest]; [reflexivity|].
    destruct (filter isAssistant (m0 :: rest)) as [|m1 kept];
      reflexivity.
  - intros o db' calls Hrun.
    destruct (@archive_rows db messages transcriptPath projectId onProgress
                o db' calls Hrun) as [news [Hdb [Hnews _]]].
    exists news; split; [exact Hdb|].
    intros row Hrow.
    pose proof (proj1 (Forall_forall _ _) Hnews row Hrow) as Hin.
    apply filter_In in Hin; destruct Hin as [Hin _].
    now apply candidate_source.
Qed.

(** ** C5: failure of the embedding provider *)

(** C5, as amended: when the embedding provider fails in the Embedding
    stage, [archiveSession] does not return: the error is thrown to the
    caller, the counters collected so far are lost with it, and the
    database is as it was, no fragment of the run having been inserted;
    the same holds of the database for every run that throws. *)
Theorem embedding_failure_is_thrown
        (db : database) (transcriptPath : jsString)
        (projectId : option jsString) (onProgress : bool)
        (messages : list Msg.TranscriptMessage) :
  parse transcriptPath = Returned messages ->
  let st := fold_left (consider db) messages (emptyResult, []) in
  (forall e calls,
      snd st <> [] ->
      embedBatch provider (map fst (snd st)) (archiveOptions onProgress)
      = (Threw e, calls) ->
      archive_session db transcriptPath projectId onProgress
      = (Threw e, db, calls))
  /\ (forall e db' calls,
         archive_session db transcriptPath projectId onProgress
         = (Threw e, db', calls) ->
         db' = db).
Proof.
  intros Hparse st; rewrite archiveSession_config, Hparse; split.
  - intros e calls Hpending Hembed.
    destruct (archiveMessages_cases db messages transcriptPath projectId
                                    onProgress)
      as [[Hnil _] | [[_ [Hnone _]] | [_ [_ [calls' Hcases]]]]];
      cbv zeta in *.
    + subst messages; now destruct Hpending.
    + now destruct Hpending.
    + fold st in Hcases.
      destruct Hcases as [[e' [He Heq]] | [[He _] | [embeddings [He _]]]];
        rewrite He in Hembed; inversion Hembed; subst; exact Heq.
  - intros e db' calls Hrun.
    destruct (@archive_rows db messages transcriptPath projectId onProgress
                (Threw e) db' calls Hrun) as [news [Hdb [_ Hnil]]].
    rewrite (Hnil e eq_refl), app_nil_r in Hdb; exact Hdb.
Qed.

(** ** C6: missing transcript *)

Lemma parse_no_message (lines : list jsString) :
  (forall line, In line lines -> parseLine JSON_parse line = None) ->
  forall messages,
    fold_left
      (fun messages line =>
         match parseLine JSON_parse line with
         | Some m => messages ++ [m]
         | None => messages
         end) lines messages
    = messages.
Proof.
  induction lines as [|line rest IH]; intros Hnone messages;
    cbn [fold_left]; [reflexivity|].
  rewrite (Hnone line (or_introl eq_refl)).
  apply IH; intros l Hl; apply Hnone; now right.
Qed.

(** C6, as amended: when the loaded configuration has an archive
    section ([config.archive] is neither [null] nor [undefined]), then
    for a path at which no file exists, and for a file none of whose
    lines yields a message, [archiveSession] returns zero counts without
    an error, inserts nothing and embeds nothing; when it has none,
    [archiveSession] throws a [TypeError] before it looks at the
    transcript. *)
Theorem missing_transcript_archives_nothing
        (loaded : value) (db : database) (transcriptPath : jsString)
        (projectId : option jsString) (onProgress : bool) :
  (get loaded "archive" <> VNull ->
   get loaded "archive" <> VUndefined ->
   (readTranscript transcriptPath = NoSuchFile
    \/ exists lines,
         readTranscript transcriptPath = Lines lines
         /\ forall line, In line lines -> parseLine JSON_parse line = None) ->
   archiveSession hashContent provider JSON_parse readTranscript lessThan
                  loaded clock db transcriptPath projectId onProgress
   = (Returned {| archived := 0; skipped := 0; duplicates := 0 |}, db, []))
  /\ (get loaded "archive" = VNull \/ get loaded "archive" = VUndefined ->
      archiveSession hashContent provider JSON_parse readTranscript lessThan
                     loaded clock db transcriptPath projectId onProgress
      = (Threw TypeError, db, [])).
Proof.
  split.
  - intros Hnull Hundefined Hfile.
    assert (Hread : exists minLength, readMinLength loaded = Some minLength).
    { unfold readMinLength.
      destruct (get loaded "archive"); try congruence; eauto. }
    destruct Hread as [minLength Hread].
    unfold archiveSession, parseTranscript; rewrite Hread.
    destruct Hfile as [Hmissing | [lines [Hlines Hnone]]].
    + rewrite Hmissing; reflexivity.
    + rewrite Hlines, (parse_no_message lines Hnone); reflexivity.
  - intros Harchive.
    unfold archiveSession, readMinLength.
    destruct Harchive as [-> | ->]; reflexivity.
Qed.

End Session.

(** *** The example world *)

Lemma archive_counts_cover_candidates_witness :
  1 + 1 + 0 = List.length (candidates (parsedMessages noisyPath)).
Proof.
  apply (@archive_counts_cover_candidates
           nat trim (Some examplePipe) exampleParse exampleTranscripts
           neverLess ConfigModule.DEFAULT_CONFIG 0%Z [] noisyPath
           (Some (str "cortex")) true
           (parsedMessages noisyPath)
           {| archived := 1; skipped := 1; duplicates := 0 |}
           (snd (fst (exampleSession (Some examplePipe) [] noisyPath)))
           (snd (exampleSession (Some examplePipe) [] noisyPath))).
  - vm_compute; reflexivity.
  - vm_compute; reflexivity.
Defined.

(** C1, as stated, fails: a transcript that says the same thing twice
    is archived once and counted once as a duplicate by the first run;
    the second run counts two duplicates, not one. *)
Lemma second_run_duplicates_exceed_first_archived :
  let first := exampleSession (Some examplePipe) [] twicePath in
  let second := exampleSession (Some examplePipe) (snd (fst first)) twicePath in
  fst (fst first)
  = Returned {| archived := 1; skipped := 0; duplicates := 1 |}
  /\ fst (fst second)
     = Returned {| archived := 0; skipped := 0; duplicates := 2 |}
  /\ 2 <> 1.
Proof.
  repeat split; try (vm_compute; reflexivity).
  discriminate.
Qed.

Lemma second_run_archives_nothing_witness :
  let db' := snd (fst (exampleSession (Some examplePipe) [] twicePath)) in
  exampleSession (Some examplePipe) db' twicePath
  = (Returned {| archived := 0; skipped := 0; duplicates := 1 + 1 |},
     db', []).
Proof.
  intros db'.
  apply (@second_run_archives_nothing
           nat trim (Some examplePipe) exampleParse exampleTranscripts
           neverLess ConfigModule.DEFAULT_CONFIG 0%Z [] twicePath
           (Some (str "cortex")) true true
           {| archived := 1; skipped := 0; duplicates := 1 |}
           db'
           (snd (exampleSession (Some examplePipe) [] twicePath))).
  vm_compute; reflexivity.
Defined.

Lemma only_assistant_messages_are_archived_witness :
  exampleSession (Some examplePipe) [] twicePath
  = archiveMessages trim (Some examplePipe) ConfigModule.DEFAULT_CONFIG 0%Z
                    [] (filter isAssistant (parsedMessages twicePath))
                    twicePath (Some (str "cortex")) true.
Proof.
  apply (@only_assistant_messages_are_archived
           nat trim (Some examplePipe) exampleParse exampleTranscripts
           neverLess ConfigModule.DEFAULT_CONFIG 0%Z [] twicePath
           (Some (str "cortex")) true (parsedMessages twicePath)).
  vm_compute; reflexivity.
Defined.

(** C5, as stated, fails: the model cannot be loaded after one chunk
    has been counted as skipped; the run throws and returns no
    counts. *)
Lemma embedding_failure_returns_no_counts :
  fst (fold_left
         (considerMessage trim ConfigModule.DEFAULT_CONFIG 0%Z
                          (@nil (Memory nat)))
         (parsedMessages noisyPath) (emptyResult, []))
  = {| archived := 0; skipped := 1; duplicates := 0 |}
  /\ exampleSession None [] noisyPath = (Threw ModelLoadError, [], [])
  /\ forall counts : ArchiveResult,
      fst (fst (exampleSession None [] noisyPath)) <> Returned counts.
Proof.
  split; [vm_compute; reflexivity|].
  split; [vm_compute; reflexivity|].
  intros counts; vm_compute; discriminate.
Qed.

Lemma embedding_failure_is_thrown_witness :
  exampleSession None [] noisyPath = (Threw ModelLoadError, [], []).
Proof.
  apply (proj1 (@embedding_failure_is_thrown
                  nat trim None exampleParse exampleTranscripts
                  neverLess ConfigModule.DEFAULT_CONFIG 0%Z [] noisyPath
                  (Some (str "cortex")) true (parsedMessages noisyPath)
                  eq_refl)).
  - vm_compute; discriminate.
  - vm_compute; reflexivity.
Defined.

(** C6, as stated, fails: a path that exists but cannot be read is not
    a readable transcript, and the run throws; and with the
    configuration file [{'archive': null}] the run throws for a path at
    which there is no file. *)
Lemma unreadable_transcript_throws :
  exampleTranscripts lockedPath = CannotRead
  /\ exampleSession (Some examplePipe) [] lockedPath
     = (Threw ReadError, [], [])
  /\ exampleTranscripts absentPath = NoSuchFile
  /\ get nullArchiveConfig "archive" = VNull
  /\ archiveSession trim (Some examplePipe) exampleParse exampleTranscripts
                    neverLess nullArchiveConfig 0%Z (@nil (Memory nat))
                    absentPath (Some (str "cortex")) true
     = (Threw TypeError, [], []).
Proof. repeat split; vm_compute; reflexivity. Qed.

Lemma missing_transcript_archives_nothing_witness :
  exampleSession (Some examplePipe) [] absentPath
  = (Returned {| archived := 0; skipped := 0; duplicates := 0 |}, [], []).
Proof.
  apply (proj1 (@missing_transcript_archives_nothing
                  nat trim (Some examplePipe) exampleParse exampleTranscripts
                  neverLess 0%Z (configValue ConfigModule.DEFAULT_CONFIG) []
                  absentPath (Some (str "cortex")) true)).
  - discriminate.
  - discriminate.
  - left; vm_compute; reflexivity.
Defined.

(** ** C10: shape and progress of a batch *)

Lemma embedLoop_calls (Float32Array : Type) (pipe : pipeline Float32Array)
      (prefix : jsString) (texts : list jsString) (size : nat)
      (report : bool) (fuel : nat) :
  forall i results calls,
    Forall (progressOk (List.length texts)) calls ->
    Forall (progressOk (List.length texts))
           (snd (embedLoop fuel pipe prefix texts size report i results
                           calls)).
Proof.
  induction fuel as [|fuel IH]; intros i results calls Hcalls; simpl;
    [exact Hcalls|].
  destruct (i <? List.length texts); [|exact Hcalls].
  destruct (embedEach pipe _ results) as [results' | e |];
    [|exact Hcalls | exact Hcalls].
  apply IH.
  destruct report; [|exact Hcalls].
  apply Forall_app; split; [exact Hcalls|].
  constructor; [|constructor].
  unfold progressOk; simpl; split; [lia | reflexivity].
Qed.

(** C10, as amended: every call [embedBatch] makes to a progress
    callback, however many turns of its loop it takes, has
    [completed <= total] and [total] the number of texts; and for a
    non-empty list of texts, a batch size of at least one (32 when none
    is given) and a model that answers for every text, [embedBatch]
    returns one embedding per text, in the order of the texts, and the
    last call of the callback reports [completed = total]. *)
Theorem embedBatch_shape (Float32Array : Type)
        (provider : option (pipeline Float32Array)) (texts : list jsString)
        (opts : options) :
  (forall fuel : nat,
      Forall (progressOk (List.length texts))
             (snd (embedBatchFuel provider fuel texts opts)))
  /\ forall pipe,
      provider = Some pipe ->
      texts <> [] ->
      batchSize opts <> Some 0 ->
      Forall (fun t => pipe (prefixOf opts ++ t) <> None) texts ->
      exists embeddings calls,
        embedBatch provider texts opts = (Returned embeddings, calls)
        /\ List.length embeddings = List.length texts
        /\ map Some embeddings
           = map (fun t => pipe (prefixOf opts ++ t)) texts
        /\ (onProgress opts = false -> calls = [])
        /\ (onProgress opts = true ->
            calls <> []
            /\ last calls (0, 0) = (List.length texts, List.length texts)).
Proof.
  split.
  - intros fuel; unfold embedBatchFuel, initEmbedder.
    destruct provider as [pipe|]; [|constructor].
    apply embedLoop_calls; constructor.
  - intros pipe -> Hne Hsize Hall.
    unfold embedBatch, embedBatchFuel, initEmbedder.
    set (size := match batchSize opts with Some n => n | None => 32 end).
    assert (Hpos : 1 <= size).
    { unfold size; destruct (batchSize opts) as [[|n]|];
        [congruence | lia | lia]. }
    replace (if match isQuery opts with Some b => b | None => false end
             then QUERY_PREFIX else PASSAGE_PREFIX)
      with (prefixOf opts)
      by (unfold prefixOf; destruct (isQuery opts) as [[|]|]; reflexivity).
    destruct (@embedLoop_ok Float32Array pipe (prefixOf opts) texts size
                (onProgress opts) Hpos Hall (S (List.length texts)) 0 [] [])
      as [embeddings [calls [Hloop [Hres [Hoff Hon]]]]];
      [lia | reflexivity |].
    exists embeddings, calls.
    split; [exact Hloop|].
    split; [rewrite <- (length_map Some embeddings), Hres; apply length_map|].
    split; [exact Hres|].
    split; [exact Hoff|].
    intros Hreport; destruct (Hon Hreport) as [_ Hlast].
    apply Hlast.
    destruct texts; [congruence | simpl; lia].
Qed.

Lemma embedBatch_shape_witness :
  exists embeddings calls,
    embedBatch (Some examplePipe) [str "first"; str "second"; str "third"]
               {| batchSize := Some 2; onProgress := true; isQuery := None |}
    = (Returned embeddings, calls)
    /\ List.length embeddings = 3
    /\ map Some embeddings = [Some 14; Some 15; Some 14]
    /\ (true = false -> calls = [])
    /\ (true = true -> calls <> [] /\ last calls (0, 0) = (3, 3)).
Proof.
  apply (proj2 (@embedBatch_shape nat (Some examplePipe)
                  [str "first"; str "second"; str "third"]
                  {| batchSize := Some 2; onProgress := true;
                     isQuery := None |})
               examplePipe eq_refl).
  - discriminate.
  - discriminate.
  - repeat constructor; discriminate.
Defined.

(** A batch size of zero never leaves the loop. *)
Lemma embedLoop_zero_batch (Float32Array : Type)
      (pipe : pipeline Float32Array) (prefix : jsString)
      (texts : list jsString) (report : bool) (fuel : nat) :
  forall i results calls,
    i < List.length texts ->
    fst (embedLoop fuel pipe prefix texts 0 report i results calls)
    = Diverged.
Proof.
  induction fuel as [|fuel IH]; intros i results calls Hi; simpl;
    [reflexivity|].
  replace (i <? List.length texts) with true
    by (symmetry; now apply Nat.ltb_lt).
  unfold slice; rewrite Nat.add_0_r, Nat.sub_diag; simpl.
  now apply IH.
Qed.

(** C10, as stated, fails: with a batch size of zero [embedBatch] does
    not return, however many turns of its loop are taken, and every call
    of the progress callback reports nothing completed; and with the
    default batch size and a model that cannot be loaded it throws, and
    the callback is not called at all. *)
Lemma embedBatch_zero_batch_never_returns :
  let opts := {| batchSize := Some 0; onProgress := true; isQuery := None |} in
  fst (embedBatch (Some examplePipe) [str "first"] opts) = Diverged
  /\ (forall fuel : nat,
         fst (embedBatchFuel (Some examplePipe) fuel [str "first"] opts)
         = Diverged)
  /\ (forall (fuel : nat) (call : progress),
         In call (snd (embedBatchFuel (Some examplePipe) fuel [str "first"]
                                      opts)) ->
         call = (0, 1))
  /\ embedBatch (@None (pipeline nat)) [str "first"]
                {| batchSize := None; onProgress := true; isQuery := None |}
     = (Threw ModelLoadError, []).
Proof.
  cbv zeta; split; [reflexivity|]; split; [|split; [|reflexivity]].
  - intros fuel; unfold embedBatchFuel, initEmbedder; cbn [batchSize].
    apply embedLoop_zero_batch; cbn; lia.
  - intros fuel; unfold embedBatchFuel, initEmbedder;
      cbn [batchSize onProgress isQuery].
    assert (Hloop : forall fuel calls call,
               (forall c, In c calls -> c = (0, 1)) ->
               In call (snd (embedLoop fuel examplePipe PASSAGE_PREFIX
                                       [str "first"] 0 true 0 [] calls)) ->
               call = (0, 1)).
    { clear fuel; induction fuel as [|fuel IH]; intros calls call Hcalls;
        [exact (Hcalls call)|].
      cbn [embedLoop]; cbn.
      apply IH; intros c Hc.
      apply in_app_or in Hc; destruct Hc as [Hc | [<- | []]];
        [now apply Hcalls | reflexivity]. }
    intros call; apply Hloop; intros c [].
Qed.

(** ** C4: rank fusion *)

Section Fusion.
Import Search.
Local Open Scope R_scope.













End Fusion.




(* ================================================================== *)
(** * Further properties *)
(* ================================================================== *)

(** ** Regular expressions: the matcher and the language *)

Lemma nullable_Matches (r : regex) : nullable r = true <-> Matches r [].
Proof.
  induction r as [| |p|a IHa b IHb|a IHa b IHb|a IHa]; simpl.
  - split; [discriminate | intros H; inversion H].
  - split; [constructor | reflexivity].
  - split; [discriminate | intros H; inversion H].
  - rewrite andb_true_iff, IHa, IHb; split.
    + intros [Ha Hb]; exact (MSeq Ha Hb).
    + intros H; inversion H; subst.
      match goal with
      | E : _ ++ _ = [] |- _ => apply app_eq_nil in E; destruct E; subst
      end; auto.
  - rewrite orb_true_iff, IHa, IHb; split.
    + intros [H | H]; [now apply MAltL | now apply MAltR].
    + intros H; inversion H; subst; auto.
  - split; [constructor | reflexivity].
Qed.

Lemma Matches_Void (s : jsString) : ~ Matches Void s.
Proof. intros H; inversion H. Qed.

Lemma Matches_Eps (s : jsString) : Matches Eps s -> s = [].
Proof. intros H; now inversion H. Qed.

Lemma Matches_seq (a b : regex) (s : jsString) :
  Matches (seq a b) s <-> Matches (Seq a b) s.
Proof.
  assert (HvL : forall x, Matches Void s <-> Matches (Seq Void x) s).
  { intros x; split; intros H; inversion H; subst.
    exfalso; eapply Matches_Void; eauto. }
  assert (HvR : forall x, Matches Void s <-> Matches (Seq x Void) s).
  { intros x; split; intros H; inversion H; subst.
    exfalso; eapply Matches_Void; eauto. }
  assert (He : forall x, Matches x s <-> Matches (Seq Eps x) s).
  { intros x; split; intros H.
    - exact (MSeq MEps H).
    - inversion H; subst.
      match goal with
      | Ha : Matches Eps _ |- _ => apply Matches_Eps in Ha; subst
      end; assumption. }
  destruct a; destruct b; simpl; auto; reflexivity.
Qed.

Lemma Matches_alt (a b : regex) (s : jsString) :
  Matches (alt a b) s <-> Matches (Alt a b) s.
Proof.
  assert (HvL : forall x, Matches x s <-> Matches (Alt Void x) s).
  { intros x; split; intros H; [now apply MAltR|].
    inversion H; subst; [exfalso; eapply Matches_Void; eauto | assumption]. }
  assert (HvR : forall x, Matches x s <-> Matches (Alt x Void) s).
  { intros x; split; intros H; [now apply MAltL|].
    inversion H; subst; [assumption | exfalso; eapply Matches_Void; eauto]. }
  destruct a; destruct b; simpl; auto; reflexivity.
Qed.

Lemma Matches_Star_cons (a : regex) (c : char) (s : jsString) :
  Matches (Star a) (c :: s) ->
  exists s1 t, s = s1 ++ t /\ Matches a (c :: s1) /\ Matches (Star a) t.
Proof.
  intros H.
  remember (Star a) as r eqn:Hr; remember (c :: s) as u eqn:Hu.
  revert c s Hu.
  induction H as [| | | | | |a' s1 t Hs1 _ Ht IH]; try discriminate;
    intros c s Hu.
  inversion Hr; subst a'.
  destruct s1 as [|x s1].
  - simpl in Hu; exact (IH eq_refl c s Hu).
  - simpl in Hu; inversion Hu; subst.
    exists s1, t; auto.
Qed.

Lemma deriv_Matches (r : regex) :
  forall (c : char) (s : jsString),
    Matches (deriv c r) s <-> Matches r (c :: s).
Proof.
  induction r as [| |p|a IHa b IHb|a IHa b IHb|a IHa]; intros c s; simpl.
  - split; intros H; inversion H.
  - split; intros H; inversion H.
  - destruct (p c) eqn:E; split; intros H.
    + apply Matches_Eps in H; subst; now constructor.
    + inversion H; subst; constructor.
    + inversion H.
    + inversion H; subst; congruence.
  - assert (Hfirst : Matches (seq (deriv c a) b) s
                     <-> exists s1 t, s = s1 ++ t /\ Matches a (c :: s1)
                                      /\ Matches b t).
    { rewrite Matches_seq; split.
      - intros H; inversion H; subst.
        match goal with
        | Ha : Matches (deriv c a) ?s1, Hb : Matches b ?t |- _ =>
            exists s1, t; repeat split; auto; now apply IHa
        end.
      - intros [s1 [t [-> [Ha Hb]]]].
        apply MSeq; [now apply IHa | exact Hb]. }
    assert (Hsplit : Matches (Seq a b) (c :: s)
                     <-> (exists s1 t, s = s1 ++ t /\ Matches a (c :: s1)
                                       /\ Matches b t)
                         \/ (Matches a [] /\ Matches b (c :: s))).
    { split.
      - intros H; inversion H; subst.
        match goal with
        | Ha : Matches a ?s1, Hb : Matches b ?t, E : ?s1 ++ ?t = c :: s
          |- _ =>
            destruct s1 as [|x s1]; simpl in E;
            [right; subst; auto
            |inversion E; subst; left; exists s1, t; auto]
        end.
      - intros [[s1 [t [-> [Ha Hb]]]] | [Ha Hb]].
        + exact (MSeq Ha Hb).
        + exact (MSeq Ha Hb). }
    rewrite Hsplit.
    destruct (nullable a) eqn:Hn.
    + rewrite Matches_alt; split.
      * intros H; inversion H; subst.
        -- left; now apply Hfirst.
        -- right; split; [now apply nullable_Matches | now apply IHb].
      * intros [H | [_ Hb]].
        -- apply MAltL; now apply Hfirst.
        -- apply MAltR; now apply IHb.
    + rewrite Hfirst; split; [now left|].
      intros [H | [Ha _]]; [exact H|].
      apply nullable_Matches in Ha; congruence.
  - rewrite Matches_alt; split; intros H; inversion H; subst.
    + apply MAltL; now apply IHa.
    + apply MAltR; now apply IHb.
    + apply MAltL; now apply IHa.
    + apply MAltR; now apply IHb.
  - rewrite Matches_seq; split.
    + intros H; inversion H; subst.
      match goal with
      | Ha : Matches (deriv c a) _, Hb : Matches (Star a) _ |- _ =>
          apply IHa in Ha; exact (MStarApp Ha Hb)
      end.
    + intros H; apply Matches_Star_cons in H.
      destruct H as [s1 [t [-> [Ha Ht]]]].
      apply MSeq; [now apply IHa | exact Ht].
Qed.

(** The matcher decides the language. *)
Lemma fullMatch_Matches (s : jsString) :
  forall r : regex, fullMatch r s = true <-> Matches r s.
Proof.
  unfold fullMatch.
  induction s as [|c s IH]; intros r; simpl.
  - apply nullable_Matches.
  - rewrite IH; apply deriv_Matches.
Qed.

Lemma Matches_lengthBound (r : regex) (s : jsString) :
  Matches r s -> forall n, lengthBound r = Some n -> List.length s <= n.
Proof.
  induction 1 as [|p c Hp|a b s t _ IHa _ IHb|a b s _ IH|a b s _ IH
                  |a|a s t _ _ _ _]; simpl; intros n Hn.
  - lia.
  - inversion Hn; simpl; lia.
  - destruct (lengthBound a) as [na|]; [|discriminate].
    destruct (lengthBound b) as [nb|]; [|discriminate].
    inversion Hn; rewrite length_app.
    specialize (IHa na eq_refl); specialize (IHb nb eq_refl); lia.
  - destruct (lengthBound a) as [na|]; [|discriminate].
    destruct (lengthBound b) as [nb|]; [|discriminate].
    inversion Hn; specialize (IH na eq_refl); lia.
  - destruct (lengthBound a) as [na|]; [|discriminate].
    destruct (lengthBound b) as [nb|]; [|discriminate].
    inversion Hn; specialize (IH nb eq_refl); lia.
  - discriminate.
  - discriminate.
Qed.

Lemma Matches_any (s : jsString) : Matches (Star anyChar) s.
Proof.
  induction s as [|c s IH]; [constructor|].
  change (c :: s) with ([c] ++ s).
  apply MStarApp; [now constructor | exact IH].
Qed.

(** A pattern without anchors is found when some part of the string
    belongs to its language. *)
Lemma test_anywhere (r : regex) (before m after : jsString) :
  Matches r m -> test (anywhere r) (before ++ m ++ after) = true.
Proof.
  intros H; unfold test; simpl.
  apply fullMatch_Matches.
  apply MSeq; [apply Matches_any|].
  apply MSeq; [exact H | apply Matches_any].
Qed.

(** An anchored pattern whose strings are short does not match a long
    string. *)
Lemma test_too_long (r : regex) (n : nat) (s : jsString) :
  lengthBound r = Some n -> n < List.length s -> test (whole r) s = false.
Proof.
  intros Hb Hlen; unfold test; simpl.
  destruct (fullMatch r s) eqn:E; [|reflexivity].
  apply fullMatch_Matches in E.
  pose proof (Matches_lengthBound E Hb); lia.
Qed.

Lemma fullMatch_Void (s : jsString) : fullMatch Void s = false.
Proof. unfold fullMatch; induction s; simpl; auto. Qed.

Lemma fullMatch_star_class (p : char -> bool) (s : jsString) :
  fullMatch (Star (Class p)) s = forallb p s.
Proof.
  induction s as [|c s IH]; [reflexivity|].
  change (fullMatch (Star (Class p)) (c :: s))
    with (fullMatch (deriv c (Star (Class p))) s).
  simpl; destruct (p c); simpl; [exact IH | apply fullMatch_Void].
Qed.

Lemma test_plus_class (p : char -> bool) (s : jsString) :
  test (whole (plus (Class p))) s = nonEmpty s && forallb p s.
Proof.
  unfold test, plus; simpl.
  destruct s as [|c s]; [reflexivity|].
  change (fullMatch (Seq (Class p) (Star (Class p))) (c :: s))
    with (fullMatch (deriv c (Seq (Class p) (Star (Class p)))) s).
  simpl; destruct (p c); simpl;
    [apply fullMatch_star_class | apply fullMatch_Void].
Qed.

(** ** The filters *)

(** X1: [shouldExclude], in full: content is excluded when it has fewer
    than 50 code units once trimmed, or is made of digits only, or of
    [.], [!] and [?] only.  The patterns for acknowledgments and
    greetings only match texts of at most 11 code units, which the
    length test has already excluded. *)
Theorem shouldExclude_characterised (content : jsString) :
  shouldExclude content
  = (List.length (trim content) <? MIN_CONTENT_LENGTH)
    || forallb isDigit (trim content)
    || forallb isSentenceEnd (trim content).
Proof.
  unfold shouldExclude.
  destruct (List.length (trim content) <? MIN_CONTENT_LENGTH) eqn:Hlen;
    [reflexivity|].
  apply Nat.ltb_ge in Hlen; unfold MIN_CONTENT_LENGTH in Hlen.
  assert (Hne : nonEmpty (trim content) = true).
  { destruct (trim content); [simpl in Hlen; lia | reflexivity]. }
  unfold EXCLUDED_PATTERNS; cbn [existsb].
  rewrite (@test_too_long _ 11 (trim content)) by (solve [vm_compute; reflexivity] || lia).
  rewrite (@test_too_long _ 8 (trim content)) by (solve [vm_compute; reflexivity] || lia).
  rewrite (@test_too_long _ 3 (trim content)) by (solve [vm_compute; reflexivity] || lia).
  rewrite (@test_too_long _ 2 (trim content)) by (solve [vm_compute; reflexivity] || lia).
  rewrite (test_plus_class isDigit), Hne.
  rewrite (test_plus_class
             (fun c => N.eqb c 46 || N.eqb c 33 || N.eqb c 63)%N), Hne.
  cbn [orb andb].
  now rewrite orb_false_r.
Qed.

Lemma chrI_lower (c x : char) :
  isLower c = true -> lowerAscii x = c -> Matches (chrI c) [x].
Proof.
  intros Hc Hx; unfold chrI; rewrite Hc.
  constructor.
  unfold lowerAscii in Hx.
  destruct (isUpper x) eqn:E.
  - subst c; apply orb_true_iff; right; apply N.eqb_eq; lia.
  - subst c; apply orb_true_iff; left; apply N.eqb_refl.
Qed.

Lemma seqOf_lower (s : jsString) :
  Forall (fun c => isLower c = true) s ->
  forall m, lowerCase m = s -> Matches (seqOf chrI s) m.
Proof.
  induction 1 as [|c r Hc Hr IH]; intros m Hm.
  - destruct m; [constructor | discriminate].
  - destruct m as [|x m']; [discriminate|].
    simpl in Hm; injection Hm as Hx Hm'.
    pose proof (@chrI_lower c x Hc Hx) as Hhead.
    destruct r as [|c' r'].
    + destruct m'; [exact Hhead | discriminate].
    + change (seqOf chrI (c :: c' :: r'))
        with (Seq (chrI c) (seqOf chrI (c' :: r'))).
      change (x :: m') with ([x] ++ m').
      apply MSeq; [exact Hhead | now apply IH].
Qed.

Lemma Matches_alts (rs : list regex) (r : regex) (s : jsString) :
  In r rs -> Matches r s -> Matches (alts rs) s.
Proof.
  induction rs as [|r0 rest IH]; intros Hin Hm; [destruct Hin|].
  destruct rest as [|r1 rest'].
  - destruct Hin as [<- | []]; exact Hm.
  - change (alts (r0 :: r1 :: rest')) with (Alt r0 (alts (r1 :: rest'))).
    destruct Hin as [<- | Hin]; [now apply MAltL | apply MAltR; now apply IH].
Qed.

Lemma valuable_word (ws : list string) (f : string -> regex) (w : string)
      (before m after : jsString) :
  In w ws -> Matches (f w) m ->
  In (anywhere (alts (map f ws))) VALUABLE_PATTERNS ->
  isValuable (before ++ m ++ after) = true.
Proof.
  intros Hw Hm Hp; unfold isValuable.
  replace (existsb _ VALUABLE_PATTERNS) with true; [reflexivity|].
  symmetry; apply existsb_exists.
  exists (anywhere (alts (map f ws))); split; [exact Hp|].
  apply test_anywhere, (@Matches_alts (map f ws) (f w) m); [|exact Hm].
  now apply in_map.
Qed.

(** X2: Content in which one of the words of the value patterns occurs, in
    any mix of upper and lower case, is valuable, whatever stands
    before and after it and however few words it has. *)
Theorem isValuable_keyword (w : string) (before m after : jsString) :
  In w valuableWords ->
  lowerCase m = str w ->
  isValuable (before ++ m ++ after) = true.
Proof.
  intros Hw Hm.
  assert (Hmatch : Matches (litI w) m).
  { apply seqOf_lower; [|exact Hm].
    simpl in Hw;
      repeat (destruct Hw as [<- | Hw];
              [repeat constructor|]); destruct Hw. }
  assert (Hgroup :
            In w ["error"; "bug"; "fix"; "issue"; "problem"]%string
            \/ In w ["implemente"; "create"; "adde"; "update"; "modifie";
                     "remove"]%string
            \/ In w ["because"; "since"; "therefore"; "however";
                     "although"]%string).
  { simpl in *; tauto. }
  destruct Hgroup as [Hg | [Hg | Hg]].
  - apply (@valuable_word _ litI w before m after Hg Hmatch).
    unfold VALUABLE_PATTERNS; do 8 right; left; reflexivity.
  - apply (@valuable_word _ (fun s => Seq (litI s) (opt (chrI 100%N))) w
                          before m after Hg).
    + rewrite <- (app_nil_r m).
      apply MSeq; [exact Hmatch | apply MAltR; constructor].
    + unfold VALUABLE_PATTERNS; do 9 right; left; reflexivity.
  - apply (@valuable_word _ litI w before m after Hg Hmatch).
    unfold VALUABLE_PATTERNS; do 10 right; left; reflexivity.
Qed.

Lemma isValuable_keyword_witness :
  isValuable (str "it is " ++ str "BECAUSE" ++ str " of x") = true.
Proof.
  apply (@isValuable_keyword "because" (str "it is ") (str "BECAUSE")
                             (str " of x")).
  - simpl; tauto.
  - reflexivity.
Defined.

(** ** Chunking *)

Lemma split_go_nonempty (m : separator) (s : jsString) :
  forall prev skip, split_go m prev skip s <> [].
Proof.
  induction s as [|c rest IH]; intros prev skip; simpl; [discriminate|].
  destruct skip as [|k]; [|apply IH].
  destruct (m prev (c :: rest)); [|discriminate].
  specialize (IH (Some c) 0).
  destruct (split_go m (Some c) 0 rest); [congruence | discriminate].
Qed.

Lemma split_go_piece_length (m : separator) (s : jsString) :
  forall prev skip,
    Forall (fun p => List.length p <= List.length s)
           (split_go m prev skip s).
Proof.
  induction s as [|c rest IH]; intros prev skip; simpl.
  - repeat constructor.
  - assert (Hweak : forall prev' skip',
               Forall (fun p => List.length p <= S (List.length rest))
                      (split_go m prev' skip' rest)).
    { intros prev' skip'; eapply Forall_impl; [|apply IH].
      intros p Hp; simpl in Hp; lia. }
    destruct skip as [|k]; [|apply Hweak].
    destruct (m prev (c :: rest)).
    + specialize (IH (Some c) 0).
      destruct (split_go m (Some c) 0 rest) as [|p ps]; simpl.
      * constructor; [simpl; lia | constructor].
      * inversion IH; subst; constructor; [simpl; lia|].
        eapply Forall_impl; [|eassumption]. intros q Hq; simpl in Hq; lia.
    + constructor; [simpl; lia | apply Hweak].
Qed.

Lemma trim_length (s : jsString) : List.length (trim s) <= List.length s.
Proof.
  unfold trim.
  destruct (trimStart_suffix s) as [pre Hpre].
  destruct (trimEnd_prefix (trimStart s)) as [post Hpost].
  rewrite Hpre at 2; rewrite Hpost at 2.
  rewrite !length_app; lia.
Qed.

Lemma trim_trim (s : jsString) : trim (trim s) = trim s.
Proof.
  destruct (trim_tidy_ends s) as [Hs He]; now apply trim_clean.
Qed.

Lemma addParagraph_short (para : jsString) :
  List.length para < MIN_CONTENT_LENGTH -> addParagraph [] para = [].
Proof.
  intros Hshort; unfold addParagraph.
  replace (List.length (trim para) <? MIN_CONTENT_LENGTH) with true;
    [reflexivity|].
  symmetry; apply Nat.ltb_lt.
  pose proof (trim_length para); lia.
Qed.

(** Content of fewer than 50 code units yields no chunk at all. *)
Lemma extractChunks_short (content : jsString) :
  List.length content < MIN_CONTENT_LENGTH -> extractChunks content = [].
Proof.
  intros Hshort; rewrite extractChunks_flat_map.
  pose proof (split_go_piece_length blankLines content None 0) as Hpieces.
  unfold split.
  induction Hpieces as [|p ps Hp _ IH]; simpl; [reflexivity|].
  rewrite IH, addParagraph_short; [reflexivity | lia].
Qed.

Lemma candidates_none (messages : list Msg.TranscriptMessage) :
  (forall m, In m messages -> isAssistant m = true ->
             List.length (Msg.content m) < MIN_CONTENT_LENGTH) ->
  candidates messages = [].
Proof.
  unfold candidates.
  induction messages as [|m rest IH]; intros Hshort; simpl; [reflexivity|].
  rewrite IH by (intros m' Hin; apply Hshort; now right).
  destruct (isAssistant m) eqn:E; [|reflexivity].
  rewrite extractChunks_short; [reflexivity|].
  apply Hshort; [now left | exact E].
Qed.

Lemma filterMessages_none (Float32Array : Type)
      (hashContent : jsString -> jsString)
      (lessThan : nat -> value -> option bool) (clock : Z)
      (minLength : value) (db : SqlJsDatabase Float32Array)
      (messages : list Msg.TranscriptMessage) (st : filterState) :
  (forall m, In m messages -> isAssistant m = true ->
             List.length (Msg.content m) < MIN_CONTENT_LENGTH) ->
  filterMessages hashContent lessThan clock minLength db messages st
  = Some st.
Proof.
  induction messages as [|m rest IH]; intros Hshort;
    cbn [filterMessages]; [reflexivity|].
  assert (Hrest : filterMessages hashContent lessThan clock minLength db
                                 rest st = Some st)
    by (apply IH; intros m' Hin; apply Hshort; now right).
  assert (Hm : isAssistant m = true ->
               extractChunks (Msg.content m) = [])
    by (intros E; apply extractChunks_short, Hshort; [now left | exact E]).
  unfold isAssistant in Hm.
  destruct (isStr (Msg.role m) "assistant"); cbn [negb];
    [rewrite (Hm eq_refl); cbn [filterChunks] |]; exact Hrest.
Qed.

(** X3: A transcript whose assistant messages all have fewer than 50 code
    units leaves no trace: when the loaded configuration has an
    [archive] that is neither [null] nor [undefined], [archiveSession]
    returns zero counts (the short messages are not even counted as
    skipped), whatever the configured minimum (a number or not), the
    database and the model. *)
Theorem short_messages_are_not_counted
        (Float32Array : Type) (hashContent : jsString -> jsString)
        (provider : option (pipeline Float32Array))
        (JSON_parse : jsString -> option value)
        (readTranscript : jsString -> transcriptFile)
        (lessThan : nat -> value -> option bool)
        (config : value) (clock : Z)
        (db : SqlJsDatabase Float32Array) (transcriptPath : jsString)
        (projectId : option jsString) (onProgress : bool)
        (messages : list Msg.TranscriptMessage) :
  get config "archive" <> VNull ->
  get config "archive" <> VUndefined ->
  parseTranscript JSON_parse readTranscript transcriptPath
  = Returned messages ->
  (forall m, In m messages -> isAssistant m = true ->
             List.length (Msg.content m) < MIN_CONTENT_LENGTH) ->
  archiveSession hashContent provider JSON_parse readTranscript lessThan
                 config clock db transcriptPath projectId onProgress
  = (Returned {| archived := 0; skipped := 0; duplicates := 0 |}, db, []).
Proof.
  intros Hnull Hundefined Hparse Hshort.
  assert (Hmin : exists minLength, readMinLength config = Some minLength).
  { unfold readMinLength.
    destruct (get config "archive");
      try (now destruct Hnull); try (now destruct Hundefined);
      eexists; reflexivity. }
  destruct Hmin as [minLength Hmin].
  unfold archiveSession; rewrite Hmin, Hparse.
  rewrite (@filterMessages_none Float32Array hashContent lessThan clock
             minLength db messages (emptyResult, []) Hshort).
  destruct (Nat.eqb (List.length messages) 0); reflexivity.
Qed.

Lemma short_messages_are_not_counted_witness :
  archiveSession trim None briefParse briefTranscripts neverLess
                 (configValue ConfigModule.DEFAULT_CONFIG) 0%Z
                 (@nil (Memory nat))
                 (str "/sessions/brief.jsonl") None false
  = (Returned {| archived := 0; skipped := 0; duplicates := 0 |}, [], []).
Proof.
  apply (@short_messages_are_not_counted
           nat trim None briefParse briefTranscripts neverLess
           (configValue ConfigModule.DEFAULT_CONFIG) 0%Z []
           (str "/sessions/brief.jsonl") None false
           [ {| Msg.role := VStr (str "assistant");
                Msg.content := str "Done, the tests pass now.";
                Msg.timestamp := VUndefined |} ]).
  - vm_compute; discriminate.
  - vm_compute; discriminate.
  - vm_compute; reflexivity.
  - intros m [<- | []] _; vm_compute; lia.
Defined.

(** Every chunk is a trimmed text. *)
Lemma addSentence_trimmed (sentences : list jsString) :
  forall (chunks : list jsString) (cur : jsString),
    Forall (fun c => trim c = c) chunks ->
    Forall (fun c => trim c = c)
           (fst (fold_left addSentence sentences (chunks, cur))).
Proof.
  induction sentences as [|s rest IH]; intros chunks cur Hchunks;
    cbn [fold_left]; [exact Hchunks|].
  unfold addSentence at 2.
  destruct (800 <? List.length cur + List.length s); [|now apply IH].
  apply IH.
  destruct (MIN_CONTENT_LENGTH <=? List.length cur); [|exact Hchunks].
  apply Forall_app; split; [exact Hchunks|].
  constructor; [apply trim_trim | constructor].
Qed.

Lemma lastFlush_trimmed (st : list jsString * jsString) :
  Forall (fun c => trim c = c) (fst st) ->
  Forall (fun c => trim c = c)
         (let (chunks, currentChunk) := st in
          if MIN_CONTENT_LENGTH <=? List.length currentChunk
          then chunks ++ [trim currentChunk] else chunks).
Proof.
  destruct st as [chunks cur]; cbn [fst]; intros H.
  destruct (MIN_CONTENT_LENGTH <=? List.length cur); [|exact H].
  apply Forall_app; split; [exact H|].
  constructor; [apply trim_trim | constructor].
Qed.

Lemma addParagraph_trimmed (para : jsString) :
  Forall (fun c => trim c = c) (addParagraph [] para).
Proof.
  unfold addParagraph.
  destruct (List.length (trim para) <? MIN_CONTENT_LENGTH); [constructor|].
  destruct (1000 <? List.length (trim para)).
  - apply lastFlush_trimmed, addSentence_trimmed; constructor.
  - constructor; [apply trim_trim | constructor].
Qed.

(** X4: The chunks [extractChunks] emits carry no white space at either
    end: trimming a chunk again changes nothing. *)
Theorem extractChunks_trimmed (content chunk : jsString) :
  In chunk (extractChunks content) -> trim chunk = chunk.
Proof.
  rewrite extractChunks_flat_map, in_flat_map.
  intros [para [_ Hin]].
  exact (proj1 (Forall_forall _ _) (addParagraph_trimmed para) chunk Hin).
Qed.

Lemma extractChunks_trimmed_witness : trim jwtParagraph = jwtParagraph.
Proof.
  apply (@extractChunks_trimmed jwtParagraph jwtParagraph).
  vm_compute; left; reflexivity.
Defined.

Lemma split_no_blank_line (s : jsString) :
  hasBlankLine s = false ->
  forall prev, split_go blankLines prev 0 s = [s].
Proof.
  induction s as [|c rest IH]; intros Hno prev; [reflexivity|].
  cbn [hasBlankLine] in Hno; apply orb_false_iff in Hno.
  destruct Hno as [Hhere Hrest].
  cbn [split_go]; unfold blankLines at 1; rewrite Hhere.
  now rewrite (IH Hrest).
Qed.

(** X5: A text without a blank line whose trimmed length is between 50 and
    1000 code units is one chunk: the trimmed text. *)
Theorem extractChunks_single_paragraph (content : jsString) :
  hasBlankLine content = false ->
  MIN_CONTENT_LENGTH <= List.length (trim content) ->
  List.length (trim content) <= 1000 ->
  extractChunks content = [trim content].
Proof.
  intros Hno Hmin Hmax.
  unfold extractChunks, split.
  rewrite (split_no_blank_line content Hno); cbn [fold_left].
  unfold addParagraph.
  replace (List.length (trim content) <? MIN_CONTENT_LENGTH) with false
    by (symmetry; now apply Nat.ltb_ge).
  replace (1000 <? List.length (trim content)) with false
    by (symmetry; now apply Nat.ltb_ge).
  reflexivity.
Qed.

Lemma extractChunks_single_paragraph_witness :
  extractChunks (str "  " ++ jwtParagraph ++ [10%N]) = [jwtParagraph].
Proof.
  apply (@extractChunks_single_paragraph (str "  " ++ jwtParagraph ++ [10%N])).
  - vm_compute; reflexivity.
  - apply Nat.leb_le; vm_compute; reflexivity.
  - apply Nat.leb_le; vm_compute; reflexivity.
Defined.

(** *** Paragraphs are chunked one by one *)

Lemma endsOffLine_tail (c : char) (a : jsString) :
  endsOffLine (c :: a) -> endsOffLine a.
Proof.
  intros [H | [pre [x [H Hx]]]]; [discriminate|].
  destruct a as [|c' a']; [now left|].
  right; destruct pre as [|p pre]; [discriminate|].
  inversion H; subst.
  now exists pre, x.
Qed.

Lemma endsOffLine_single (c : char) :
  endsOffLine [c] -> N.eqb 10%N c = false.
Proof.
  intros [H | [pre [x [H Hx]]]]; [discriminate|].
  destruct pre as [|p [|q pre]]; inversion H; subst; exact Hx.
Qed.

Lemma runLength_app_offLine (a y : jsString) :
  a <> [] -> endsOffLine a ->
  runLength (N.eqb 10%N) (a ++ y) = runLength (N.eqb 10%N) a.
Proof.
  induction a as [|c a' IH]; intros Hne Hoff; [congruence|].
  cbn [app runLength]; destruct (N.eqb 10%N c) eqn:E; [|reflexivity].
  f_equal.
  destruct a' as [|c' a''].
  - apply endsOffLine_single in Hoff; congruence.
  - apply IH; [discriminate | exact (endsOffLine_tail Hoff)].
Qed.

Lemma runLength_le (p : char -> bool) (s : jsString) :
  runLength p s <= List.length s.
Proof.
  induction s as [|c s IH]; simpl; [lia|].
  destruct (p c); simpl; lia.
Qed.

Lemma runLength_lineFeeds (k : nat) (b : jsString) :
  startsOffLine b ->
  runLength (N.eqb 10%N) (repeat 10%N k ++ b) = k.
Proof.
  intros Hb; induction k as [|k IH]; cbn [repeat app runLength].
  - destruct b as [|c b]; [reflexivity|].
    cbn [runLength]; unfold startsOffLine in Hb; now rewrite Hb.
  - change (N.eqb 10 10)%N with true; cbn iota; now rewrite IH.
Qed.

Lemma blankLines_prev (s : jsString) :
  forall prev prev' skip,
    split_go blankLines prev skip s = split_go blankLines prev' skip s.
Proof.
  induction s as [|c rest IH]; intros prev prev' skip; [reflexivity|].
  cbn [split_go].
  destruct skip as [|k]; [|apply IH].
  change (blankLines prev (c :: rest)) with (blankLines prev' (c :: rest)).
  destruct (blankLines prev' (c :: rest)); reflexivity.
Qed.

Lemma blankLines_eq (prev : option char) (s : jsString) :
  blankLines prev s
  = if 2 <=? runLength (N.eqb 10%N) s then runLength (N.eqb 10%N) s else 0.
Proof. reflexivity. Qed.

Lemma skip_lineFeeds (k : nat) (b : jsString) :
  forall prev,
    split_go blankLines prev k (repeat 10%N k ++ b)
    = split_go blankLines None 0 b.
Proof.
  induction k as [|k IH]; intros prev; simpl.
  - apply blankLines_prev.
  - apply IH.
Qed.

Lemma consHead_app (c : char) (ps qs : list jsString) :
  ps <> [] -> consHead c (ps ++ qs) = consHead c ps ++ qs.
Proof. destruct ps; [congruence | reflexivity]. Qed.

Lemma split_paragraphs_app (k : nat) (b : jsString) (a : jsString) :
  2 <= k -> startsOffLine b ->
  forall prev skip,
    endsOffLine a -> skip <= List.length a ->
    split_go blankLines prev skip (a ++ repeat 10%N k ++ b)
    = split_go blankLines prev skip a ++ split_go blankLines None 0 b.
Proof.
  intros Hk Hb.
  induction a as [|c a' IH]; intros prev skip Hoff Hskip.
  - simpl in Hskip; replace skip with 0 by lia.
    destruct k as [|k]; [lia|].
    cbn [app repeat split_go].
    change (10%N :: repeat 10%N k ++ b) with (repeat 10%N (S k) ++ b).
    rewrite blankLines_eq.
    rewrite (runLength_lineFeeds (S k) b Hb).
    replace (2 <=? S k) with true by (symmetry; now apply Nat.leb_le).
    now rewrite skip_lineFeeds.
  - pose proof (endsOffLine_tail Hoff) as Hoff'.
    cbn [app split_go].
    destruct skip as [|j].
    + change (c :: a' ++ repeat 10%N k ++ b)
        with ((c :: a') ++ repeat 10%N k ++ b).
      rewrite !blankLines_eq.
      rewrite (@runLength_app_offLine (c :: a') _) by (discriminate || exact Hoff).
      destruct (2 <=? runLength (N.eqb 10%N) (c :: a')) eqn:Erun.
      * pose proof (runLength_le (N.eqb 10%N) (c :: a')) as Hle.
        destruct (runLength (N.eqb 10%N) (c :: a')) as [|j] eqn:En;
          [discriminate|].
        simpl in Hle.
        rewrite IH by (exact Hoff' || lia).
        reflexivity.
      * rewrite IH by (exact Hoff' || lia).
        apply consHead_app, split_go_nonempty.
    + simpl in Hskip; apply IH; [exact Hoff' | lia].
Qed.

(** X6: Two texts joined by a blank line (two line feeds or more) are
    chunked separately: the chunks of the whole are the chunks of the
    first followed by the chunks of the second. *)
Theorem extractChunks_paragraphs (a b : jsString) (k : nat) :
  endsOffLine a -> startsOffLine b -> 2 <= k ->
  extractChunks (a ++ repeat 10%N k ++ b)
  = extractChunks a ++ extractChunks b.
Proof.
  intros Ha Hb Hk.
  rewrite !extractChunks_flat_map; unfold split.
  rewrite (@split_paragraphs_app k b a Hk Hb None 0 Ha) by lia.
  apply flat_map_app.
Qed.

Lemma extractChunks_paragraphs_witness :
  extractChunks (jwtParagraph ++ repeat 10%N 3 ++ noiseParagraph)
  = extractChunks jwtParagraph ++ extractChunks noiseParagraph.
Proof.
  apply (@extractChunks_paragraphs jwtParagraph noiseParagraph 3).
  - right.
    exists (removelast jwtParagraph), 46%N; split; reflexivity.
  - reflexivity.
  - lia.
Defined.

(** ** Session identifiers *)

Lemma split_no_slash (base : jsString) :
  without 47%N base = true ->
  forall prev, split_go slash prev 0 base = [base].
Proof.
  induction base as [|c rest IH]; intros Hno prev; [reflexivity|].
  cbn [without forallb] in Hno; apply andb_true_iff in Hno.
  destruct Hno as [Hc Hrest]; apply negb_true_iff in Hc.
  cbn [split_go]; unfold slash at 1; rewrite Hc.
  now rewrite (IH Hrest).
Qed.

Lemma split_after_slash (base : jsString) (dir : jsString) :
  without 47%N base = true ->
  forall prev,
  exists ps, ps <> []
             /\ split_go slash prev 0 (dir ++ 47%N :: base) = ps ++ [base].
Proof.
  intros Hno.
  induction dir as [|c dir' IH]; intros prev; cbn [app split_go].
  - unfold slash at 1; rewrite N.eqb_refl.
    exists [[]]; split; [discriminate|].
    now rewrite (@split_no_slash base Hno).
  - destruct (IH (Some c)) as [ps [Hne Heq]].
    unfold slash at 1.
    destruct (N.eqb c 47%N).
    + exists ([] :: ps); split; [discriminate | now rewrite Heq].
    + exists (consHead c ps); split.
      * destruct ps; [congruence | discriminate].
      * rewrite Heq; now apply consHead_app.
Qed.

Lemma last_of_path (prefix base : jsString) :
  directoryPrefix prefix -> without 47%N base = true ->
  List.last (split slash (prefix ++ base)) [] = base.
Proof.
  intros [-> | [dir ->]] Hno; unfold split.
  - cbn [app]; now rewrite (@split_no_slash base Hno).
  - rewrite <- app_assoc.
    change ([47%N] ++ base) with (47%N :: base).
    destruct (@split_after_slash base dir Hno None) as [ps [_ Heq]].
    unfold char in *; rewrite Heq; apply last_last.
Qed.

Lemma runLength_all (p : char -> bool) (s rest : jsString) (c : char) :
  forallb p s = true -> p c = false ->
  runLength p (s ++ c :: rest) = List.length s.
Proof.
  intros Hs Hc; induction s as [|x s IH]; cbn [app runLength forallb] in *.
  - now rewrite Hc.
  - apply andb_true_iff in Hs; destruct Hs as [Hx Hs].
    rewrite Hx; cbn [List.length]; f_equal; now apply IH.
Qed.

Lemma forallb_rev (p : char -> bool) (s : jsString) :
  forallb p (rev s) = forallb p s.
Proof.
  induction s as [|x s IH]; [reflexivity|].
  cbn [rev forallb]; rewrite forallb_app, IH; cbn [forallb].
  rewrite andb_true_r; apply andb_comm.
Qed.

Lemma skipn_rev_past (A : Type) (xs ys : list A) (c : A) :
  skipn (S (List.length xs)) (rev xs ++ c :: ys) = ys.
Proof.
  rewrite <- (length_rev xs).
  induction (rev xs) as [|x r IH]; [reflexivity | exact IH].
Qed.

Lemma stripExtension_dot (name ext : jsString) :
  ext <> [] -> without 46%N ext = true ->
  stripExtension (name ++ 46%N :: ext) = name.
Proof.
  intros Hne Hno; unfold stripExtension; cbv zeta.
  assert (Hrev : rev (name ++ 46%N :: ext) = rev ext ++ 46%N :: rev name)
    by (rewrite rev_app_distr; cbn [rev]; now rewrite <- app_assoc).
  assert (Hrun : runLength (fun c => negb (N.eqb c 46%N))
                    (rev ext ++ 46%N :: rev name) = List.length (rev ext)).
  { apply runLength_all;
      [unfold without in Hno; now rewrite forallb_rev | now rewrite N.eqb_refl]. }
  assert (Hpos : 0 < List.length ext)
    by (destruct ext; [now elim Hne | simpl; lia]).
  unfold char, jsString in *; rewrite Hrev, Hrun.
  rewrite length_rev.
  match goal with
  | |- (if ?b then _ else _) = _ => replace b with true
  end.
  - apply eq_trans with (rev (rev name)); [| apply rev_involutive].
    apply f_equal, skipn_rev_past.
  - symmetry; apply andb_true_iff; split; apply Nat.ltb_lt; [exact Hpos|].
    rewrite length_app, length_rev; simpl; lia.
Qed.

Lemma stripExtension_none (name : jsString) :
  without 46%N name = true -> stripExtension name = name.
Proof.
  intros Hno; unfold stripExtension.
  assert (Hrun : runLength (fun c => negb (N.eqb c 46%N)) (rev name)
                 = List.length (rev name)).
  { assert (Hall : forallb (fun c => negb (N.eqb c 46%N)) (rev name) = true)
      by (unfold without in Hno; now rewrite forallb_rev).
    induction (rev name) as [|x r IH]; cbn [runLength forallb List.length] in *;
      [reflexivity|].
    apply andb_true_iff in Hall; destruct Hall as [Hx Hr].
    rewrite Hx; f_equal; now apply IH. }
  rewrite Hrun, Nat.ltb_irrefl, andb_false_r; reflexivity.
Qed.

(** X7: The session id of a transcript path is the name of its file without
    the extension: whatever the directory, [getSessionId] of
    [dir/name.ext] is [name] (only the last extension is removed), and a
    file name without a dot is its own session id. *)
Theorem getSessionId_file_name (prefix name ext : jsString) :
  directoryPrefix prefix ->
  without 47%N name = true ->
  (ext <> [] -> without 47%N ext = true -> without 46%N ext = true ->
   getSessionId (prefix ++ name ++ 46%N :: ext) = name)
  /\ (name <> [] -> without 46%N name = true ->
      getSessionId (prefix ++ name) = name).
Proof.
  intros Hprefix Hname; split.
  - intros Hne Hslash Hdot; unfold getSessionId.
    rewrite (@last_of_path prefix (name ++ 46%N :: ext) Hprefix).
    + replace (nonEmpty (name ++ 46%N :: ext)) with true
        by (destruct name; reflexivity).
      now apply stripExtension_dot.
    + unfold without in *; rewrite forallb_app.
      apply andb_true_iff; split; [exact Hname|].
      cbn [forallb]; apply andb_true_iff; split; [reflexivity | exact Hslash].
  - intros Hne Hdot; unfold getSessionId.
    rewrite (@last_of_path prefix name Hprefix Hname).
    replace (nonEmpty name) with true
      by (destruct name; [congruence | reflexivity]).
    now apply stripExtension_none.
Qed.

Lemma getSessionId_file_name_witness :
  getSessionId (str "/home/me/.claude/" ++ str "my.session" ++ 46%N :: str "jsonl")
  = str "my.session"
  /\ getSessionId (str "logs/" ++ str "transcript") = str "transcript".
Proof.
  destruct (@getSessionId_file_name (str "/home/me/.claude/")
              (str "my.session") (str "jsonl")) as [Hext _];
    [right; exists (str "/home/me/.claude"); reflexivity | reflexivity |].
  destruct (@getSessionId_file_name (str "logs/") (str "transcript") [])
    as [_ Hplain];
    [right; exists (str "logs"); reflexivity | reflexivity |].
  split.
  - apply Hext; [discriminate | reflexivity | reflexivity].
  - apply Hplain; [discriminate | reflexivity].
Defined.

(** ** Saving and updating the configuration *)

Lemma hasKey_In (k : jsString) (o : object) :
  hasKey k o = true <-> In k (map fst o).
Proof.
  unfold hasKey; induction o as [|[k' v'] rest IH]; cbn [lookup map fst In].
  - split; [discriminate | tauto].
  - destruct (JsString.eqb k k') eqn:E.
    + apply jsString_eqb_eq in E; subst k'; split; auto.
    + apply jsString_eqb_neq in E; rewrite IH; split; [tauto|].
      intros [Heq | Hin]; [congruence | exact Hin].
Qed.

Lemma keys_overwrite (k : jsString) (v : value) (o : object) :
  map fst (overwrite k v o) = map fst o.
Proof.
  induction o as [|[k' v'] rest IH]; cbn [overwrite map fst]; [reflexivity|].
  destruct (JsString.eqb k k'); cbn [map fst]; [reflexivity|].
  now rewrite IH.
Qed.

Lemma keys_insertIndex (i : N) (k : jsString) (v : value) (o : object) :
  exists before after,
    map fst o = before ++ after
    /\ map fst (insertIndex i k v o) = before ++ k :: after.
Proof.
  induction o as [|[k' v'] rest [before [after [Ho Hi]]]];
    cbn [insertIndex].
  - exists [], []; split; reflexivity.
  - destruct (arrayIndex k') as [j|]; [destruct (j <? i)%N|].
    + exists (k' :: before), after; cbn [map fst app].
      rewrite Ho, Hi; split; reflexivity.
    + exists [], (k' :: map fst rest); split; reflexivity.
    + exists [], (k' :: map fst rest); split; reflexivity.
Qed.

(** An assignment leaves the keys as they are or adds one new key. *)
Lemma keys_assign (k : jsString) (v : value) (o : object) :
  map fst (assign k v o) = map fst o
  \/ (hasKey k o = false
      /\ exists before after,
           map fst o = before ++ after
           /\ map fst (assign k v o) = before ++ k :: after).
Proof.
  unfold assign.
  destruct (hasKey k o) eqn:Hk; [left; apply keys_overwrite|].
  destruct (JsString.eqb k (str "__proto__")); [now left|].
  right; split; [reflexivity|].
  destruct (arrayIndex k) as [i|]; [apply keys_insertIndex|].
  exists (map fst o), []; rewrite map_app, app_nil_r; split; reflexivity.
Qed.

Lemma keepsKeys_refl (base : object) : keepsKeys base base.
Proof.
  unfold keepsKeys.
  apply forallb_filter_id, forallb_forall.
  intros k Hin; now apply hasKey_In.
Qed.

Lemma keepsKeys_assign (base : object) (k : jsString) (v : value)
      (o : object) :
  keepsKeys base o -> keepsKeys base (assign k v o).
Proof.
  unfold keepsKeys; intros Hkept.
  destruct (keys_assign k v o) as [-> | [Hnew [before [after [Ho Ha]]]]];
    [exact Hkept|].
  assert (Hbase : hasKey k base = false).
  { destruct (hasKey k base) eqn:E; [|reflexivity].
    apply hasKey_In in E; rewrite <- Hkept in E.
    apply filter_In in E; destruct E as [E _].
    apply hasKey_In in E; congruence. }
  rewrite Ha, filter_app; cbn [filter]; rewrite Hbase.
  rewrite <- filter_app, <- Ho; exact Hkept.
Qed.

Lemma indicesFirst_insertIndex (i : N) (k : jsString) (v : value)
      (name : jsString) (rest : list jsString) :
  arrayIndex k = Some i -> arrayIndex name = None ->
  forall (indices : list jsString) (o : object),
    map fst o = indices ++ name :: rest ->
    Forall (fun k => arrayIndex k <> None) indices ->
    StronglySorted indexBefore indices ->
    exists indices',
      map fst (insertIndex i k v o) = indices' ++ name :: rest
      /\ Forall (fun k => arrayIndex k <> None) indices'
      /\ StronglySorted indexBefore indices'
      /\ (forall x, In x indices' -> x = k \/ In x indices).
Proof.
  intros Hk Hname.
  assert (Hindex : arrayIndex k <> None) by (rewrite Hk; discriminate).
  induction indices as [|a indices IH]; intros [|[k' v'] o] Ho Hall Hsorted;
    try discriminate; cbn [map fst app] in Ho;
    injection Ho as -> Ho; cbn [insertIndex].
  - rewrite Hname; exists [k]; cbn [map fst app]; rewrite Ho.
    split; [reflexivity|]. split; [now constructor|].
    split; [repeat constructor|].
    intros x [<- | []]; now left.
  - inversion Hall as [|? ? Ha Hrest]; subst.
    inversion Hsorted as [|? ? Hsorted' Hbefore]; subst.
    destruct (arrayIndex a) as [j|] eqn:Ea; [|now destruct Ha].
    assert (Ha' : arrayIndex a <> None) by (rewrite Ea; discriminate).
    destruct (j <? i)%N eqn:Hji.
    + destruct (IH o Ho Hrest Hsorted')
        as [indices' [Hi [Hall' [Hsorted'' Hfrom]]]].
      exists (a :: indices'); cbn [map fst app]; rewrite Hi.
      split; [reflexivity|]. split; [now constructor|]. split.
      * constructor; [exact Hsorted''|].
        apply Forall_forall; intros x Hx.
        destruct (Hfrom x Hx) as [-> | Hin].
        -- unfold indexBefore; rewrite Ea, Hk.
           apply N.ltb_lt in Hji; lia.
        -- exact (proj1 (Forall_forall _ _) Hbefore x Hin).
      * intros x [<- | Hx]; [right; now left|].
        destruct (Hfrom x Hx) as [-> | Hin]; [now left | right; now right].
    + exists (k :: a :: indices); cbn [map fst app]; rewrite Ho.
      split; [reflexivity|]. split; [now repeat constructor|]. split.
      * apply N.ltb_ge in Hji.
        constructor; [exact Hsorted|].
        constructor; [unfold indexBefore; now rewrite Hk, Ea|].
        apply Forall_forall; intros x Hx.
        pose proof (proj1 (Forall_forall _ _) Hbefore x Hx) as Hax.
        unfold indexBefore in *; rewrite Ea in Hax; rewrite Hk.
        destruct (arrayIndex x); [lia | exact Hax].
      * intros x [<- | Hx]; [now left | now right].
Qed.

Lemma NoDup_assign (k : jsString) (v : value) (o : object) :
  NoDup (map fst o) -> NoDup (map fst (assign k v o)).
Proof.
  intros Hnd.
  destruct (keys_assign k v o) as [-> | [Hnew [before [after [Ho Ha]]]]];
    [exact Hnd|].
  rewrite Ha.
  apply (Permutation_NoDup (Permutation_middle before after k)).
  constructor.
  - rewrite <- Ho; intros Hin; apply hasKey_In in Hin; congruence.
  - now rewrite <- Ho.
Qed.

Lemma indicesFirst_assign (name : jsString) (rest : list jsString)
      (k : jsString) (v : value) (o : object) :
  arrayIndex name = None ->
  indicesFirst (name :: rest) o -> indicesFirst (name :: rest) (assign k v o).
Proof.
  intros Hname [indices [others [Ho [Hall [Hsorted [Hothers Hnd]]]]]].
  pose proof (@NoDup_assign k v o Hnd) as Hnd'.
  unfold indicesFirst; unfold assign in *.
  destruct (hasKey k o);
    [rewrite keys_overwrite in *; now exists indices, others|].
  destruct (JsString.eqb k (str "__proto__")); [now exists indices, others|].
  destruct (arrayIndex k) as [i|] eqn:Hk.
  - destruct (@indicesFirst_insertIndex i k v name (rest ++ others) Hk Hname
                indices o Ho Hall Hsorted)
      as [indices' [Hi [Hall' [Hsorted' _]]]].
    now exists indices', others.
  - exists indices, (others ++ [k]).
    split; [|split; [exact Hall | split; [exact Hsorted | split;
      [|exact Hnd']]]].
    + rewrite map_app, Ho; cbn [map fst app].
      rewrite <- app_assoc; cbn [app]; now rewrite <- app_assoc.
    + apply Forall_app; split; [exact Hothers | now repeat constructor].
Qed.

Section MergeInvariant.
(** A property of objects that assignments keep. *)
Variable P : object -> Prop.
Hypothesis P_assign : forall k v o, P o -> P (assign k v o).

Lemma mergeKey_invariant (target : value) (key : jsString)
      (sourceValue : value) (merged result : object) :
  P result -> P (mergeKey target key sourceValue merged result).
Proof.
  intros Hresult; unfold mergeKey.
  destruct (isPlainObject sourceValue && isObject (prop target key));
    [now apply P_assign|].
  destruct (negb (isUndefined sourceValue)); [now apply P_assign | exact Hresult].
Qed.

Lemma deepMergeObject_invariant (target source : value) :
  P (spread target) -> P (deepMergeObject target source).
Proof.
  destruct source as [| | b | n | s | items | fields];
    try (cbn [deepMergeObject]; tauto).
  - cbn [deepMergeObject].
    generalize (indexed (fun c => VStr [c]) 0 s) as kvs.
    generalize (spread target) as result.
    intros result kvs; revert result.
    induction kvs as [|kv kvs IH]; intros result Hresult; cbn [fold_left];
      [exact Hresult|].
    now apply IH, mergeKey_invariant.
  - cbn [deepMergeObject].
    generalize (spread target) as result.
    generalize 0 as i.
    induction items as [|x items IH]; intros i result Hresult;
      [exact Hresult|].
    now apply IH, mergeKey_invariant.
  - rewrite deepMergeObject_VObj; unfold mergeFields.
    generalize (spread target) as result.
    induction fields as [|kv fields IH]; intros result Hresult;
      cbn [fold_left]; [exact Hresult|].
    now apply IH, mergeKey_invariant.
Qed.

End MergeInvariant.

(** X8: [deepMerge] never drops a key of its target and never changes the
    order of the keys of its target.  It throws exactly for a source that
    is [null] or [undefined] and for a target that is [null] or
    [undefined] when the source has a key; otherwise the keys of the
    result that are keys of the target are those of the target, each
    once and in their order.  So whatever the configuration file holds,
    the keys of the configuration [loadConfig] returns are, in the order
    [Object.keys] lists them: the array indices the file adds, in
    ascending order; then [statusline], [archive] and [monitor]; then
    the other keys the file adds, none of them an array index; and no
    key comes twice. *)
Theorem deepMerge_keeps_target_keys :
  (forall target source : value,
      deepMerge target source = None
      <-> (source = VNull \/ source = VUndefined
           \/ ((target = VNull \/ target = VUndefined)
               /\ exists kv rest, entries source = Some (kv :: rest))))
  /\ (forall target source merged : value,
         deepMerge target source = Some merged ->
         exists result,
           merged = VObj result
           /\ filter (fun k => hasKey k (spread target)) (map fst result)
              = map fst (spread target))
  /\ (forall (JSON_parse : jsString -> option value) (file : configFile),
         exists config indices others,
           loadConfig JSON_parse file = VObj config
           /\ map fst config
              = indices
                  ++ [str "statusline"; str "archive"; str "monitor"]
                  ++ others
           /\ Forall (fun k => arrayIndex k <> None) indices
           /\ StronglySorted indexBefore indices
           /\ Forall (fun k => arrayIndex k = None) others
           /\ NoDup (map fst config)).
Proof.
  assert (Hsome : forall (P : object -> Prop) (target source merged : value),
             (forall k v o, P o -> P (assign k v o)) ->
             P (spread target) ->
             deepMerge target source = Some merged ->
             exists result, merged = VObj result /\ P result).
  { intros P target source merged Hassign Hstart Hmerge.
    exists (deepMergeObject target source); split;
      [|now apply deepMergeObject_invariant].
    unfold deepMerge in Hmerge.
    destruct source; try discriminate;
      destruct target; cbn [entries] in Hmerge;
      repeat match type of Hmerge with
             | context [match ?l with [] => _ | _ :: _ => _ end] =>
                 destruct l
             end; congruence. }
  split; [|split].
  - intros target source; split.
    + unfold deepMerge.
      destruct source; auto; try discriminate;
        destruct target; cbn [entries]; try discriminate;
        match goal with
        | |- context [match ?l with [] => _ | _ :: _ => _ end] =>
            destruct l as [|kv rest] eqn:E
        end; try discriminate; intros _; right; right;
        (split; [auto | now exists kv, rest]).
    + intros [-> | [-> | [[-> | ->] [kv [rest Hkeys]]]]]; try reflexivity;
        unfold deepMerge; rewrite Hkeys; destruct source; try reflexivity;
        discriminate.
  - intros target source merged Hmerge.
    exact (@Hsome (keepsKeys (spread target)) target source merged
             (fun k v o => @keepsKeys_assign (spread target) k v o)
             (keepsKeys_refl (spread target)) Hmerge).
  - intros JSON_parse file.
    assert (Hstart : indicesFirst
                       [str "statusline"; str "archive"; str "monitor"]
                       (spread (configValue DEFAULT_CONFIG))).
    { exists [], []; split; [reflexivity|].
      split; [constructor|]. split; [constructor|]. split; [constructor|].
      repeat constructor; cbn; intuition discriminate. }
    assert (Hdefault : exists config indices others,
               configValue DEFAULT_CONFIG = VObj config
               /\ map fst config
                  = indices
                      ++ [str "statusline"; str "archive"; str "monitor"]
                      ++ others
               /\ Forall (fun k => arrayIndex k <> None) indices
               /\ StronglySorted indexBefore indices
               /\ Forall (fun k => arrayIndex k = None) others
               /\ NoDup (map fst config)).
    { destruct Hstart as [indices [others Hshape]].
      eexists; exists indices, others; split; [reflexivity | exact Hshape]. }
    destruct file as [| |text]; cbn [loadConfig]; try exact Hdefault.
    destruct (JSON_parse text) as [loaded|]; [|exact Hdefault].
    destruct (deepMerge (configValue DEFAULT_CONFIG) loaded) as [merged|]
      eqn:Hmerge; [|exact Hdefault].
    destruct (@Hsome (indicesFirst
                        [str "statusline"; str "archive"; str "monitor"])
                (configValue DEFAULT_CONFIG) loaded merged)
      as [result [-> [indices [others Hshape]]]].
    + intros k v o; now apply indicesFirst_assign.
    + exact Hstart.
    + exact Hmerge.
    + now exists result, indices, others.
Qed.

Lemma deepMerge_keeps_target_keys_witness :
  exists result,
    VObj [(str "0", VNum 1); (str "zeta", VNum 2)] = VObj result
    /\ filter (fun k => hasKey k (spread (VObj [(str "zeta", VNum 2)])))
              (map fst result)
       = map fst (spread (VObj [(str "zeta", VNum 2)])).
Proof.
  apply (proj1 (proj2 deepMerge_keeps_target_keys)
               (VObj [(str "zeta", VNum 2)]) (VObj [(str "0", VNum 1)])).
  vm_compute; reflexivity.
Defined.

Lemma mergeFields_sections (c0 : Config) (sections : list configSection) :
  forall c : Config,
    mergeFields (configValue c0) (map sectionField sections)
                (spread (configValue c))
    = spread (configValue (fold_left setSection sections c)).
Proof.
  induction sections as [|s sections IH]; intros c; [reflexivity|].
  unfold mergeFields in *; cbn [map fold_left].
  rewrite <- IH; f_equal.
  destruct c0 as [[] [] []], c as [[] [] []], s as [[]|[]|[]]; reflexivity.
Qed.

Lemma deepMerge_sections (c : Config) (sections : list configSection) :
  deepMerge (configValue c) (partialConfig sections)
  = Some (configValue (fold_left setSection sections c)).
Proof.
  unfold partialConfig; cbn [deepMerge].
  rewrite deepMergeObject_VObj, mergeFields_sections; reflexivity.
Qed.

(** X9: [updateConfig] with a [Partial<Config>] replaces exactly the
    sections it is given, keeps the others as the configuration file
    has them, returns the result and writes it to the file. *)
Theorem updateConfig_replaces_sections
        (JSON_stringify : value -> jsString)
        (JSON_parse : jsString -> option value)
        (file : configFile) (current : Config)
        (sections : list configSection) :
  loadConfig JSON_parse file = configValue current ->
  let updated := configValue (fold_left setSection sections current) in
  ConfigStore.updateConfig JSON_stringify JSON_parse file
                           (partialConfig sections)
  = Some (updated, ConfigText (JSON_stringify updated)).
Proof.
  intros Hload updated; unfold ConfigStore.updateConfig.
  rewrite Hload, deepMerge_sections; reflexivity.
Qed.

Lemma updateConfig_replaces_sections_witness :
  ConfigStore.updateConfig minimalStringify minimalParse NoConfigFile
    (partialConfig [MonitorSection {| tokenThreshold := 85 |}])
  = Some (configValue
            {| statusline := DEFAULT_STATUSLINE_CONFIG;
               archive := DEFAULT_ARCHIVE_CONFIG;
               monitor := {| tokenThreshold := 85 |} |},
          ConfigText minimalText).
Proof.
  apply (@updateConfig_replaces_sections minimalStringify minimalParse
           NoConfigFile DEFAULT_CONFIG
           [MonitorSection {| tokenThreshold := 85 |}]).
  reflexivity.
Defined.

(** X10: [applyPreset] returns the preset itself (every preset gives
    all the fields, so nothing of the defaults remains) and saves it;
    when [JSON.parse] reads back what [JSON.stringify] wrote, the next
    [loadConfig] returns the preset again. *)
Theorem applyPreset_round_trip
        (JSON_stringify : value -> jsString)
        (JSON_parse : jsString -> option value)
        (preset : ConfigStore.ConfigPreset) :
  let config := configValue (ConfigStore.CONFIG_PRESETS preset) in
  JSON_parse (JSON_stringify config) = Some config ->
  exists file,
    ConfigStore.applyPreset JSON_stringify preset = Some (config, file)
    /\ loadConfig JSON_parse file = config.
Proof.
  intros config Hparse.
  assert (Hmerge : forall c : Config,
             deepMerge (configValue c) config = Some config).
  { intros c.
    exact (deepMerge_sections c
             [StatuslineSection (statusline (ConfigStore.CONFIG_PRESETS preset));
              ArchiveSection (archive (ConfigStore.CONFIG_PRESETS preset));
              MonitorSection (monitor (ConfigStore.CONFIG_PRESETS preset))]). }
  exists (ConfigText (JSON_stringify config)); split.
  - unfold ConfigStore.applyPreset; fold config.
    now rewrite Hmerge.
  - cbn [loadConfig]; now rewrite Hparse, Hmerge.
Qed.

Lemma applyPreset_round_trip_witness :
  exists file,
    ConfigStore.applyPreset minimalStringify ConfigStore.minimal
    = Some (configValue (ConfigStore.CONFIG_PRESETS ConfigStore.minimal), file)
    /\ loadConfig minimalParse file
       = configValue (ConfigStore.CONFIG_PRESETS ConfigStore.minimal).
Proof.
  apply (@applyPreset_round_trip minimalStringify minimalParse
           ConfigStore.minimal).
  reflexivity.
Defined.

(** ** Embedding in batches *)

Section Batches.
Variable Float32Array : Type.
Variable pipe : pipeline Float32Array.
Variable prefix : jsString.

Lemma embedEach_app (a b : list jsString) :
  forall results,
    embedEach pipe (a ++ b) results
    = match embedEach pipe a results with
      | Returned results' => embedEach pipe b results'
      | Threw e => Threw e
      | Diverged => Diverged
      end.
Proof.
  induction a as [|t a IH]; intros results; cbn [app embedEach];
    [reflexivity|].
  destruct (pipe t); [apply IH | reflexivity].
Qed.

Lemma embedEach_returned (batch : list jsString) :
  forall results results',
    embedEach pipe (map (fun t => prefix ++ t) batch) results
    = Returned results' ->
    Forall (fun t => pipe (prefix ++ t) <> None) batch.
Proof.
  induction batch as [|t batch IH]; intros results results' Hrun;
    [constructor|].
  cbn [map embedEach] in Hrun.
  destruct (pipe (prefix ++ t)) eqn:Ht; [|discriminate].
  constructor; [congruence | eapply IH; exact Hrun].
Qed.

Lemma embedEach_first_failure (before after : list jsString) (t : jsString) :
  Forall (fun t => pipe (prefix ++ t) <> None) before ->
  pipe (prefix ++ t) = None ->
  forall results,
    embedEach pipe (map (fun t => prefix ++ t) (before ++ t :: after)) results
    = Threw (InferenceError (prefix ++ t)).
Proof.
  intros Hbefore Ht; induction Hbefore as [|x before Hx _ IH];
    intros results; cbn [app map embedEach].
  - now rewrite Ht.
  - destruct (pipe (prefix ++ x)); [apply IH | congruence].
Qed.

(** The batches, one after the other, are the texts. *)
Lemma embedLoop_is_embedEach (texts : list jsString) (size : nat)
      (report : bool) :
  1 <= size ->
  forall fuel i results calls,
    List.length texts - i < fuel ->
    fst (embedLoop fuel pipe prefix texts size report i results calls)
    = embedEach pipe (map (fun t => prefix ++ t) (skipn i texts)) results.
Proof.
  intros Hsize; induction fuel as [|fuel IH]; intros i results calls Hfuel;
    [lia|].
  cbn [embedLoop].
  destruct (i <? List.length texts) eqn:Hi.
  - apply Nat.ltb_lt in Hi.
    assert (Hsplit : skipn i texts
                     = slice i (i + size) texts ++ skipn (i + size) texts).
    { unfold slice.
      replace (i + size - i) with size by lia.
      rewrite Nat.add_comm, <- skipn_skipn.
      symmetry; apply firstn_skipn. }
    rewrite Hsplit, map_app, embedEach_app.
    match goal with
    | |- fst (match ?l with _ => _ end) = match ?r with _ => _ end =>
        change r with l; destruct l as [results'| e |]
    end; [|reflexivity|reflexivity].
    apply IH; lia.
  - apply Nat.ltb_ge in Hi.
    rewrite skipn_all2 by exact Hi; reflexivity.
Qed.

Lemma firstn_min_length (A : Type) (n : nat) (l : list A) :
  firstn (Nat.min n (List.length l)) l = firstn n l.
Proof.
  destruct (Nat.le_ge_cases n (List.length l)) as [H|H].
  - now rewrite Nat.min_l.
  - rewrite Nat.min_r, firstn_all, firstn_all2 by exact H; reflexivity.
Qed.

(** What has been reported as completed has been embedded. *)
Lemma embedLoop_reports_embedded (texts : list jsString) (size : nat)
      (report : bool) :
  let embedded (call : progress) :=
    Forall (fun t => pipe (prefix ++ t) <> None) (firstn (fst call) texts) in
  forall fuel i results calls,
    Forall (fun t => pipe (prefix ++ t) <> None) (firstn i texts) ->
    Forall embedded calls ->
    Forall embedded
           (snd (embedLoop fuel pipe prefix texts size report i results
                           calls)).
Proof.
  intros embedded; induction fuel as [|fuel IH];
    intros i results calls Hdone Hcalls; [exact Hcalls|].
  cbn [embedLoop].
  destruct (i <? List.length texts); [|exact Hcalls].
  destruct (embedEach pipe
              (map (fun t => prefix ++ t) (slice i (i + size) texts))
              results) as [results'| e |] eqn:Hbatch;
    [|exact Hcalls|exact Hcalls].
  assert (Hnext : Forall (fun t => pipe (prefix ++ t) <> None)
                         (firstn (i + size) texts)).
  { rewrite firstn_plus; apply Forall_app; split; [exact Hdone|].
    apply embedEach_returned in Hbatch.
    unfold slice in Hbatch.
    now replace (i + size - i) with size in Hbatch by lia. }
  apply IH; [exact Hnext|].
  destruct report; [|exact Hcalls].
  apply Forall_app; split; [exact Hcalls|].
  constructor; [|constructor].
  unfold embedded; cbn [fst].
  now rewrite firstn_min_length.
Qed.

End Batches.

Lemma embedBatch_loop (Float32Array : Type) (pipe : pipeline Float32Array)
      (texts : list jsString) (opts : options) :
  batchSize opts <> Some 0 ->
  fst (embedBatch (Some pipe) texts opts)
  = embedEach pipe (map (fun t => prefixOf opts ++ t) texts) [].
Proof.
  intros Hsize.
  unfold embedBatch, embedBatchFuel, initEmbedder.
  replace (if match isQuery opts with Some b => b | None => false end
           then QUERY_PREFIX else PASSAGE_PREFIX)
    with (prefixOf opts)
    by (unfold prefixOf; destruct (isQuery opts) as [[|]|]; reflexivity).
  rewrite embedLoop_is_embedEach; [reflexivity | | lia].
  destruct (batchSize opts) as [[|n]|]; [congruence | lia | lia].
Qed.

(** X11: Batching is transparent: with a batch size of at least one (32 when
    none is given), [embedBatch] returns, or throws, exactly what
    [embedPassages] does on the same texts, whatever the batch size and
    with or without a progress callback; and with [isQuery] set, what it
    does on one text is what [embedQuery] does. *)
Theorem embedBatch_is_embedPassages (Float32Array : Type)
        (provider : option (pipeline Float32Array)) (opts : options) :
  batchSize opts <> Some 0 ->
  (isQuery opts <> Some true ->
   forall texts,
     fst (embedBatch provider texts opts) = embedPassages provider texts)
  /\ (isQuery opts = Some true ->
      forall text,
        fst (embedBatch provider [text] opts)
        = mapOutcome (fun v => [v]) (embedQuery provider text)).
Proof.
  intros Hsize; split.
  - intros Hquery texts.
    destruct provider as [pipe|]; [|reflexivity].
    rewrite (@embedBatch_loop Float32Array pipe texts opts Hsize).
    unfold embedPassages, initEmbedder, prefixOf.
    destruct (isQuery opts) as [[|]|]; [congruence | reflexivity | reflexivity].
  - intros Hquery text.
    destruct provider as [pipe|]; [|reflexivity].
    rewrite (@embedBatch_loop Float32Array pipe [text] opts Hsize).
    unfold embedQuery, initEmbedder, prefixOf; rewrite Hquery.
    cbn [map embedEach mapOutcome].
    destruct (pipe (QUERY_PREFIX ++ text)); reflexivity.
Qed.

Lemma embedBatch_is_embedPassages_witness :
  fst (embedBatch (Some shortPipe) [str "first"; str "much too long"; str "third"]
                  {| batchSize := Some 2; onProgress := true; isQuery := None |})
  = embedPassages (Some shortPipe)
                  [str "first"; str "much too long"; str "third"]
  /\ fst (embedBatch (Some shortPipe) [str "first"]
                     {| batchSize := None; onProgress := false;
                        isQuery := Some true |})
     = mapOutcome (fun v => [v]) (embedQuery (Some shortPipe) (str "first")).
Proof.
  split.
  - apply (proj1 (@embedBatch_is_embedPassages nat (Some shortPipe)
                    {| batchSize := Some 2; onProgress := true;
                       isQuery := None |} ltac:(discriminate)));
      discriminate.
  - apply (proj2 (@embedBatch_is_embedPassages nat (Some shortPipe)
                    {| batchSize := None; onProgress := false;
                       isQuery := Some true |} ltac:(discriminate)));
      reflexivity.
Defined.

(** X12: When the model refuses a text, [embedBatch] throws the error of the
    first text it refuses, whatever the batch size and the texts after
    it; no embedding is returned for the texts before it. *)
Theorem embedBatch_first_failure (Float32Array : Type)
        (pipe : pipeline Float32Array) (opts : options)
        (before after : list jsString) (t : jsString) :
  batchSize opts <> Some 0 ->
  Forall (fun t => pipe (prefixOf opts ++ t) <> None) before ->
  pipe (prefixOf opts ++ t) = None ->
  fst (embedBatch (Some pipe) (before ++ t :: after) opts)
  = Threw (InferenceError (prefixOf opts ++ t)).
Proof.
  intros Hsize Hbefore Ht.
  rewrite (@embedBatch_loop Float32Array pipe (before ++ t :: after) opts Hsize).
  now apply embedEach_first_failure.
Qed.

Lemma embedBatch_first_failure_witness :
  fst (embedBatch (Some shortPipe)
                  ([str "first"] ++ str "much too long" :: [str "also too long"])
                  {| batchSize := Some 2; onProgress := true; isQuery := None |})
  = Threw (InferenceError (str "passage: much too long")).
Proof.
  apply (@embedBatch_first_failure nat shortPipe
           {| batchSize := Some 2; onProgress := true; isQuery := None |}
           [str "first"] [str "also too long"] (str "much too long")).
  - discriminate.
  - repeat constructor; discriminate.
  - reflexivity.
Defined.

(** X13: Progress is never over-reported: in any run of [embedBatch], one
    that fails or never ends included, every call [(completed, total)]
    of the callback is made when the first [completed] texts have all
    been embedded. *)
Theorem progress_reports_embedded_texts (Float32Array : Type)
        (pipe : pipeline Float32Array) (texts : list jsString)
        (opts : options) :
  Forall (fun call : progress =>
            Forall (fun t => pipe (prefixOf opts ++ t) <> None)
                   (firstn (fst call) texts))
         (snd (embedBatch (Some pipe) texts opts)).
Proof.
  unfold embedBatch, embedBatchFuel, initEmbedder.
  replace (if match isQuery opts with Some b => b | None => false end
           then QUERY_PREFIX else PASSAGE_PREFIX)
    with (prefixOf opts)
    by (unfold prefixOf; destruct (isQuery opts) as [[|]|]; reflexivity).
  apply embedLoop_reports_embedded; constructor.
Qed.

(** X14: [embedPassage] never returns [undefined]: when it returns, the
    first element of the result of [embedPassages] is there, and it is
    the model's answer to the text as a passage; when the model refuses
    the text the error is thrown on. *)
Theorem embedPassage_is_defined (Float32Array : Type)
        (provider : option (pipeline Float32Array)) (text : jsString) :
  embedPassage provider text <> Returned None
  /\ forall output,
      embedPassage provider text = Returned (Some output) <->
      exists pipe, provider = Some pipe
                   /\ pipe (PASSAGE_PREFIX ++ text) = Some output.
Proof.
  unfold embedPassage, embedPassages, initEmbedder.
  destruct provider as [pipe|]; cbn [map embedEach].
  - destruct (pipe (PASSAGE_PREFIX ++ text)) as [v|] eqn:Hpipe;
      cbn [app hd_error].
    + split; [discriminate|].
      intros output; split.
      * intros Heq; injection Heq as <-; exists pipe; auto.
      * intros [pipe' [Hp Ho]]; injection Hp as <-; congruence.
    + split; [discriminate|].
      intros output; split; [discriminate|].
      intros [pipe' [Hp Ho]]; injection Hp as <-; congruence.
  - split; [discriminate|].
    intros output; split; [discriminate | intros [pipe [Hp _]]; discriminate].
Qed.

(** ** The embedder is loaded once *)

Section Loader.
Variable Float32Array : Type.
Variable load : nat -> option (pipeline Float32Array).

Local Abbreviation init := (Singleton.initEmbedder load).
Local Abbreviation afterCalls := (Singleton.after load).

Lemma after_add (a b : nat) :
  forall st, afterCalls (a + b) st = afterCalls b (afterCalls a st).
Proof.
  induction a as [|a IH]; intros st; [reflexivity|].
  cbn [Nat.add Singleton.after]; apply IH.
Qed.

Lemma after_reachable (n : nat) :
  Singleton.embedder (afterCalls n (Singleton.initial Float32Array)) = None ->
  Singleton.initPromise (afterCalls n (Singleton.initial Float32Array)) = None.
Proof.
  assert (Hinv : forall n st,
             (Singleton.embedder st = None -> Singleton.initPromise st = None) ->
             Singleton.embedder (afterCalls n st) = None ->
             Singleton.initPromise (afterCalls n st) = None).
  { clear n; induction n as [|n IH]; intros st Hst; [exact Hst|].
    cbn [Singleton.after]; apply IH.
    unfold Singleton.initEmbedder.
    destruct (Singleton.embedder st) eqn:He; [cbn [snd]; congruence|].
    rewrite (Hst eq_refl).
    destruct (load (Singleton.attempts st)); cbn; congruence. }
  apply Hinv; reflexivity.
Qed.

Lemma ready_stays (p : pipeline Float32Array) (st : Singleton.state Float32Array) :
  Singleton.embedder st = Some p ->
  forall n, afterCalls n st = st.
Proof.
  intros He n; induction n as [|n IH]; [reflexivity|].
  cbn [Singleton.after]; unfold Singleton.initEmbedder; rewrite He.
  exact IH.
Qed.

(** X15: The embedder is a singleton: for calls awaited one after the other
    from a fresh module, once a call of [initEmbedder] has returned a
    pipeline, every later call returns that same pipeline and the model
    is not loaded again. *)
Theorem initEmbedder_loads_once (k : nat) (p : pipeline Float32Array) :
  fst (init (afterCalls k (Singleton.initial Float32Array))) = Returned p ->
  (forall n, k <= n ->
     fst (init (afterCalls n (Singleton.initial Float32Array))) = Returned p
     /\ Singleton.attempts (afterCalls (S n) (Singleton.initial Float32Array))
        = Singleton.attempts
            (afterCalls (S k) (Singleton.initial Float32Array)))
  /\ Singleton.isEmbedderReady
       (afterCalls (S k) (Singleton.initial Float32Array)) = true.
Proof.
  intros Hk.
  set (st := afterCalls k (Singleton.initial Float32Array)) in *.
  assert (Hready : Singleton.embedder (snd (init st)) = Some p).
  { pose proof (after_reachable k) as Hinv; fold st in Hinv.
    unfold Singleton.initEmbedder in *.
    destruct (Singleton.embedder st) eqn:He.
    - cbn [fst snd] in *; congruence.
    - rewrite (Hinv eq_refl) in *.
      destruct (load (Singleton.attempts st)); cbn [fst snd] in *;
        [cbn; congruence | discriminate]. }
  assert (Hafter : forall m,
             afterCalls (S k + m) (Singleton.initial Float32Array)
             = snd (init st)).
  { intros m.
    replace (S k + m) with (k + S m) by lia.
    rewrite after_add; fold st; cbn [Singleton.after].
    now apply ready_stays with (p := p). }
  split.
  - intros n Hn.
    assert (Hnext : afterCalls (S n) (Singleton.initial Float32Array)
                    = snd (init st))
      by (replace (S n) with (S k + (n - k)) by lia; apply Hafter).
    split.
    + destruct (Nat.eq_dec n k) as [->|Hne]; [exact Hk|].
      replace n with (S k + (n - S k)) by lia.
      rewrite Hafter.
      generalize dependent (snd (init st)); intros st' Hst' _ _.
      unfold Singleton.initEmbedder; now rewrite Hst'.
    + rewrite Hnext.
      replace (S k) with (S k + 0) by lia; now rewrite Hafter.
  - replace (S k) with (S k + 0) by lia; rewrite Hafter.
    unfold Singleton.isEmbedderReady.
    generalize dependent (snd (init st)); intros st' Hst' _.
    now rewrite Hst'.
Qed.

(** X16: A failed load is retried: for calls awaited one after the other
    from a fresh module, a call of [initEmbedder] that throws leaves no
    embedder and no promise behind, so the next call tries to load the
    model again and returns what that attempt gives. *)
Theorem initEmbedder_retries_after_failure (k : nat) (e : error) :
  fst (init (afterCalls k (Singleton.initial Float32Array))) = Threw e ->
  Singleton.isEmbedderReady
    (afterCalls (S k) (Singleton.initial Float32Array)) = false
  /\ Singleton.attempts (afterCalls (S (S k)) (Singleton.initial Float32Array))
     = S (S (Singleton.attempts
               (afterCalls k (Singleton.initial Float32Array))))
  /\ fst (init (afterCalls (S k) (Singleton.initial Float32Array)))
     = match load (S (Singleton.attempts
                        (afterCalls k (Singleton.initial Float32Array)))) with
       | Some p => Returned p
       | None => Threw ModelLoadError
       end.
Proof.
  intros Hk.
  replace (S (S k)) with (k + 2) by lia.
  replace (S k) with (k + 1) by lia.
  rewrite !after_add.
  pose proof (after_reachable k) as Hinv.
  set (st := afterCalls k (Singleton.initial Float32Array)) in *.
  assert (Hstep : init st
                  = (Threw ModelLoadError,
                     {| Singleton.embedder := None;
                        Singleton.initPromise := None;
                        Singleton.attempts := S (Singleton.attempts st) |})).
  { unfold Singleton.initEmbedder in *.
    destruct (Singleton.embedder st); [discriminate|].
    rewrite (Hinv eq_refl) in *.
    destruct (load (Singleton.attempts st)); [discriminate | reflexivity]. }
  cbn [Singleton.after]; rewrite Hstep; cbn [snd].
  unfold Singleton.initEmbedder, Singleton.isEmbedderReady;
    cbn [Singleton.embedder Singleton.initPromise Singleton.attempts].
  repeat split;
    destruct (load (S (Singleton.attempts st))); reflexivity.
Qed.

End Loader.

Lemma initEmbedder_retries_after_failure_witness :
  Singleton.isEmbedderReady
    (Singleton.after thirdTime 2 (Singleton.initial nat)) = false
  /\ Singleton.attempts (Singleton.after thirdTime 3 (Singleton.initial nat))
     = 3
  /\ fst (Singleton.initEmbedder thirdTime
            (Singleton.after thirdTime 2 (Singleton.initial nat)))
     = Returned examplePipe.
Proof.
  apply (@initEmbedder_retries_after_failure nat thirdTime 1 ModelLoadError).
  reflexivity.
Defined.

Lemma initEmbedder_loads_once_witness :
  fst (Singleton.initEmbedder thirdTime
         (Singleton.after thirdTime 7 (Singleton.initial nat)))
  = Returned examplePipe
  /\ Singleton.attempts (Singleton.after thirdTime 8 (Singleton.initial nat))
     = 3.
Proof.
  destruct (@initEmbedder_loads_once nat thirdTime 2 examplePipe eq_refl)
    as [Hlater _].
  exact (Hlater 7 ltac:(lia)).
Defined.

(** ** Archiving and the model *)

Lemma embedBatch_no_model (Float32Array : Type) (texts : list jsString)
      (opts : options) :
  embedBatch (@None (pipeline Float32Array)) texts opts
  = (Threw ModelLoadError, []).
Proof. reflexivity. Qed.

(** X17: The model is only needed for new content: a run of [archiveSession]
    that returns without a model (nothing passed the filters, or
    everything that did was stored already) returns the same counts with
    any model, adds nothing to the database and reports no progress. *)
Theorem archiveSession_needs_no_model
        (Float32Array : Type) (hashContent : jsString -> jsString)
        (JSON_parse : jsString -> option value)
        (readTranscript : jsString -> transcriptFile)
        (lessThan : nat -> value -> option bool)
        (config : Config) (clock : Z)
        (db db' : SqlJsDatabase Float32Array) (transcriptPath : jsString)
        (projectId : option jsString) (onProgress : bool)
        (result : ArchiveResult) (calls : list progress) :
  archiveSession hashContent None JSON_parse readTranscript lessThan
                 (configValue config) clock
                 db transcriptPath projectId onProgress
  = (Returned result, db', calls) ->
  forall provider : option (pipeline Float32Array),
    archiveSession hashContent provider JSON_parse readTranscript lessThan
                   (configValue config)
                   clock db transcriptPath projectId onProgress
    = (Returned result, db, []).
Proof.
  intros Hrun provider.
  rewrite archiveSession_config in Hrun; rewrite archiveSession_config.
  destruct (parseTranscript JSON_parse readTranscript transcriptPath)
    as [messages| e |]; try discriminate.
  destruct (@archiveMessages_cases Float32Array hashContent None config clock
              db messages transcriptPath projectId onProgress)
    as [[Hnil Hnone] | [[_ [Hpending Hnone]] | [_ [_ [calls' Hnone]]]]].
  - rewrite Hnone in Hrun; injection Hrun as <- _ _.
    rewrite Hnil; reflexivity.
  - rewrite Hnone in Hrun; injection Hrun as <- _ _.
    destruct (@archiveMessages_cases Float32Array hashContent provider config
                clock db messages transcriptPath projectId onProgress)
      as [[Hnil Hsome] | [[_ [_ Hsome]] | [_ [Hne _]]]].
    + rewrite Hsome, Hnil; reflexivity.
    + exact Hsome.
    + contradiction.
  - rewrite embedBatch_no_model in Hnone.
    destruct Hnone as [[e [_ Hnone]] | [[Hb _] | [embs [Hb _]]]];
      [rewrite Hnone in Hrun | |]; discriminate.
Qed.

Lemma archiveSession_needs_no_model_witness :
  archiveSession trim (Some examplePipe) briefParse briefTranscripts
                 neverLess (configValue ConfigModule.DEFAULT_CONFIG) 0%Z
                 (@nil (Memory nat))
                 (str "/sessions/brief.jsonl") None false
  = (Returned {| archived := 0; skipped := 0; duplicates := 0 |}, [], []).
Proof.
  apply (@archiveSession_needs_no_model
           nat trim briefParse briefTranscripts neverLess
           ConfigModule.DEFAULT_CONFIG
           0%Z [] [] (str "/sessions/brief.jsonl") None false
           {| archived := 0; skipped := 0; duplicates := 0 |} []).
  vm_compute; reflexivity.
Defined.

Section Rows.
Variable Float32Array : Type.
Variable hashContent : jsString -> jsString.
Variable pipe : pipeline Float32Array.

Lemma storeAll_rows (sessionId : jsString) (projectId : option jsString)
      (items : list (jsString * Date)) :
  forall (db : SqlJsDatabase Float32Array) (embeddings : list Float32Array)
         (result : ArchiveResult),
    map Some embeddings
    = map (fun t => pipe (PASSAGE_PREFIX ++ t)) (map fst items) ->
    exists news,
      fst (storeAll hashContent db sessionId projectId items embeddings
                    result)
      = db ++ news
      /\ Forall (rowOfRun hashContent (Some pipe) sessionId projectId) news.
Proof.
  induction items as [|[content timestamp] items IH];
    intros db embeddings result Hembeddings.
  - exists []; split; [now rewrite app_nil_r | constructor].
  - destruct embeddings as [|output embeddings]; [discriminate|].
    cbn [map fst] in Hembeddings.
    injection Hembeddings as Houtput Hrest.
    cbn [storeAll hd_error tl]; cbv zeta.
    unfold insertMemory; cbn [Database.content].
    destruct (find _ db) as [existing|]; cbn [fst snd].
    + apply IH; exact Hrest.
    + destruct (IH (db ++ [{| id := nextId db;
                               Database.content := content;
                               contentHash := hashContent content;
                               embedding := Some output;
                               Database.projectId := projectId;
                               sourceSession := sessionId;
                               Database.timestamp := timestamp |}])
                   embeddings (archive1 result) Hrest)
        as [news [Hnews Hrows]].
      eexists; split.
      * cbn [embedding Database.projectId sourceSession Database.timestamp].
        rewrite Hnews, <- app_assoc; reflexivity.
      * constructor; [|exact Hrows].
        unfold rowOfRun; cbn.
        repeat split; exists pipe, output; repeat split; congruence.
Qed.

End Rows.

(** X18: Each row a run of [archiveSession] adds to the database holds the
    embedding of its own content (the model's answer to the content as
    a passage), the session id of the transcript path, the project the
    run was given and the digest of its content; a run that does not
    return adds no row.  (The store is the one the specification
    describes.) *)
Theorem archived_rows_hold_their_embedding
        (Float32Array : Type) (hashContent : jsString -> jsString)
        (provider : option (pipeline Float32Array))
        (JSON_parse : jsString -> option value)
        (readTranscript : jsString -> transcriptFile)
        (lessThan : nat -> value -> option bool)
        (config : Config) (clock : Z)
        (db db' : SqlJsDatabase Float32Array) (transcriptPath : jsString)
        (projectId : option jsString) (onProgress : bool)
        (o : outcome ArchiveResult) (calls : list progress) :
  archiveSession hashContent provider JSON_parse readTranscript lessThan
                 (configValue config) clock
                 db transcriptPath projectId onProgress
  = (o, db', calls) ->
  exists news,
    db' = db ++ news
    /\ Forall (rowOfRun hashContent provider (getSessionId transcriptPath)
                        projectId) news
    /\ ((forall result, o <> Returned result) -> news = []).
Proof.
  assert (Hsame : forall o', (o', db, @nil progress) = (o, db', calls) ->
            exists news,
              db' = db ++ news
              /\ Forall (rowOfRun hashContent provider
                                  (getSessionId transcriptPath) projectId) news
              /\ ((forall result, o <> Returned result) -> news = [])).
  { intros o' Heq; injection Heq as _ <- _.
    exists []; split; [now rewrite app_nil_r | split; [constructor | auto]]. }
  rewrite archiveSession_config.
  destruct (parseTranscript JSON_parse readTranscript transcriptPath)
    as [messages| e |]; [| apply Hsame | apply Hsame].
  destruct (@archiveMessages_cases Float32Array hashContent provider config
              clock db messages transcriptPath projectId onProgress)
    as [[_ Hrun] | [[_ [_ Hrun]] | [_ [_ [calls' Hrun]]]]].
  - rewrite Hrun; apply Hsame.
  - rewrite Hrun; apply Hsame.
  - destruct Hrun as [[e [_ Hrun]] | [[_ Hrun] | [embeddings [Hbatch Hrun]]]];
      cbv zeta in Hrun; rewrite Hrun; intros Heq.
    + injection Heq as _ <- _.
      exists []; split; [now rewrite app_nil_r | split; [constructor | auto]].
    + injection Heq as _ <- _.
      exists []; split; [now rewrite app_nil_r | split; [constructor | auto]].
    + injection Heq as <- <- _.
      destruct provider as [pipe|];
        [| rewrite embedBatch_no_model in Hbatch; discriminate].
      assert (Hloop : embedEach pipe
                        (map (fun t => PASSAGE_PREFIX ++ t)
                             (map fst
                                  (snd (fold_left
                                          (considerMessage hashContent config
                                                           clock db)
                                          messages (emptyResult, [])))))
                        []
                      = Returned embeddings).
      { rewrite <- (@embedBatch_loop Float32Array pipe _
                      (archiveOptions onProgress))
          by discriminate.
        now rewrite Hbatch. }
      pose proof (embedEach_returned _ _ _ _ Hloop) as Hall.
      destruct (@embedEach_ok Float32Array pipe PASSAGE_PREFIX _ Hall [])
        as [es [Hes Hmap]].
      rewrite Hes in Hloop; injection Hloop as <-.
      destruct (@storeAll_rows Float32Array hashContent pipe
                  (getSessionId transcriptPath) projectId
                  (snd (fold_left
                          (considerMessage hashContent config clock db)
                          messages (emptyResult, [])))
                  db es
                  (fst (fold_left
                          (considerMessage hashContent config clock db)
                          messages (emptyResult, [])))
                  Hmap)
        as [news [Hnews Hrows]].
      exists news; split; [exact Hnews | split; [exact Hrows|]].
      intros Hnot; exfalso; eapply Hnot; reflexivity.
Qed.

Lemma archived_rows_hold_their_embedding_witness :
  exists news,
    snd (fst (exampleSession (Some examplePipe) [] twicePath)) = [] ++ news
    /\ Forall (rowOfRun trim (Some examplePipe) (str "twice")
                        (Some (str "cortex"))) news
    /\ ((forall result,
            fst (fst (exampleSession (Some examplePipe) [] twicePath))
            <> Returned result) ->
        news = []).
Proof.
  apply (@archived_rows_hold_their_embedding
           nat trim (Some examplePipe) exampleParse exampleTranscripts
           neverLess ConfigModule.DEFAULT_CONFIG 0%Z []
           (snd (fst (exampleSession (Some examplePipe) [] twicePath)))
           twicePath (Some (str "cortex")) true
           (fst (fst (exampleSession (Some examplePipe) [] twicePath)))
           (snd (exampleSession (Some examplePipe) [] twicePath))).
  vm_compute; reflexivity.
Defined.

(** ** Archiving content directly *)

(** X19: [archiveContent] stores content once: a call that returns reports
    success exactly when the content was not stored yet, leaves the
    database as it was when it reports a duplicate, and afterwards the
    content is stored, so that archiving it again, with or without a
    model, reports a duplicate and changes nothing.  (The store is the
    one the specification describes.) *)
Theorem archiveContent_stores_once
        (Float32Array : Type) (hashContent : jsString -> jsString)
        (provider : option (pipeline Float32Array)) (clock : Z)
        (db db' : SqlJsDatabase Float32Array) (content : jsString)
        (projectId : option jsString) (result : ContentResult) :
  archiveContent hashContent provider clock db content projectId
  = (Returned result, db') ->
  success result = negb (contentExists hashContent db content)
  /\ isDuplicate result = contentExists hashContent db content
  /\ (isDuplicate result = true -> db' = db)
  /\ contentExists hashContent db' content = true
  /\ forall (provider' : option (pipeline Float32Array)) (clock' : Z)
            (projectId' : option jsString),
      archiveContent hashContent provider' clock' db' content projectId'
      = (Returned {| success := false; isDuplicate := true |}, db').
Proof.
  unfold archiveContent.
  destruct (contentExists hashContent db content) eqn:Hexists.
  - intros Heq; injection Heq as <- <-; cbn [success isDuplicate negb].
    repeat split; try reflexivity; [exact Hexists|].
    intros provider' clock' projectId'; now rewrite Hexists.
  - destruct (fst (embedBatch provider [content] noOptions))
      as [embeddings| e |]; try discriminate.
    cbv zeta.
    match goal with
    | |- context [insertMemory hashContent db ?m] =>
        destruct (insertMemory_cases hashContent db m)
          as [[Hdup _] | [_ [Hnew [row [Hdb [_ Hhash]]]]]]
    end.
    + cbn [Database.content] in Hdup; congruence.
    + rewrite Hnew, Hdb; cbn [Database.content negb] in *.
      intros Heq; injection Heq as <- <-; cbn [success isDuplicate].
      assert (Hstored : contentExists hashContent (db ++ [row]) content
                        = true).
      { rewrite contentExists_app; unfold contentExists at 2.
        cbn [existsb]; rewrite Hhash, jsString_eqb_refl.
        now rewrite orb_true_r. }
      repeat split; try reflexivity; try discriminate; [exact Hstored|].
      intros provider' clock' projectId'; now rewrite Hstored.
Qed.

Lemma archiveContent_stores_once_witness :
  contentExists trim
    (snd (archiveContent trim (Some examplePipe) 0%Z (@nil (Memory nat))
                         jwtParagraph None))
    jwtParagraph
  = true.
Proof.
  apply (@archiveContent_stores_once nat trim (Some examplePipe) 0%Z []
           (snd (archiveContent trim (Some examplePipe) 0%Z (@nil (Memory nat))
                                jwtParagraph None))
           jwtParagraph None {| success := true; isDuplicate := false |}).
  vm_compute; reflexivity.
Defined.

(** ** Lines of a transcript *)

Section Lines.
Variable JSON_parse : jsString -> option value.

Lemma parse_lines (lines : list jsString) :
  forall messages,
    fold_left
      (fun messages line =>
         match parseLine JSON_parse line with
         | Some m => messages ++ [m]
         | None => messages
         end) lines messages
    = messages ++ flat_map (lineMessages JSON_parse) lines.
Proof.
  induction lines as [|line lines IH]; intros messages; cbn [fold_left flat_map].
  - now rewrite app_nil_r.
  - rewrite IH; unfold lineMessages at 2.
    destruct (parseLine JSON_parse line); cbn [app];
      [now rewrite <- app_assoc | reflexivity].
Qed.

Lemma malformed_no_message (line : jsString) :
  malformed JSON_parse line -> parseLine JSON_parse line = None.
Proof.
  unfold malformed, parseLine; intros [Hblank | Hparse].
  - now rewrite Hblank.
  - destruct (nonEmpty (trim line)); [|reflexivity]; cbn [negb].
    destruct (JSON_parse line) as [[| | b | n | s | items | o]|];
      try reflexivity; contradiction.
Qed.

Lemma parseLine_content (line : jsString) (m : Msg.TranscriptMessage) :
  parseLine JSON_parse line = Some m -> nonEmpty (Msg.content m) = true.
Proof.
  unfold parseLine.
  destruct (negb (nonEmpty (trim line))); [discriminate|].
  destruct (JSON_parse line) as [parsed|]; [|discriminate].
  assert (Hbody :
    (if truthy (get parsed "role") && truthy (get parsed "content")
     then
       let content := extractTextContent (get parsed "content") in
       if nonEmpty content
       then Some {| Msg.role := get parsed "role";
                    Msg.content := content;
                    Msg.timestamp := get parsed "timestamp" |}
       else None
     else if (isStr (get parsed "type") "message"
              || isStr (get parsed "type") "user"
              || isStr (get parsed "type") "assistant")
             && truthy (get parsed "message")
     then
       let message := get parsed "message" in
       let content := extractTextContent (get message "content") in
       if nonEmpty content
       then Some {| Msg.role := get message "role";
                    Msg.content := content;
                    Msg.timestamp := get parsed "timestamp" |}
       else None
     else None) = Some m -> nonEmpty (Msg.content m) = true).
  { cbv zeta.
    destruct (truthy (get parsed "role") && truthy (get parsed "content")).
    - destruct (nonEmpty (extractTextContent (get parsed "content"))) eqn:Hc;
        [|discriminate].
      intros Heq; injection Heq as <-; exact Hc.
    - destruct ((isStr (get parsed "type") "message"
                 || isStr (get parsed "type") "user"
                 || isStr (get parsed "type") "assistant")
                && truthy (get parsed "message")); [|discriminate].
      destruct (nonEmpty (extractTextContent
                            (get (get parsed "message") "content"))) eqn:Hc;
        [|discriminate].
      intros Heq; injection Heq as <-; exact Hc. }
  destruct parsed; try discriminate; exact Hbody.
Qed.

End Lines.

(** X20: Malformed lines are skipped: a line of the transcript that is
    blank, that is not JSON, or that is the JSON of something other
    than an object ([null], a number, a string, an array) adds no
    message and does not disturb the lines around it. *)
Theorem malformed_lines_are_skipped
        (JSON_parse : jsString -> option value)
        (readTranscript : jsString -> transcriptFile)
        (path path' : jsString) (before after : list jsString)
        (line : jsString) :
  readTranscript path = Lines (before ++ line :: after) ->
  readTranscript path' = Lines (before ++ after) ->
  malformed JSON_parse line ->
  parseTranscript JSON_parse readTranscript path
  = parseTranscript JSON_parse readTranscript path'.
Proof.
  intros Hpath Hpath' Hline; unfold parseTranscript.
  rewrite Hpath, Hpath', !parse_lines, !flat_map_app.
  cbn [flat_map]; unfold lineMessages at 2.
  now rewrite (malformed_no_message Hline).
Qed.

Lemma malformed_lines_are_skipped_witness :
  parseTranscript briefParse gappyTranscripts (str "/sessions/gappy.jsonl")
  = parseTranscript briefParse gappyTranscripts (str "/sessions/whole.jsonl").
Proof.
  apply (@malformed_lines_are_skipped briefParse gappyTranscripts
           (str "/sessions/gappy.jsonl") (str "/sessions/whole.jsonl")
           [lineBrief] [lineBrief] (str "{'role':")).
  - reflexivity.
  - reflexivity.
  - right; vm_compute; exact I.
Defined.

(** X21: Every message [parseTranscript] returns has a non-empty content,
    and there is at most one message per line of the file, in the order
    of the lines. *)
Theorem parsed_messages_have_content
        (JSON_parse : jsString -> option value)
        (readTranscript : jsString -> transcriptFile)
        (path : jsString) (messages : list Msg.TranscriptMessage) :
  parseTranscript JSON_parse readTranscript path = Returned messages ->
  Forall (fun m => nonEmpty (Msg.content m) = true) messages
  /\ forall lines,
      readTranscript path = Lines lines ->
      messages = flat_map (lineMessages JSON_parse) lines
      /\ List.length messages <= List.length lines.
Proof.
  unfold parseTranscript.
  destruct (readTranscript path) as [| |lines]; try discriminate.
  - intros Heq; injection Heq as <-; split; [constructor | discriminate].
  - rewrite parse_lines; cbn [app].
    intros Heq; injection Heq as <-.
    split.
    + apply Forall_forall; intros m Hin.
      apply in_flat_map in Hin; destruct Hin as [line [_ Hin]].
      unfold lineMessages in Hin.
      destruct (parseLine JSON_parse line) as [m'|] eqn:Hline;
        [|contradiction].
      destruct Hin as [<- | []].
      exact (parseLine_content _ _ Hline).
    + intros lines' Heq; injection Heq as <-.
      split; [reflexivity|].
      induction lines as [|line lines IH]; [constructor|].
      cbn [flat_map]; rewrite length_app; unfold lineMessages at 1.
      destruct (parseLine JSON_parse line); cbn [List.length]; lia.
Qed.

Lemma parsed_messages_have_content_witness :
  Forall (fun m => nonEmpty (Msg.content m) = true) (parsedMessages twicePath)
  /\ forall lines,
      exampleTranscripts twicePath = Lines lines ->
      parsedMessages twicePath = flat_map (lineMessages exampleParse) lines
      /\ List.length (parsedMessages twicePath) <= List.length lines.
Proof.
  apply (@parsed_messages_have_content exampleParse exampleTranscripts
           twicePath (parsedMessages twicePath)).
  vm_compute; reflexivity.
Defined.

(** ** Counting words *)

Lemma split_word (w : jsString) :
  isWordText w ->
  forall prev, split_go whitespaceRun prev 0 w = [w].
Proof.
  intros [Hne Hword]; induction w as [|c w IH]; [congruence|]; intros prev.
  cbn [forallb] in Hword; apply andb_true_iff in Hword.
  destruct Hword as [Hc Hw]; apply negb_true_iff in Hc.
  cbn [split_go]; unfold whitespaceRun at 1; cbn [runLength]; rewrite Hc.
  destruct w as [|c' w']; [reflexivity|].
  rewrite IH; [reflexivity | discriminate | exact Hw].
Qed.

Lemma split_skip (xs rest : jsString) :
  forall prev prev',
    split_go whitespaceRun prev (List.length xs) (xs ++ rest)
    = split_go whitespaceRun prev' 0 rest.
Proof.
  induction xs as [|x xs IH]; intros prev prev'; cbn [List.length app].
  - destruct rest; reflexivity.
  - cbn [split_go]; apply IH.
Qed.

Lemma split_word_gap (sep rest : jsString) (c : char) :
  isGap sep -> isWhiteSpace c = false ->
  forall (w : jsString) prev,
    forallb (fun c => negb (isWhiteSpace c)) w = true ->
    split_go whitespaceRun prev 0 (w ++ sep ++ c :: rest)
    = w :: split_go whitespaceRun None 0 (c :: rest).
Proof.
  intros [Hne Hsep] Hc; induction w as [|x w IH]; intros prev Hw.
  - destruct sep as [|s sep']; [congruence|].
    cbn [app].
    transitivity ([] :: split_go whitespaceRun (Some s) (List.length sep')
                                 (sep' ++ c :: rest)).
    + assert (Hrun : whitespaceRun prev (s :: sep' ++ c :: rest)
                     = S (List.length sep'))
        by apply (@runLength_all isWhiteSpace (s :: sep') rest c Hsep Hc).
      change (split_go whitespaceRun prev 0 (s :: sep' ++ c :: rest))
        with (match whitespaceRun prev (s :: sep' ++ c :: rest) with
              | S k => [] :: split_go whitespaceRun (Some s) k
                                      (sep' ++ c :: rest)
              | O => consHead s (split_go whitespaceRun (Some s) 0
                                          (sep' ++ c :: rest))
              end).
      now rewrite Hrun.
    + f_equal; apply split_skip.
  - cbn [forallb] in Hw; apply andb_true_iff in Hw.
    destruct Hw as [Hx Hw]; apply negb_true_iff in Hx.
    cbn [app split_go]; unfold whitespaceRun at 1; cbn [runLength].
    rewrite Hx, (IH (Some x) Hw); reflexivity.
Qed.

Lemma split_words (sep : jsString) (words : list jsString) :
  isGap sep -> Forall isWordText words -> words <> [] ->
  split whitespaceRun (join sep words) = words.
Proof.
  intros Hsep Hwords Hne; unfold split.
  induction Hwords as [|w words Hw Hwords IH]; [congruence|].
  destruct words as [|w2 words]; [now apply split_word|].
  assert (Hnext : exists c rest, join sep (w2 :: words) = c :: rest
                                 /\ isWhiteSpace c = false).
  { inversion Hwords as [|? ? [Hne2 Hw2] _]; subst.
    destruct w2 as [|c w2']; [congruence|].
    cbn [forallb] in Hw2; apply andb_true_iff in Hw2.
    destruct Hw2 as [Hc _]; apply negb_true_iff in Hc.
    destruct words; cbn [join app]; eauto. }
  destruct Hnext as [c [rest [Hjoin Hc]]].
  change (join sep (w :: w2 :: words))
    with (w ++ sep ++ join sep (w2 :: words)).
  rewrite Hjoin, (@split_word_gap sep rest c Hsep Hc w None (proj2 Hw)).
  rewrite <- Hjoin, IH; [reflexivity | discriminate].
Qed.

(** X22: Ten words are enough: a text of at least ten words separated by
    white space is valuable, whether or not it has any of the words or
    constructs the value patterns look for. *)
Theorem isValuable_ten_words (sep : jsString) (words : list jsString) :
  isGap sep -> Forall isWordText words -> 10 <= List.length words ->
  isValuable (join sep words) = true.
Proof.
  intros Hsep Hwords Hten; unfold isValuable.
  destruct (existsb _ VALUABLE_PATTERNS); [reflexivity|].
  rewrite split_words; [now apply Nat.leb_le | exact Hsep | exact Hwords |].
  destruct words; [cbn in Hten; lia | discriminate].
Qed.

Lemma isValuable_ten_words_witness :
  isValuable
    (join (str " ")
          [str "we"; str "met"; str "at"; str "noon"; str "and"; str "had";
           str "tea"; str "with"; str "some"; str "cake"])
  = true.
Proof.
  apply (@isValuable_ten_words (str " ")
           [str "we"; str "met"; str "at"; str "noon"; str "and"; str "had";
            str "tea"; str "with"; str "some"; str "cake"]).
  - split; [discriminate | reflexivity].
  - repeat (constructor; [split; [discriminate | reflexivity]|]); constructor.
  - cbn [List.length]; lia.
Defined.

(** ** The report of a run *)

Lemma str_inj (s t : string) : str s = str t -> s = t.
Proof.
  unfold str; intros Heq.
  rewrite <- (string_of_list_ascii_of_string s),
          <- (string_of_list_ascii_of_string t).
  f_equal.
  revert Heq; generalize (list_ascii_of_string t) as l2.
  induction (list_ascii_of_string s) as [|a l1 IH]; intros [|b l2] Heq;
    try discriminate; [reflexivity|].
  cbn [map] in Heq; injection Heq as Hab Hrest.
  rewrite <- (ascii_N_embedding a), <- (ascii_N_embedding b), Hab.
  f_equal; now apply IH.
Qed.

Lemma decimal_inj (n m : nat) : decimal n = decimal m -> n = m.
Proof.
  unfold decimal; intros Heq; apply str_inj in Heq.
  assert (Huint : Nat.to_uint n = Nat.to_uint m).
  { pose proof (NilEmpty.usu (Nat.to_uint n)) as Hn.
    pose proof (NilEmpty.usu (Nat.to_uint m)) as Hm.
    rewrite Heq in Hn; congruence. }
  rewrite <- (DecimalNat.Unsigned.of_to n), <- (DecimalNat.Unsigned.of_to m).
  now rewrite Huint.
Qed.

Lemma decimal_digits (n : nat) : forallb isDigit (decimal n) = true.
Proof.
  unfold decimal; generalize (Nat.to_uint n) as u.
  induction u; cbn; auto.
Qed.

Lemma digits_then (d1 d2 r1 r2 : jsString) (c1 c2 : char) :
  forallb isDigit d1 = true -> forallb isDigit d2 = true ->
  isDigit c1 = false -> isDigit c2 = false ->
  d1 ++ c1 :: r1 = d2 ++ c2 :: r2 ->
  d1 = d2 /\ r1 = r2.
Proof.
  intros H1 H2 Hc1 Hc2; revert d2 H2.
  induction d1 as [|x d1 IH]; intros [|y d2] H2 Heq; cbn [app forallb] in *.
  - injection Heq as _ Hr; auto.
  - injection Heq as Hc _; apply andb_true_iff in H2; destruct H2 as [Hy _].
    congruence.
  - injection Heq as Hc _; apply andb_true_iff in H1; destruct H1 as [Hx _].
    congruence.
  - injection Heq as Hxy Hrest.
    apply andb_true_iff in H1; destruct H1 as [_ H1].
    apply andb_true_iff in H2; destruct H2 as [_ H2].
    destruct (IH H1 d2 H2 Hrest) as [-> ->]; now subst.
Qed.

Lemma cons_inv_head (A : Type) (x : A) (l1 l2 : list A) :
  x :: l1 = x :: l2 -> l1 = l2.
Proof. intros Heq; now injection Heq. Qed.

Ltac strip_prefix H :=
  repeat first [apply app_inv_head in H | apply cons_inv_head in H].

(** X23: The report tells the counts: two results that differ in a count
    have different reports. *)
Theorem formatArchiveResult_tells_counts (r1 r2 : ArchiveResult) :
  r1 <> r2 -> formatArchiveResult r1 <> formatArchiveResult r2.
Proof.
  intros Hne Heq; apply Hne; clear Hne; revert Heq.
  destruct r1 as [a1 s1 d1], r2 as [a2 s2 d2].
  unfold formatArchiveResult;
    cbn [app join archived skipped duplicates].
  rewrite <- !app_assoc; intros Heq.
  strip_prefix Heq.
  destruct (@digits_then (decimal a1) (decimal a2) _ _ 32%N 32%N
              (decimal_digits a1) (decimal_digits a2) eq_refl eq_refl Heq)
    as [Ha Heq1].
  strip_prefix Heq1.
  destruct (@digits_then (decimal s1) (decimal s2) _ _ 32%N 32%N
              (decimal_digits s1) (decimal_digits s2) eq_refl eq_refl Heq1)
    as [Hs Heq2].
  strip_prefix Heq2.
  destruct (@digits_then (decimal d1) (decimal d2) _ _ 32%N 32%N
              (decimal_digits d1) (decimal_digits d2) eq_refl eq_refl Heq2)
    as [Hd _].
  apply decimal_inj in Ha, Hs, Hd; now subst.
Qed.

Lemma formatArchiveResult_tells_counts_witness :
  formatArchiveResult {| archived := 1; skipped := 23; duplicates := 0 |}
  <> formatArchiveResult {| archived := 12; skipped := 3; duplicates := 0 |}.
Proof.
  apply (@formatArchiveResult_tells_counts
           {| archived := 1; skipped := 23; duplicates := 0 |}
           {| archived := 12; skipped := 3; duplicates := 0 |}).
  discriminate.
Defined.

(** ** Command line arguments *)

Lemma allFlag_is_option (arg : jsString) :
  Cli.isAllFlag arg = true -> Cli.startsWith arg (str "--") = true.
Proof.
  unfold Cli.isAllFlag; intros Hflag.
  apply orb_true_iff in Hflag.
  destruct Hflag as [H | H]; apply jsString_eqb_eq in H; subst; reflexivity.
Qed.

Lemma join_cons_app (sep x a : jsString) (rest : list jsString) :
  join sep ((x ++ sep ++ a) :: rest) = x ++ sep ++ join sep (a :: rest).
Proof.
  destruct rest as [|p rest]; [reflexivity|].
  change (join sep ((x ++ sep ++ a) :: p :: rest))
    with ((x ++ sep ++ a) ++ sep ++ join sep (p :: rest)).
  change (join sep (a :: p :: rest)) with (a ++ sep ++ join sep (p :: rest)).
  now rewrite <- !app_assoc.
Qed.

Lemma recall_loop (args : list jsString) :
  forall st : Cli.recallArguments,
    let r := fold_left Cli.recallArgument args st in
    Cli.includeAll r = Cli.includeAll st || existsb Cli.isAllFlag args
    /\ Cli.query r
       = if nonEmpty (Cli.query st)
         then join (str " ") (Cli.query st :: plainArguments args)
         else join (str " ") (dropEmpty (plainArguments args)).
Proof.
  induction args as [|arg args IH]; intros st.
  - cbn; split; [now rewrite orb_false_r|].
    destruct (Cli.query st); reflexivity.
  - cbn [fold_left existsb plainArguments filter]; cbv zeta.
    fold (plainArguments args).
    destruct (IH (Cli.recallArgument st arg)) as [Hall Hquery].
    rewrite Hall, Hquery; clear Hall Hquery IH.
    unfold Cli.recallArgument.
    destruct (Cli.isAllFlag arg) eqn:Hflag.
    + rewrite (allFlag_is_option arg Hflag); cbn [negb Cli.includeAll Cli.query].
      split; [now rewrite orb_true_r | reflexivity].
    + destruct (Cli.startsWith arg (str "--"));
        cbn [negb Cli.includeAll Cli.query orb]; [split; reflexivity|].
      split; [reflexivity|].
      destruct (Cli.query st) as [|c q] eqn:Hq; cbn [nonEmpty List.length Nat.eqb negb app].
      * destruct arg as [|a arg']; reflexivity.
      * change (c :: q ++ str " " ++ arg) with ((c :: q) ++ str " " ++ arg).
        replace (nonEmpty ((c :: q) ++ str " " ++ arg)) with true
          by reflexivity.
        apply join_cons_app.
Qed.

(** X24: The query of [recall] is its arguments that are not options,
    joined by single spaces, empty arguments before the first word
    left out; and all projects are searched exactly when [--all] or
    [--global] is among the arguments, wherever it stands. *)
Theorem recall_query_joins_arguments (args : list jsString) :
  Cli.query (Cli.parseRecallArguments args)
  = join (str " ") (dropEmpty (plainArguments args))
  /\ Cli.includeAll (Cli.parseRecallArguments args)
     = existsb Cli.isAllFlag args.
Proof.
  destruct (recall_loop args {| Cli.query := []; Cli.includeAll := false |})
    as [Hall Hquery].
  split; [exact Hquery | exact Hall].
Qed.

Lemma last_cons (A : Type) (l : list A) :
  forall x d : A, last (x :: l) d = last l x.
Proof.
  induction l as [|y l IH]; intros x d; [reflexivity|].
  change (last (x :: y :: l) d) with (last (y :: l) d).
  now rewrite !IH.
Qed.

Lemma save_loop (args : list jsString) :
  forall st : Cli.saveArguments,
    let r := fold_left Cli.saveArgument args st in
    Cli.forceGlobal r = Cli.forceGlobal st || existsb Cli.isAllFlag args
    /\ Cli.transcriptPath r
       = last (flat_map (fun arg => match pathArgument arg with
                                    | Some p => [p]
                                    | None => []
                                    end) args)
              (Cli.transcriptPath st).
Proof.
  induction args as [|arg args IH]; intros st.
  - cbn; split; [now rewrite orb_false_r | reflexivity].
  - cbn [fold_left existsb flat_map]; cbv zeta.
    destruct (IH (Cli.saveArgument st arg)) as [Hglobal Hpath].
    rewrite Hglobal, Hpath; clear Hglobal Hpath IH.
    set (paths := flat_map _ args).
    unfold Cli.saveArgument, pathArgument.
    destruct (Cli.isAllFlag arg);
      [cbn; split; [now rewrite orb_true_r | reflexivity]|].
    destruct (Cli.startsWith arg (str "--transcript="));
      [| destruct (Cli.startsWith arg (str "--"))];
      cbn [negb Cli.forceGlobal Cli.transcriptPath orb app];
      (split; [reflexivity|]);
      try reflexivity; symmetry; apply last_cons.
Qed.

(** X25: The arguments of [save] are read independently of their order: the
    archive is global exactly when [--all] or [--global] is among them,
    and the transcript path is the one the last argument that gives a
    path gives ([--transcript=PATH], or an argument that is not an
    option), the empty path when there is none; other options are
    ignored. *)
Theorem save_arguments_last_path_wins (args : list jsString) :
  Cli.forceGlobal (Cli.parseSaveArguments args) = existsb Cli.isAllFlag args
  /\ Cli.transcriptPath (Cli.parseSaveArguments args)
     = last (flat_map (fun arg => match pathArgument arg with
                                  | Some p => [p]
                                  | None => []
                                  end) args) [].
Proof.
  exact (save_loop args {| Cli.transcriptPath := []; Cli.forceGlobal := false |}).
Qed.

(** ** The configured minimum *)

Section Minimum.
Variable Float32Array : Type.
Variable hashContent : jsString -> jsString.
Variable clock : Z.
Variables config config' : Config.
Hypothesis Hconfig : (minContentLength (archive config) <= 50)%Z.
Hypothesis Hconfig' : (minContentLength (archive config') <= 50)%Z.

Lemma minLength_at_most (c : Config) :
  (minContentLength (archive c) <= 50)%Z -> (minLength c <= 50)%Z.
Proof.
  unfold minLength; intros Hc.
  destruct (minContentLength (archive c) =? 0)%Z; [reflexivity | exact Hc].
Qed.

Lemma considerChunks_minimum (db : SqlJsDatabase Float32Array)
      (message : Msg.TranscriptMessage) (chunks : list jsString) :
  Forall (fun chunk => MIN_CONTENT_LENGTH <= List.length chunk) chunks ->
  forall st,
    fold_left (considerChunk hashContent config clock db message) chunks st
    = fold_left (considerChunk hashContent config' clock db message) chunks st.
Proof.
  induction 1 as [|chunk chunks Hlen _ IH]; intros [result pending];
    [reflexivity|].
  cbn [fold_left]; rewrite <- IH; f_equal.
  unfold considerChunk.
  pose proof (minLength_at_most config Hconfig) as Hmin.
  pose proof (minLength_at_most config' Hconfig') as Hmin'.
  unfold MIN_CONTENT_LENGTH in Hlen.
  replace (Z.of_nat (List.length chunk) <? minLength config)%Z with false
    by (symmetry; apply Z.ltb_ge; lia).
  replace (Z.of_nat (List.length chunk) <? minLength config')%Z with false
    by (symmetry; apply Z.ltb_ge; lia).
  reflexivity.
Qed.

Lemma considerMessages_minimum (db : SqlJsDatabase Float32Array)
      (messages : list Msg.TranscriptMessage) :
  forall st,
    fold_left (considerMessage hashContent config clock db) messages st
    = fold_left (considerMessage hashContent config' clock db) messages st.
Proof.
  induction messages as [|m messages IH]; intros st; [reflexivity|].
  cbn [fold_left]; rewrite <- IH; f_equal.
  unfold considerMessage.
  destruct (negb (isStr (Msg.role m) "assistant")); [reflexivity|].
  apply considerChunks_minimum.
  apply Forall_forall; intros chunk Hin.
  exact (extractChunks_min _ _ Hin).
Qed.

End Minimum.

(** X26: A configured minimum of 50 or less has no effect: [extractChunks]
    has already dropped what is shorter than 50 code units, so two
    configurations with [archive.minContentLength] at most 50 (zero and
    negative values included) give the same run of [archiveSession]. *)
Theorem minimum_up_to_fifty_has_no_effect
        (Float32Array : Type) (hashContent : jsString -> jsString)
        (provider : option (pipeline Float32Array))
        (JSON_parse : jsString -> option value)
        (readTranscript : jsString -> transcriptFile)
        (lessThan : nat -> value -> option bool)
        (config config' : Config) (clock : Z)
        (db : SqlJsDatabase Float32Array) (transcriptPath : jsString)
        (projectId : option jsString) (onProgress : bool) :
  (minContentLength (archive config) <= 50)%Z ->
  (minContentLength (archive config') <= 50)%Z ->
  archiveSession hashContent provider JSON_parse readTranscript lessThan
                 (configValue config) clock
                 db transcriptPath projectId onProgress
  = archiveSession hashContent provider JSON_parse readTranscript lessThan
                   (configValue config')
                   clock db transcriptPath projectId onProgress.
Proof.
  intros Hconfig Hconfig'; rewrite !archiveSession_config.
  destruct (parseTranscript JSON_parse readTranscript transcriptPath)
    as [messages| e |]; try reflexivity.
  unfold archiveMessages.
  now rewrite (@considerMessages_minimum Float32Array hashContent clock
                 config config' Hconfig Hconfig' db messages).
Qed.

Lemma minimum_up_to_fifty_has_no_effect_witness :
  archiveSession trim (Some examplePipe) exampleParse exampleTranscripts
                 neverLess (configValue ConfigModule.DEFAULT_CONFIG) 0%Z
                 (@nil (Memory nat)) noisyPath None true
  = archiveSession trim (Some examplePipe) exampleParse exampleTranscripts
                   neverLess
                   (configValue
                      {| statusline := DEFAULT_STATUSLINE_CONFIG;
                         archive := {| autoOnCompact := true;
                                       projectScope := true;
                                       minContentLength := 10 |};
                         monitor := DEFAULT_MONITOR_CONFIG |})
                   0%Z (@nil (Memory nat)) noisyPath None true.
Proof.
  apply (@minimum_up_to_fifty_has_no_effect
           nat trim (Some examplePipe) exampleParse exampleTranscripts
           neverLess ConfigModule.DEFAULT_CONFIG
           {| statusline := DEFAULT_STATUSLINE_CONFIG;
              archive := {| autoOnCompact := true; projectScope := true;
                            minContentLength := 10 |};
              monitor := DEFAULT_MONITOR_CONFIG |}
           0%Z [] noisyPath None true).
  - cbn; lia.
  - cbn; lia.
Defined.

(** ** Loading without a usable file *)

(** X27: [loadConfig] never fails: without a configuration file, with one
    that cannot be read, with one that is not JSON, and with the JSON of
    [null], of a number, of a boolean, of an empty string, array or
    object, it returns the defaults. *)
Theorem loadConfig_falls_back (JSON_parse : jsString -> option value)
        (file : configFile) :
  match file with
  | ConfigText text =>
      match JSON_parse text with
      | Some (VObj (_ :: _)) | Some (VArr (_ :: _)) | Some (VStr (_ :: _)) =>
          False
      | _ => True
      end
  | _ => True
  end ->
  loadConfig JSON_parse file = configValue DEFAULT_CONFIG.
Proof.
  destruct file as [| |text]; cbn [loadConfig]; try reflexivity.
  destruct (JSON_parse text) as [[| | b | n | [|c s] | [|x items] | [|kv o]]|];
    try reflexivity; contradiction.
Qed.

Lemma loadConfig_falls_back_witness :
  loadConfig briefParse (ConfigText (str "{ statusline: ")) 
  = configValue DEFAULT_CONFIG.
Proof.
  apply (@loadConfig_falls_back briefParse (ConfigText (str "{ statusline: "))).
  exact I.
Defined.
